(** * pluggo: plugin lifecycle and RPC protocol

    A shallow embedding of the Go package [pluggo] (client, plugin server,
    function handler, function stub) together with the properties of its
    specification.  Go strings are byte strings ([string]); integers and
    durations are [Z]; maps are [gmap]; a method on a pointer receiver
    takes the receiver's state and returns the new one.  What the operating
    system, the network and the JSON library answer is read from explicit
    environment records, and every externally visible action is appended to
    a trace. *)

From Stdlib Require Import ZArith String Ascii List Lia Bool.
From stdpp Require Import gmap strings list.

Set Warnings "-register-all".

Open Scope string_scope.
Open Scope list_scope.
Open Scope Z_scope.

(** ** Go values *)

(** A byte of a Go string, as an integer in [0, 255]. *)
Definition byteZ (a : ascii) : Z := Z.of_N (N_of_ascii a).

(** The bytes of a Go string. *)
Definition bytes (s : string) : list Z := map byteZ (list_ascii_of_string s).

(** The newline, as a string. *)
Definition LF : string := String "010"%char "".

(** A rune literal such as ['-']. *)
Definition rune (a : ascii) : Z := byteZ a.

(** How a call ends: it returns, it panics, or it never returns. *)
Inductive Outcome (A : Type) : Type :=
| Returns (a : A)
| Panics (msg : string)
| Blocks.
Arguments Returns {A} a.
Arguments Panics {A} msg.
Arguments Blocks {A}.

(** The run-time error of a nil pointer dereference. *)
Definition nilDereference : string :=
  "runtime error: invalid memory address or nil pointer dereference".

(** An argument of a [fmt] verb: [%s], [%d] or [%q] of a rune. *)
Inductive fmtArg : Type :=
| ArgS (s : string)
| ArgD (n : Z)
| ArgQ (r : Z).

(** Go's [error] values as the package builds them.  [errorString] is what
    [errors.New] returns and also stands for an error of [os], [os/exec],
    [bufio], [net/http] or [encoding/json], known by its text; [Errorf]
    keeps the format and the arguments of a [fmt.Errorf] call; the last
    three are the error structs of errors.go that the package returns. *)
Inductive error : Type :=
| errorString (s : string)
| Errorf (format : string) (args : list fmtArg)
| PluginNotFoundError (Err : option error)
| PluginExecutionError (Err : error)
| FunctionExecutionError (Function : string) (Err : error).

Definition isPluginNotFoundError (e : option error) : Prop :=
  match e with Some (PluginNotFoundError _) => True | _ => False end.

Definition isPluginExecutionError (e : option error) : Prop :=
  match e with Some (PluginExecutionError _) => True | _ => False end.

(** ** unicode/utf8: decoding, as [for _, r := range s] does it *)

Module utf8.

Definition RuneError : Z := 0xFFFD.

Definition maskx : Z := 0x3F.
Definition mask2 : Z := 0x1F.
Definition mask3 : Z := 0x0F.
Definition mask4 : Z := 0x07.
Definition locb : Z := 0x80.
Definition hicb : Z := 0xBF.

(** The entries of the table [first]. *)
Definition xx : Z := 0xF1.
Definition as_ : Z := 0xF0.
Definition s1 : Z := 0x02.
Definition s2 : Z := 0x13.
Definition s3 : Z := 0x03.
Definition s4 : Z := 0x23.
Definition s5 : Z := 0x34.
Definition s6 : Z := 0x04.
Definition s7 : Z := 0x44.

(** [first[b]]: information about the first byte of an encoding. *)
Definition first (b : Z) : Z :=
  if b <? 0x80 then as_
  else if b <? 0xC2 then xx
  else if b <? 0xE0 then s1
  else if b =? 0xE0 then s2
  else if b <? 0xED then s3
  else if b =? 0xED then s4
  else if b <? 0xF0 then s3
  else if b =? 0xF0 then s5
  else if b <? 0xF4 then s6
  else if b =? 0xF4 then s7
  else xx.

(** [acceptRanges[i]]: the range allowed for the second byte. *)
Definition acceptRanges (i : Z) : Z * Z :=
  if i =? 0 then (locb, hicb)
  else if i =? 1 then (0xA0, hicb)
  else if i =? 2 then (locb, 0x9F)
  else if i =? 3 then (0x90, hicb)
  else if i =? 4 then (locb, 0x8F)
  else (0, 0).

Definition outside (lo hi b : Z) : bool := (b <? lo) || (hi <? b).

(** [utf8.DecodeRuneInString]: the first rune of [p] and its width. *)
Definition DecodeRune (p : list Z) : Z * nat :=
  match p with
  | [] => (RuneError, 0%nat)
  | b0 :: rest =>
    let x := first b0 in
    if as_ <=? x then
      ((if x =? as_ then b0 else RuneError), 1%nat)
    else
      let sz := Z.to_nat (Z.land x 7) in
      let '(lo, hi) := acceptRanges (Z.shiftr x 4) in
      if (length p <? sz)%nat then (RuneError, 1%nat)
      else match rest with
      | [] => (RuneError, 1%nat)
      | b1 :: rest1 =>
        if outside lo hi b1 then (RuneError, 1%nat)
        else if (sz <=? 2)%nat then
          (Z.lor (Z.shiftl (Z.land b0 mask2) 6) (Z.land b1 maskx), 2%nat)
        else match rest1 with
        | [] => (RuneError, 1%nat)
        | b2 :: rest2 =>
          if outside locb hicb b2 then (RuneError, 1%nat)
          else if (sz <=? 3)%nat then
            (Z.lor (Z.lor (Z.shiftl (Z.land b0 mask3) 12)
                          (Z.shiftl (Z.land b1 maskx) 6))
                   (Z.land b2 maskx), 3%nat)
          else match rest2 with
          | [] => (RuneError, 1%nat)
          | b3 :: _ =>
            if outside locb hicb b3 then (RuneError, 1%nat)
            else
              (Z.lor (Z.lor (Z.lor (Z.shiftl (Z.land b0 mask4) 18)
                                   (Z.shiftl (Z.land b1 maskx) 12))
                            (Z.shiftl (Z.land b2 maskx) 6))
                     (Z.land b3 maskx), 4%nat)
          end
        end
      end
  end.

(** The runes a [range] loop over [p] yields, in order.  Each step
    consumes at least one byte, so [length p] steps are enough. *)
Fixpoint rangeLoop (fuel : nat) (p : list Z) : list Z :=
  match fuel with
  | O => []
  | S fuel' =>
    match p with
    | [] => []
    | _ :: _ =>
      let '(r, w) := DecodeRune p in r :: rangeLoop fuel' (drop w p)
    end
  end.

Definition runes (s : string) : list Z :=
  rangeLoop (length (bytes s)) (bytes s).

End utf8.

(** ** unicode, strings, strconv: what the handshake parsing calls *)

Module unicode.

(** [unicode.IsSpace]: the Latin-1 spaces, then the White_Space table. *)
Definition IsSpace (r : Z) : bool :=
  if (0 <=? r) && (r <=? 0xFF) then
    (r =? 9) || (r =? 10) || (r =? 11) || (r =? 12) || (r =? 13)
    || (r =? 32) || (r =? 0x85) || (r =? 0xA0)
  else
    (r =? 0x1680) || ((0x2000 <=? r) && (r <=? 0x200A))
    || ((0x2028 <=? r) && (r <=? 0x2029)) || (r =? 0x202F)
    || (r =? 0x205F) || (r =? 0x3000).

End unicode.

Module gostrings.

(** [asciiSpace[c] == 1] *)
Definition asciiSpace (c : Z) : bool :=
  (c =? 9) || (c =? 10) || (c =? 11) || (c =? 12) || (c =? 13) || (c =? 32).

Definition RuneStart (b : Z) : bool := negb (Z.land b 0xC0 =? 0x80).

(** The loop of [utf8.DecodeLastRuneInString] that walks back from
    [start] to the first byte that can start a rune, not below [lim]. *)
Fixpoint backToStart (fuel : nat) (p : list Z) (start lim : Z) : Z :=
  match fuel with
  | O => start
  | S fuel' =>
    if start <? lim then start
    else if RuneStart (nth (Z.to_nat start) p 0) then start
    else backToStart fuel' p (start - 1) lim
  end.

(** [utf8.DecodeLastRuneInString] *)
Definition DecodeLastRune (p : list Z) : Z * nat :=
  let end_ := Z.of_nat (length p) in
  if end_ =? 0 then (utf8.RuneError, 0%nat)
  else
    let r := nth (Z.to_nat (end_ - 1)) p 0 in
    if r <? 0x80 then (r, 1%nat)
    else
      let lim := Z.max 0 (end_ - 4) in
      let start := backToStart 4 p (end_ - 2) lim in
      let start := Z.max 0 start in
      let '(r, size) := utf8.DecodeRune (drop (Z.to_nat start) p) in
      if start + Z.of_nat size =? end_ then (r, size)
      else (utf8.RuneError, 1%nat).

(** [TrimLeftFunc(s, unicode.IsSpace)] *)
Fixpoint trimLeftSpace (fuel : nat) (p : list Z) : list Z :=
  match fuel with
  | O => p
  | S fuel' =>
    match p with
    | [] => []
    | _ :: _ =>
      let '(r, w) := utf8.DecodeRune p in
      if unicode.IsSpace r then trimLeftSpace fuel' (drop w p) else p
    end
  end.

(** [TrimRightFunc(s, unicode.IsSpace)] *)
Fixpoint trimRightSpace (fuel : nat) (p : list Z) : list Z :=
  match fuel with
  | O => p
  | S fuel' =>
    match p with
    | [] => []
    | _ :: _ =>
      let '(r, size) := DecodeLastRune p in
      if unicode.IsSpace r
      then trimRightSpace fuel' (take (length p - size) p)
      else p
    end
  end.

(** The second loop of [TrimSpace]: ASCII spaces from the end, with the
    fall-back to the rune-aware trim at a non-ASCII byte. *)
Fixpoint trimRightFast (fuel : nat) (p : list Z) : list Z :=
  match fuel with
  | O => p
  | S fuel' =>
    match p with
    | [] => []
    | _ :: _ =>
      let c := nth (length p - 1) p 0 in
      if 0x80 <=? c then trimRightSpace (length p) p
      else if asciiSpace c then trimRightFast fuel' (take (length p - 1) p)
      else p
    end
  end.

(** The first loop of [TrimSpace]. *)
Fixpoint trimLeftFast (p : list Z) : list Z :=
  match p with
  | [] => []
  | c :: rest =>
    if 0x80 <=? c
    then trimRightSpace (length p) (trimLeftSpace (length p) p)
    else if asciiSpace c then trimLeftFast rest
    else trimRightFast (length p) p
  end.

Definition ofBytes (p : list Z) : string :=
  string_of_list_ascii (map (fun b => ascii_of_N (Z.to_N b)) p).

(** [strings.TrimSpace] *)
Definition TrimSpace (s : string) : string := ofBytes (trimLeftFast (bytes s)).

(** [strings.Join] *)
Fixpoint Join (elems : list string) (sep : string) : string :=
  match elems with
  | [] => ""
  | [e] => e
  | e :: rest => e +:+ sep +:+ Join rest sep
  end.

End gostrings.

Module strconv.

Inductive NumError : Type := ErrSyntax | ErrRange.

Definition isDigit (c : Z) : bool := (rune "0" <=? c) && (c <=? rune "9").

(** The value of a string of decimal digits. *)
Definition digitsValue (ds : list Z) : Z :=
  fold_left (fun n ch => n * 10 + (ch - rune "0")) ds 0.

(** [strconv.Atoi] on a 64-bit platform: an optional sign, then one or
    more decimal digits; a value that does not fit [int] is a range
    error and is clamped. *)
Definition Atoi (s : string) : Z * option NumError :=
  match bytes s with
  | [] => (0, Some ErrSyntax)
  | c :: rest =>
    let neg := c =? rune "-" in
    let ds := if neg || (c =? rune "+") then rest else c :: rest in
    match ds with
    | [] => (0, Some ErrSyntax)
    | _ :: _ =>
      if forallb isDigit ds then
        let un := digitsValue ds in
        if negb neg && (2 ^ 63 <=? un) then (2 ^ 63 - 1, Some ErrRange)
        else if neg && (2 ^ 63 <? un) then (- 2 ^ 63, Some ErrRange)
        else ((if neg then - un else un), None)
      else (0, Some ErrSyntax)
    end
  end.

(** The decimal digits of a number, most significant first. *)
Fixpoint digitsOf (fuel : nat) (n : Z) (acc : string) : string :=
  let acc' := String (ascii_of_N (Z.to_N (rune "0" + n mod 10))) acc in
  match fuel with
  | O => acc'
  | S fuel' => if n / 10 =? 0 then acc' else digitsOf fuel' (n / 10) acc'
  end.

(** [strconv.Itoa] *)
Definition Itoa (n : Z) : string :=
  if n <? 0 then String "-" (digitsOf (Z.to_nat (Z.log2 (- n))) (- n) "")
  else digitsOf (Z.to_nat (Z.log2 n)) n "".

End strconv.

Module net.

Fixpoint IndexByte (s : string) (c : ascii) : option nat :=
  match s with
  | EmptyString => None
  | String a rest =>
    if Ascii.eqb a c then Some 0%nat else S <$> IndexByte rest c
  end.

Fixpoint LastIndexByte (s : string) (c : ascii) : option nat :=
  match s with
  | EmptyString => None
  | String a rest =>
    match LastIndexByte rest c with
    | Some i => Some (S i)
    | None => if Ascii.eqb a c then Some 0%nat else None
    end
  end.

(** [i >= 0] for the result of an index search. *)
Definition found (i : option nat) : bool :=
  match i with Some _ => true | None => false end.

(** [s[i] == c] *)
Definition byteIs (c : ascii) (s : string) (i : nat) : bool :=
match String.get i s with
| Some a => Ascii.eqb a c
| None => false
end.

(** [s[i:]] and [s[:i]] *)
Definition from (i : nat) (s : string) : string :=
  String.substring i (String.length s - i) s.
Definition upto (i : nat) (s : string) : string := String.substring 0 i s.

Definition AddrError (why addr : string) : error :=
  errorString ("address " +:+ addr +:+ ": " +:+ why).

(** [net.SplitHostPort] *)
Definition SplitHostPort (hostport : string) : string * string * option error :=
  let missingPort := "missing port in address" in
  let tooManyColons := "too many colons in address" in
  let addrErr (why : string) := ("", "", Some (AddrError why hostport)) in
  match LastIndexByte hostport ":" with
  | None => addrErr missingPort
  | Some i =>
    let finish (host : string) (j k : nat) :=
      if found (IndexByte (from j hostport) "[") then addrErr "unexpected '[' in address"
      else if found (IndexByte (from k hostport) "]") then addrErr "unexpected ']' in address"
      else (host, from (S i) hostport, None) in
    if byteIs "[" hostport 0 then
      match IndexByte hostport "]" with
      | None => addrErr "missing ']' in address"
      | Some end_ =>
        if (S end_ =? String.length hostport)%nat then addrErr missingPort
        else if (S end_ =? i)%nat then
          finish (String.substring 1 (end_ - 1) hostport) 1%nat (S end_)
        else if byteIs ":" hostport (S end_) then addrErr tooManyColons
        else addrErr missingPort
      end
    else
      let host := upto i hostport in
      if found (IndexByte host ":") then addrErr tooManyColons
      else finish host 0%nat 0%nat
  end.

(** [net.JoinHostPort]: a host with a colon goes between brackets. *)
Definition JoinHostPort (host port : string) : string :=
  if found (IndexByte host ":") then "[" +:+ host +:+ "]:" +:+ port
  else host +:+ ":" +:+ port.

End net.

(** ** net/http: requests, response writers, the serve mux *)

Module http.

Definition StatusOK : Z := 200.
Definition StatusBadRequest : Z := 400.
Definition StatusNotFound : Z := 404.
Definition StatusMethodNotAllowed : Z := 405.
Definition StatusInternalServerError : Z := 500.

Definition MethodGet : string := "GET".
Definition MethodPost : string := "POST".

(** An inbound request: its method, the path of its URL, what
    [io.ReadAll(r.Body)] yields (the bytes, or the text of the read
    error), and its context. *)
Record Request : Type := {
  Method : string;
  URLPath : string;
  Body : string + string;
  Context : nat
}.

(** A [ResponseWriter]: the header map, the status and header sent by
    the first [WriteHeader] (or the first [Write]), and the body. *)
Record ResponseWriter : Type := {
  header : list (string * string);
  wrote : option (Z * list (string * string));
  body : string
}.

Definition newResponseWriter : ResponseWriter :=
  {| header := []; wrote := None; body := "" |}.

(** [w.Header().Set(k, v)] *)
Definition HeaderSet (k v : string) (w : ResponseWriter) : ResponseWriter :=
  {| header := (k, v) :: filter (fun kv => negb (String.eqb (fst kv) k)) (header w);
     wrote := wrote w; body := body w |}.

(** [w.WriteHeader(status)]: only the first call counts. *)
Definition WriteHeader (status : Z) (w : ResponseWriter) : ResponseWriter :=
  match wrote w with
  | Some _ => w
  | None => {| header := header w; wrote := Some (status, header w); body := body w |}
  end.

(** [w.Write(b)]: sends the header with status 200 if none was sent. *)
Definition Write (b : string) (w : ResponseWriter) : ResponseWriter :=
  let w' := WriteHeader StatusOK w in
  {| header := header w'; wrote := wrote w'; body := body w' +:+ b |}.

(** What the peer receives. *)
Record Response : Type := {
  StatusCode : Z;
  Header : list (string * string);
  RespBody : string
}.

(** [http.Client], by its [Timeout]. *)
Record Client : Type := { Timeout : Z }.

(** What an outbound request meets: a transport error, or a response
    with its status and what reading its body yields (the bytes, or the
    text of the read error); and the time it takes to arrive ([None]:
    the peer never answers). *)
Inductive Reply : Type :=
| ReplyError (msg : string)
| ReplyResponse (status : Z) (respBody : string + string).

Record Exchange : Type := {
  delay : option positive;
  reply : Reply
}.

Definition timeoutExceeded : string := "context deadline exceeded (Client.Timeout exceeded while awaiting headers)".

(** [client.Do(req)]: the reply and the time spent.  A positive
    [Timeout] bounds the wait; a [Timeout] of zero means no timeout. *)
Definition Do (c : Client) (x : Exchange) : Outcome (Reply * Z) :=
  match delay x with
  | Some d =>
    if (0 <? Timeout c) && (Timeout c <? Z.pos d)
    then Returns (ReplyError timeoutExceeded, Timeout c)
    else Returns (reply x, Z.pos d)
  | None =>
    if 0 <? Timeout c then Returns (ReplyError timeoutExceeded, Timeout c)
    else Blocks
  end.

Definition response (w : ResponseWriter) : Response :=
  match wrote w with
  | Some (st, h) => {| StatusCode := st; Header := h; RespBody := body w |}
  | None => {| StatusCode := StatusOK; Header := header w; RespBody := body w |}
  end.

End http.

(** What the program does that its environment can see, in order. *)
Inductive Event : Type :=
| EvStderr (msg : string)
| EvLog (msg : string)
| EvStdout (line : string)
| EvStdoutSync
| EvListen (network address : string)
| EvServed (req : http.Request) (resp : http.Response)
| EvValidate (data : string)
| EvDecode (data : string)
| EvInvoke (ctx : nat)
| EvEncode
| EvStart (path : string) (pid : nat)
| EvCancel (ctx : nat)
| EvKill (pid : nat)
| EvGet (url : string)
| EvPost (url body : string)
| EvSleep (d : Z)
| EvMakeChan (ch : nat)
| EvCloseChan (ch : nat)
| EvGo (interval : Z)
| EvServerClose.

(** An [http.Handler]: what it writes and what it does for a request. *)
Definition HandlerFunc : Type :=
  http.Request -> http.ResponseWriter -> http.ResponseWriter * list Event.

(** ** plugin.go and handler.go: schemas and handlers *)

(** A decoded JSON document ([map[string]any] and what it holds); a
    number is kept as its literal. *)
Inductive JSON : Type :=
| JNull
| JBool (b : bool)
| JNumber (literal : string)
| JString (s : string)
| JArray (elems : list JSON)
| JObject (members : list (string * JSON)).

Record Schema : Type := {
  Input : list (string * JSON);
  Output : list (string * JSON)
}.

(** [type Schemas map[string]Schema] *)
Abbreviation Schemas := (gmap string Schema).

Record Handler : Type := {
  HTTPHandler : HandlerFunc;
  HandlerSchema : Schema
}.

(** What [encoding/json] and the schema reflector do for a Go type [A]:
    [Decode strict data] is [Decoder.Decode] into an [A], with
    [DisallowUnknownFields] when [strict]; [Unmarshal] is
    [json.Unmarshal]; [Marshal] is [json.Marshal] of a [*A]
    ([Encoder.Encode] writes the same text and a newline); [Reflect] is
    [structAsJSONSchema(new(A))].  Errors are given by their text.
    [unknownField data] says that [data] names a field [A] does not have,
    and a strict decoder refuses such a payload. *)
Class JSONType (A : Type) : Type := {
  Decode : bool -> string -> A + string;
  Unmarshal : string -> A + string;
  Marshal : option A -> string + string;
  Reflect : list (string * JSON) + string;
  unknownField : string -> bool;
  strict_rejects : forall data,
    unknownField data = true -> exists e, Decode true data = inr e
}.

(** The [error] interface, for the errors a plugin function returns. *)
Class GoError (E : Type) : Type := Error : E -> string.

(** [jsonschema.EvaluationResult]: validity and the errors by field, in
    the order the map iteration yields them. *)
Record EvaluationResult : Type := {
  Valid : bool;
  Errors : list (string * string)
}.

(** [Validator[T]]: the compiled schema, as the check it performs. *)
Record Validator : Type := { Validate : string -> EvaluationResult }.

Section FunctionHandler.

Context {T R E : Type} `{JSONType T} `{JSONType R} `{GoError E}.

(** [decodeInput]: read, validate, then decode strictly; an error is
    given by its text. *)
Definition decodeInput (r : http.Request) (validator : option Validator)
  : (T + string) * list Event :=
  match http.Body r with
  | inr err => (inr err, [])
  | inl data =>
    let checked :=
      match validator with
      | Some v =>
        let result := Validate v data in
        if negb (Valid result) then
          let errors := map (fun fe => fst fe +:+ ": " +:+ snd fe) (Errors result) in
          (Some ("invalid input: " +:+ gostrings.Join errors ", "), [EvValidate data])
        else (None, [EvValidate data])
      | None => (None, [])
      end in
    match checked with
    | (Some err, evs) => (inr err, evs)
    | (None, evs) =>
      match Decode (A := T) true data with
      | inr err => (inr err, evs ++ [EvDecode data])
      | inl req => (inl req, evs ++ [EvDecode data])
      end
    end
  end.

(** [encodeOutput] *)
Definition encodeOutput (w : http.ResponseWriter) (status : Z) (v : option R)
  : http.ResponseWriter * option string :=
  let w := http.HeaderSet "Content-Type" "application/json" w in
  let w := http.WriteHeader status w in
  match Marshal (A := R) v with
  | inl text => (http.Write (text +:+ LF) w, None)
  | inr err => (w, Some err)
  end.

Variable fn : nat -> T -> option R * option E.

(** The closure [httpHandler] of [NewFunctionHandler]. *)
Definition httpHandler (validator : option Validator) : HandlerFunc :=
  fun r w =>
    if negb (String.eqb (http.Method r) http.MethodPost) then
      let w := http.WriteHeader http.StatusMethodNotAllowed w in
      (http.Write "method not allowed" w,
       [EvStderr ("method not allowed: " +:+ http.Method r +:+ LF)])
    else
      match decodeInput r validator with
      | (inr err, evs) =>
        let w := http.WriteHeader http.StatusBadRequest w in
        (http.Write err w,
         evs ++ [EvStderr ("error reading request body: " +:+ err +:+ LF)])
      | (inl req, evs) =>
        match fn (http.Context r) req with
        | (_, Some err) =>
          let w := http.WriteHeader http.StatusInternalServerError w in
          (http.Write (Error err) w,
           evs ++ [EvInvoke (http.Context r);
                   EvStderr ("error executing function: " +:+ Error err +:+ LF)])
        | (resp, None) =>
          match encodeOutput w http.StatusOK resp with
          | (w, Some err) =>
            (w, evs ++ [EvInvoke (http.Context r); EvEncode;
                        EvStderr ("error encoding response: " +:+ err +:+ LF)])
          | (w, None) => (w, evs ++ [EvInvoke (http.Context r); EvEncode])
          end
        end
      end.

(** [FunctionHandler[T, R]] *)
Record FunctionHandler : Type := {
  handler : Handler;
  validator : option Validator
}.

(** [NewFunctionHandler]: a schema that cannot be generated is reported
    on standard error and left empty. *)
Definition NewFunctionHandler (validator : option Validator)
  : FunctionHandler * list Event :=
  let '(inputSchema, ev1) :=
    match Reflect (A := T) with
    | inl sch => (sch, [])
    | inr err => ([], [EvStderr ("error generating input schema: " +:+ err +:+ LF)])
    end in
  let '(outputSchema, ev2) :=
    match Reflect (A := R) with
    | inl sch => (sch, [])
    | inr err => ([], [EvStderr ("error generating output schema: " +:+ err +:+ LF)])
    end in
  ({| handler := {| HTTPHandler := httpHandler validator;
                    HandlerSchema := {| Input := inputSchema; Output := outputSchema |} |};
      validator := validator |},
   ev1 ++ ev2).

End FunctionHandler.

(** ** plugin.go: the plugin server *)

Definition basePath : string := "/".
Definition schemasPath : string := "/_schemas".
Definition healthPath : string := "/_healthz".

(** [validateFunctionName]: the allowed characters of the loop. *)
Definition allowedRune (r : Z) : bool :=
  (r =? rune "-") || (r =? rune "_") || (r =? rune ".")
  || ((rune "a" <=? r) && (r <=? rune "z"))
  || ((rune "A" <=? r) && (r <=? rune "Z"))
  || ((rune "0" <=? r) && (r <=? rune "9")).

Definition validateFunctionName (function : string) : option error :=
  match bytes function with
  | [] => Some (errorString "function name cannot be empty")
  | b0 :: _ =>
    if b0 =? rune "/" then
      Some (errorString "function name cannot start with '/'")
    else if (128 <? length (bytes function))%nat then
      Some (errorString "function name cannot be longer than 128 characters")
    else
      match find (fun r => negb (allowedRune r)) (utf8.runes function) with
      | Some r => Some (Errorf "function name contains invalid character: %q" [ArgQ r])
      | None => None
      end
  end.

(** What a pattern of the serve mux is bound to: the two closures of
    [NewPlugin], a function's handler, and the closure of [AddFunction]
    that answers with [l.functions[functionName]] as it is at the time of
    the request. *)
Inductive muxEntry : Type :=
| HealthEntry
| SchemasEntry
| FunctionEntry (h : HandlerFunc)
| FunctionSchemaEntry (functionName : string).

(** [http.ServeMux], for the literal patterns this package registers. *)
Abbreviation ServeMux := (gmap string muxEntry).

(** [mux.Handle(pattern, handler)]: registering a pattern that is already
    registered panics; the result is the new mux or the reason of the
    panic. *)
Definition Handle (pattern : string) (h : muxEntry) (m : ServeMux) : ServeMux + string :=
  match m !! pattern with
  | Some _ => inr ("http: multiple registrations for " +:+ pattern)
  | None => inl (<[pattern := h]> m)
  end.

Record Server : Type := {
  Addr : string;
  ReadTimeout : Z
}.

(** [Plugin]: the server's [Handler] is the mux [mux] points to. *)
Record Plugin : Type := {
  functions : Schemas;
  httpServer : option Server;
  mux : option ServeMux
}.

Definition second : Z := 1000000000.
Definition millisecond : Z := 1000000.

Definition NewPlugin : Plugin :=
  {| functions := ∅;
     httpServer := Some {| Addr := ""; ReadTimeout := 5 * second |};
     mux := Some (<[schemasPath := SchemasEntry]> (<[healthPath := HealthEntry]> ∅)) |}.

Definition setFunctions (f : Schemas) (l : Plugin) : Plugin :=
  {| functions := f; httpServer := httpServer l; mux := mux l |}.

Definition setMux (m : option ServeMux) (l : Plugin) : Plugin :=
  {| functions := functions l; httpServer := httpServer l; mux := m |}.

Definition setServer (srv : option Server) (l : Plugin) : Plugin :=
  {| functions := functions l; httpServer := srv; mux := mux l |}.

(** [Plugin.AddFunction] *)
Definition AddFunction (functionName : string) (handler : Handler) (l : Plugin)
  : Outcome unit * Plugin * list Event :=
  match validateFunctionName functionName with
  | Some _ => (Returns tt, l, [EvLog "invalid function name"])
  | None =>
    let l := setFunctions (<[functionName := HandlerSchema handler]> (functions l)) l in
    match mux l with
    | None => (Panics nilDereference, l, [])
    | Some m =>
      match Handle (basePath +:+ functionName) (FunctionEntry (HTTPHandler handler)) m with
      | inr reason => (Panics reason, l, [])
      | inl m =>
        let l := setMux (Some m) l in
        match Handle (basePath +:+ functionName +:+ schemasPath)
                     (FunctionSchemaEntry functionName) m with
        | inr reason => (Panics reason, l, [])
        | inl m => (Returns tt, setMux (Some m) l, [])
        end
      end
    end
  end.

(** What a plugin process meets: the result of [net.Listen] (the port the
    system assigned, or an error), the requests that arrive while it
    serves, what [Serve] returns when it ends, and the JSON encoder for
    the two schema routes. *)
Record PluginEnv : Type := {
  listen : Z + error;
  requests : list http.Request;
  serveResult : option error;
  encodeSchemas : Schemas -> string + string;
  encodeSchema : Schema -> string + string
}.

(** The handler a mux entry stands for, in plugin [l]. *)
Definition runEntry (env : PluginEnv) (l : Plugin) (e : muxEntry) : HandlerFunc :=
  fun r w =>
    match e with
    | HealthEntry => (http.Write "ok" (http.WriteHeader http.StatusOK w), [])
    | SchemasEntry =>
      let w := http.WriteHeader http.StatusOK w in
      match encodeSchemas env (functions l) with
      | inl text => (http.Write text w, [])
      | inr _ => (w, [EvLog "failed to encode functions list"])
      end
    | FunctionEntry h => h r w
    | FunctionSchemaEntry functionName =>
      let w := http.WriteHeader http.StatusOK w in
      let sch := default {| Input := []; Output := [] |} (functions l !! functionName) in
      match encodeSchema env sch with
      | inl text => (http.Write text w, [])
      | inr _ => (w, [EvLog "failed to encode functions list"])
      end
    end.

(** [mux.ServeHTTP]: the entry registered for the path, or 404. *)
Definition ServeHTTP (env : PluginEnv) (l : Plugin) : HandlerFunc :=
  fun r w =>
    match mux l ≫= (fun m => m !! http.URLPath r) with
    | Some e => runEntry env l e r w
    | None =>
      (http.Write ("404 page not found" +:+ LF) (http.WriteHeader http.StatusNotFound w), [])
    end.

(** [httpServer.Serve(ln)]: every request that arrives is answered. *)
Definition Serve (env : PluginEnv) (l : Plugin) : list Event :=
  flat_map (fun r =>
    let '(w, evs) := ServeHTTP env l r http.newResponseWriter in
    evs ++ [EvServed r (http.response w)]) (requests env).

Definition loopback : string := "127.0.0.1".

(** [Plugin.Start] *)
Definition Start (env : PluginEnv) (l : Plugin)
  : Outcome (option error) * Plugin * list Event :=
  let bind := EvListen "tcp" (loopback +:+ ":0") in
  match listen env with
  | inr err => (Returns (Some err), l, [bind; EvLog "failed to bind to port"])
  | inl p =>
    let addr := net.JoinHostPort loopback (strconv.Itoa p) in
    match net.SplitHostPort addr with
    | (_, _, Some err) => (Returns (Some err), l, [bind; EvLog "failed to parse port"])
    | (_, port, None) =>
      let announced := [bind; EvStdout (port +:+ LF); EvStdoutSync] in
      match httpServer l with
      | None => (Panics nilDereference, l, announced)
      | Some srv =>
        let l := setServer (Some {| Addr := addr; ReadTimeout := ReadTimeout srv |}) l in
        match serveResult env with
        | Some err =>
          (Returns (Some err), l, announced ++ Serve env l ++ [EvLog "failed to serve HTTP"])
        | None => (Returns None, l, announced ++ Serve env l)
        end
      end
    end
  end.

(** [Plugin.Stop] *)
Definition Stop (l : Plugin) : Plugin * list Event :=
  (setMux None (setServer None l),
   match httpServer l with Some _ => [EvServerClose] | None => [] end).

(** ** pluggo.go: the client *)

Definition defaultSchema : string := "http://".
Definition defaultHost : string := "127.0.0.1".

Definition DefaultFunctionExecutionTimeout : Z := 120 * second.
Definition DefaultHealthCheckTimeout : Z := 5 * second.
Definition DefaultHealthCheckInterval : Z := 150 * millisecond.

Record Connection : Type := {
  FunctionExecutionTimeout : Z;
  BaseURL : string
}.

(** [exec.Cmd]: its path and, once started, its process. *)
Record Cmd : Type := {
  cmdPath : string;
  Process : option nat
}.

(** [os.FileInfo] *)
Record FileInfo : Type := {
  IsDir : bool;
  Mode : Z
}.

(** The state outside the client: the monotonic clock in nanoseconds, the
    number of GET requests issued, the next fresh identifier (contexts,
    processes, channels), the channels ([false]: open, [true]: closed) and
    the trace. *)
Record World : Type := {
  now : Z;
  gets : nat;
  nextId : nat;
  chans : gmap nat bool;
  trace : list Event
}.

Definition emit (ev : Event) (w : World) : World :=
  {| now := now w; gets := gets w; nextId := nextId w; chans := chans w;
     trace := trace w ++ [ev] |}.

Definition fresh (w : World) : nat * World :=
  (nextId w,
   {| now := now w; gets := gets w; nextId := S (nextId w); chans := chans w;
      trace := trace w |}).

Definition elapse (d : Z) (w : World) : World :=
  {| now := now w + d; gets := gets w; nextId := nextId w; chans := chans w;
     trace := trace w |}.

Definition countGet (w : World) : World :=
  {| now := now w; gets := S (gets w); nextId := nextId w; chans := chans w;
     trace := trace w |}.

Definition setChan (ch : nat) (closed : bool) (w : World) : World :=
  {| now := now w; gets := gets w; nextId := nextId w;
     chans := <[ch := closed]> (chans w); trace := trace w |}.

(** [time.Sleep(d)]: returns at once when [d] is zero or negative, and
    after [d] plus whatever the scheduler adds otherwise. *)
Definition Sleep (d : Z) (late : N) (w : World) : World :=
  emit (EvSleep d) (elapse (Z.max 0 d + Z.of_N late) w).

(** What the client meets: [os.Stat], [Cmd.Start], the first line of the
    child's standard output as [ReadString] sees it ([None]: no line ever
    comes), the [n]-th GET request, how late the sleep after it returns,
    [Process.Kill], and the JSON decoder for the schema listing. *)
Record ClientEnv : Type := {
  stat : string -> FileInfo + error;
  start : string -> option error;
  readLine : option (string + error);
  get : nat -> string -> http.Exchange;
  oversleep : nat -> N;
  kill : nat -> option error;
  decodeSchemas : string -> Schemas + string
}.

Module Client.

Record Client : Type := {
  path : string;
  functionExecutionTimeout : Z;
  healthCheckTimeout : Z;
  healthCheckInterval : Z;
  heartbeatInterval : Z;
  heartbeatChan : option nat;
  httpClient : option http.Client;
  connection : option Connection;
  commandContext : option Cmd;
  cancel : option nat
}.

Definition ClientOption : Type := Client -> Client.

Definition WithFunctionExecutionTimeout (timeout : Z) : ClientOption :=
  fun p =>
    {| path := path p; functionExecutionTimeout := timeout;
       healthCheckTimeout := healthCheckTimeout p;
       healthCheckInterval := healthCheckInterval p;
       heartbeatInterval := heartbeatInterval p; heartbeatChan := heartbeatChan p;
       httpClient := httpClient p; connection := connection p;
       commandContext := commandContext p; cancel := cancel p |}.

Definition WithHealthCheckTimeout (timeout : Z) : ClientOption :=
  fun p =>
    {| path := path p; functionExecutionTimeout := functionExecutionTimeout p;
       healthCheckTimeout := timeout;
       healthCheckInterval := healthCheckInterval p;
       heartbeatInterval := heartbeatInterval p; heartbeatChan := heartbeatChan p;
       httpClient := httpClient p; connection := connection p;
       commandContext := commandContext p; cancel := cancel p |}.

Definition WithHealthCheckInterval (interval : Z) : ClientOption :=
  fun p =>
    {| path := path p; functionExecutionTimeout := functionExecutionTimeout p;
       healthCheckTimeout := healthCheckTimeout p;
       healthCheckInterval := interval;
       heartbeatInterval := heartbeatInterval p; heartbeatChan := heartbeatChan p;
       httpClient := httpClient p; connection := connection p;
       commandContext := commandContext p; cancel := cancel p |}.

Definition WithHeartbeatInterval (interval : Z) : ClientOption :=
  fun p =>
    {| path := path p; functionExecutionTimeout := functionExecutionTimeout p;
       healthCheckTimeout := healthCheckTimeout p;
       healthCheckInterval := healthCheckInterval p;
       heartbeatInterval := interval; heartbeatChan := heartbeatChan p;
       httpClient := httpClient p; connection := connection p;
       commandContext := commandContext p; cancel := cancel p |}.

(** [New] *)
Definition New (path : string) (opts : list ClientOption) : Client :=
  fold_left (fun p opt => opt p) opts
    {| path := path;
       functionExecutionTimeout := DefaultFunctionExecutionTimeout;
       healthCheckTimeout := DefaultHealthCheckTimeout;
       healthCheckInterval := DefaultHealthCheckInterval;
       heartbeatInterval := 0; heartbeatChan := None;
       httpClient := None; connection := None;
       commandContext := None; cancel := None |}.

(** The assignments to the fields that [Open] and [Close] change. *)
Definition setRun (ch : option nat) (hc : option http.Client)
    (conn : option Connection) (cmd : option Cmd) (k : option nat)
    (c : Client) : Client :=
  {| path := path c; functionExecutionTimeout := functionExecutionTimeout c;
     healthCheckTimeout := healthCheckTimeout c;
     healthCheckInterval := healthCheckInterval c;
     heartbeatInterval := heartbeatInterval c; heartbeatChan := ch;
     httpClient := hc; connection := conn; commandContext := cmd; cancel := k |}.

Definition setCancel (k : option nat) (c : Client) : Client :=
  setRun (heartbeatChan c) (httpClient c) (connection c) (commandContext c) k c.
Definition setCommandContext (cmd : option Cmd) (c : Client) : Client :=
  setRun (heartbeatChan c) (httpClient c) (connection c) cmd (cancel c) c.
Definition setConnection (conn : option Connection) (c : Client) : Client :=
  setRun (heartbeatChan c) (httpClient c) conn (commandContext c) (cancel c) c.
Definition setHTTPClient (hc : option http.Client) (c : Client) : Client :=
  setRun (heartbeatChan c) hc (connection c) (commandContext c) (cancel c) c.
Definition setHeartbeatChan (ch : option nat) (c : Client) : Client :=
  setRun ch (httpClient c) (connection c) (commandContext c) (cancel c) c.

(** [Close]: cancel, kill, and then the deferred function, which stops
    at [close(c.heartbeatChan)] if that channel is already closed. *)
Definition Close (env : ClientEnv) (c : Client) (w : World)
  : Outcome (option error) * Client * World :=
  let w := match cancel c with Some k => emit (EvCancel k) w | None => w end in
  let '(result, w) :=
    match commandContext c with
    | Some {| Process := Some pid |} => (kill env pid, emit (EvKill pid) w)
    | _ => (None, w)
    end in
  let c := setCancel None (setCommandContext None c) in
  match heartbeatChan c with
  | Some ch =>
    match chans w !! ch with
    | Some false =>
      let w := emit (EvCloseChan ch) (setChan ch true w) in
      (Returns result,
       setHTTPClient None (setConnection None (setHeartbeatChan None c)), w)
    | _ => (Panics "close of closed channel", c, w)
    end
  | None => (Returns result, setHTTPClient None (setConnection None c), w)
  end.

Definition timeoutWaiting : error :=
  errorString "timeout waiting for plugin to become healthy".

(** The loop of [waitForHealth]; [None] when [fuel] iterations were not
    enough. *)
Fixpoint waitLoop (env : ClientEnv) (c : Client) (deadline : Z) (fuel : nat)
    (w : World) : option (Outcome (option error) * World) :=
  match fuel with
  | O => None
  | S fuel' =>
    if deadline <? now w then Some (Returns (Some timeoutWaiting), w)
    else
      match connection c, httpClient c with
      | Some conn, Some hc =>
        let url := BaseURL conn +:+ healthPath in
        let n := gets w in
        let w := countGet (emit (EvGet url) w) in
        match http.Do hc (get env n url) with
        | Returns (r, took) =>
          let w := elapse took w in
          match r with
          | http.ReplyResponse st _ =>
            if st =? http.StatusOK then Some (Returns None, w)
            else waitLoop env c deadline fuel'
                   (Sleep (healthCheckInterval c) (oversleep env n) w)
          | http.ReplyError _ =>
            waitLoop env c deadline fuel'
              (Sleep (healthCheckInterval c) (oversleep env n) w)
          end
        | Panics msg => Some (Panics msg, w)
        | Blocks => Some (Blocks, w)
        end
      | _, _ => Some (Panics nilDereference, w)
      end
  end.

(** [waitForHealth]: every probe takes time, so the deadline passes
    within [healthCheckTimeout + 2] iterations.  The code reads the clock
    once for the deadline and again at every check of the loop; here the
    first check sees the clock of the deadline, so that a timeout shorter
    than the time between two readings of the clock is taken as not yet
    passed at the first check. *)
Definition waitForHealth (env : ClientEnv) (c : Client) (w : World)
  : Outcome (option error) * World :=
  let deadline := now w + healthCheckTimeout c in
  match waitLoop env c deadline (Z.to_nat (healthCheckTimeout c) + 2) w with
  | Some r => r
  | None => (Blocks, w)
  end.

(** [_ = c.Close()] followed by [return err]. *)
Definition closeAndReturn (env : ClientEnv) (err : error) (c : Client) (w : World)
  : Outcome (option error) * Client * World :=
  match Close env c w with
  | (Returns _, c, w) => (Returns (Some err), c, w)
  | (Panics msg, c, w) => (Panics msg, c, w)
  | (Blocks, c, w) => (Blocks, c, w)
  end.

(** The permission bits [0111]. *)
Definition executeBits : Z := 73.

(** [Open]; [ctx] names the caller's context. *)
Definition Open (env : ClientEnv) (ctx : nat) (c : Client) (w : World)
  : Outcome (option error) * Client * World :=
  match commandContext c with
  | Some _ => (Returns (Some (errorString "plugin is already running")), c, w)
  | None =>
    match stat env (path c) with
    | inr err => (Returns (Some (PluginNotFoundError (Some err))), c, w)
    | inl fileInfo =>
      if IsDir fileInfo then (Returns (Some (PluginNotFoundError None)), c, w)
      else if Z.land (Mode fileInfo) executeBits =? 0 then
        (Returns (Some (PluginExecutionError (errorString "plugin must be an executable"))),
         c, w)
      else
        let '(cancelCtx, w) := fresh w in
        let c := setCancel (Some cancelCtx) c in
        match start env (path c) with
        | Some err => closeAndReturn env (PluginExecutionError err) c w
        | None =>
          let '(pid, w) := fresh w in
          let w := emit (EvStart (path c) pid) w in
          let c := setCommandContext
                     (Some {| cmdPath := path c; Process := Some pid |}) c in
          match readLine env with
          | None => (Blocks, c, w)
          | Some (inr err) => closeAndReturn env (PluginExecutionError err) c w
          | Some (inl line) =>
            let pluginPort := gostrings.TrimSpace line in
            match strconv.Atoi pluginPort with
            | (_, Some _) =>
              closeAndReturn env
                (PluginExecutionError
                   (Errorf "invalid port received from plugin: %s" [ArgS pluginPort]))
                c w
            | (_, None) =>
              let c := setConnection
                (Some {| FunctionExecutionTimeout := 0;
                         BaseURL := defaultSchema +:+ defaultHost +:+ ":" +:+ pluginPort |})
                c in
              let c := setHTTPClient
                (Some {| http.Timeout := functionExecutionTimeout c |}) c in
              match waitForHealth env c w with
              | (Returns (Some err), w) =>
                closeAndReturn env (PluginExecutionError err) c w
              | (Returns None, w) =>
                if 0 <? heartbeatInterval c then
                  let '(ch, w) := fresh w in
                  let w := emit (EvMakeChan ch) (setChan ch false w) in
                  let c := setHeartbeatChan (Some ch) c in
                  (Returns None, c, emit (EvGo (heartbeatInterval c)) w)
                else (Returns None, c, w)
              | (Panics msg, w) => (Panics msg, c, w)
              | (Blocks, w) => (Blocks, c, w)
              end
            end
          end
        end
    end
  end.

(** One tick of the goroutine that [Open] starts: a failed health check
    closes the client and ends the goroutine ([false]). *)
Definition heartbeatTick (env : ClientEnv) (c : Client) (w : World)
  : Outcome bool * Client * World :=
  match waitForHealth env c w with
  | (Returns (Some _), w) =>
    match Close env c w with
    | (Returns _, c, w) => (Returns false, c, w)
    | (Panics msg, c, w) => (Panics msg, c, w)
    | (Blocks, c, w) => (Blocks, c, w)
    end
  | (Returns None, w) => (Returns true, c, w)
  | (Panics msg, w) => (Panics msg, c, w)
  | (Blocks, w) => (Blocks, c, w)
  end.

(** [Done] *)
Definition Done (c : Client) : option nat := heartbeatChan c.

(** [Schemas] *)
Definition Schemas (env : ClientEnv) (c : Client) (w : World)
  : Outcome (option (gmap string Schema) * option error) * World :=
  match connection c with
  | None => (Returns (None, Some (errorString "plugin is not connected")), w)
  | Some conn =>
    match httpClient c with
    | None => (Panics nilDereference, w)
    | Some hc =>
      let url := BaseURL conn +:+ schemasPath in
      let n := gets w in
      let w := countGet (emit (EvGet url) w) in
      match http.Do hc (get env n url) with
      | Returns (http.ReplyError err, took) =>
        (Returns (None, Some (PluginExecutionError (errorString err))), elapse took w)
      | Returns (http.ReplyResponse st body, took) =>
        let w := elapse took w in
        if negb (st =? http.StatusOK) then
          (Returns (None, Some (PluginExecutionError
                                  (Errorf "plugin returned status %d" [ArgD st]))), w)
        else
          match body with
          | inr err => (Returns (None, Some (PluginExecutionError (errorString err))), w)
          | inl text =>
            match decodeSchemas env text with
            | inr err => (Returns (None, Some (PluginExecutionError (errorString err))), w)
            | inl schemas => (Returns (Some schemas, None), w)
            end
          end
      | Panics msg => (Panics msg, w)
      | Blocks => (Blocks, w)
      end
    end
  end.

(** [Connection] *)
Definition Connection (c : Client) : option Connection := connection c.

End Client.

(** ** function.go: the function stub *)

(** What a stub meets: whether [http.NewRequest] accepts the method and
    the URL ([Some]: the text of its error), and what the request meets. *)
Record StubEnv : Type := {
  newRequest : string -> string -> option string;
  roundTrip : string -> string -> string -> http.Exchange
}.

Module Function.

Record Function : Type := {
  name : string;
  httpClient : http.Client;
  clientConnection : Connection
}.

(** [SetTimeout] *)
Definition SetTimeout (timeout : Z) (f : Function) : Function :=
  {| name := name f; httpClient := {| http.Timeout := timeout |};
     clientConnection := clientConnection f |}.

(** [Name] *)
Definition Name (f : Function) : string := name f.

Section Typed.

Context {T R : Type} `{JSONType T} `{JSONType R}.

(** [Call]: the closure [fn] that [NewFunction] builds. *)
Definition Call (env : StubEnv) (f : Function) (input : option T)
  : Outcome (option R * option error) * list Event :=
  let failed (err : error) : option R * option error :=
    (None, Some (FunctionExecutionError (name f) err)) in
  match Marshal (A := T) input with
  | inr err => (Returns (failed (errorString err)), [])
  | inl b =>
    let url := BaseURL (clientConnection f) +:+ "/" +:+ name f in
    match newRequest env http.MethodPost url with
    | Some err => (Returns (failed (errorString err)), [])
    | None =>
      match http.Do (httpClient f) (roundTrip env http.MethodPost url b) with
      | Blocks => (Blocks, [EvPost url b])
      | Panics msg => (Panics msg, [EvPost url b])
      | Returns (http.ReplyError err, _) =>
        (Returns (failed (errorString err)), [EvPost url b])
      | Returns (http.ReplyResponse st body, _) =>
        match body with
        | inr err => (Returns (failed (errorString err)), [EvPost url b])
        | inl out =>
          if negb (st =? http.StatusOK) then
            (Returns (failed (Errorf "plugin returned status %d: %s" [ArgD st; ArgS out])),
             [EvPost url b])
          else
            match Unmarshal (A := R) out with
            | inr err => (Returns (failed (errorString err)), [EvPost url b])
            | inl output => (Returns (Some output, None), [EvPost url b])
            end
        end
      end
    end
  end.

End Typed.

(** [Schema]; [decode] is the JSON decoder for a [Schema]. *)
Definition Schema (env : StubEnv) (decode : string -> Schema + string) (f : Function)
  : Outcome (option Schema * option error) * list Event :=
  let failed (err : error) : option Schema * option error :=
    (None, Some (FunctionExecutionError (Name f) err)) in
  let url := BaseURL (clientConnection f) +:+ "/" +:+ name f +:+ schemasPath in
  match newRequest env http.MethodGet url with
  | Some err => (Returns (failed (errorString err)), [])
  | None =>
    match http.Do (httpClient f) (roundTrip env http.MethodGet url "") with
    | Blocks => (Blocks, [EvGet url])
    | Panics msg => (Panics msg, [EvGet url])
    | Returns (http.ReplyError err, _) => (Returns (failed (errorString err)), [EvGet url])
    | Returns (http.ReplyResponse st body, _) =>
      if negb (st =? http.StatusOK) then
        let out := match body with inl out => out | inr _ => "" end in
        (Returns (failed (Errorf "plugin returned status %d: %s" [ArgD st; ArgS out])),
         [EvGet url])
      else
        match body with
        | inr err => (Returns (failed (errorString err)), [EvGet url])
        | inl text =>
          match decode text with
          | inr err => (Returns (failed (errorString err)), [EvGet url])
          | inl schema => (Returns (Some schema, None), [EvGet url])
          end
        end
    end
  end.

End Function.

(** [NewFunction]: reads [clientConnection.FunctionExecutionTimeout], so a
    nil connection is a nil pointer dereference. *)
Definition NewFunction (name : string) (clientConnection : option Connection)
  : Outcome Function.Function :=
  match clientConnection with
  | None => Panics nilDereference
  | Some conn =>
    Returns {| Function.name := name;
               Function.httpClient := {| http.Timeout := FunctionExecutionTimeout conn |};
               Function.clientConnection := conn |}
  end.

(** ** The naming rule of the specification *)

(** A letter, a digit, or one of [-], [_] and [.]. *)
Definition safeCharacter (r : Z) : Prop :=
  (rune "a" <= r <= rune "z") \/ (rune "A" <= r <= rune "Z")
  \/ (rune "0" <= r <= rune "9")
  \/ r = rune "-" \/ r = rune "_" \/ r = rune ".".

(** The rule as the specification words it: non-empty, at most 128
    characters, not beginning with the path separator, and made of safe
    characters only.  A character is a rune of the name. *)
Definition safeFunctionName (name : string) : Prop :=
  name <> ""
  /\ (length (utf8.runes name) <= 128)%nat
  /\ (forall rest, name <> String "/" rest)
  /\ Forall safeCharacter (utf8.runes name).

(** ** Duplicate registration, as the specification words it *)

(** Last write wins: after registering [name] with [h1] and then with
    [h2], the second call has returned, the table holds the schema of
    [h2], and the invocation path is bound to the handler of [h2]. *)
Definition lastWriteWins (name : string) (h1 h2 : Handler) (l : Plugin) : Prop :=
  let '(_, l1, _) := AddFunction name h1 l in
  let '(out, l2, _) := AddFunction name h2 l1 in
  out = Returns tt
  /\ functions l2 !! name = Some (HandlerSchema h2)
  /\ mux l2 ≫= (fun m => m !! (basePath +:+ name)) = Some (FunctionEntry (HTTPHandler h2)).

(** ** The announcement of the port, as the specification words it *)

(** A byte that [SplitHostPort] gives a meaning to. *)
Definition separator (c : ascii) : Prop :=
  c = ":"%char \/ c = "["%char \/ c = "]"%char.

(** The events before which the port line must be out: a request served. *)
Definition isServed (ev : Event) : Prop :=
  match ev with EvServed _ _ => True | _ => False end.

Definition isStdout (ev : Event) : Prop :=
  match ev with EvStdout _ => True | _ => False end.

(** What goes out between the bind and the first request. *)
Definition announcement (p : Z) : list Event :=
  [EvListen "tcp" "127.0.0.1:0"; EvStdout (strconv.Itoa p +:+ LF); EvStdoutSync].

(** The contract of [Start]: a failed bind is returned and nothing is
    written to standard output; otherwise the port line is written and
    flushed first, and [Start] serves and returns what [Serve] returns. *)
Definition startContract (env : PluginEnv) (l : Plugin) : Prop :=
  match listen env with
  | inr err =>
    exists evs, Start env l = (Returns (Some err), l, evs)
                /\ Forall (fun ev => ~ isStdout ev) evs
  | inl p =>
    exists l' evs,
      Start env l = (Returns (serveResult env), l', announcement p ++ evs)
  end.

(** ** The request handling contract, as the specification words it *)

(** The wrapped function was called. *)
Definition invoked (evs : list Event) : Prop :=
  exists ctx, In (EvInvoke ctx) evs.

(** The text of a failed validation: every field with its error. *)
Definition aggregated (errors : list (string * string)) : string :=
  "invalid input: "
  +:+ gostrings.Join (map (fun fe => fst fe +:+ ": " +:+ snd fe) errors) ", ".

(** The events of the validation step, and what it is to pass it. *)
Definition validationEvents (validator : option Validator) (data : string) : list Event :=
  match validator with Some _ => [EvValidate data] | None => [] end.

Definition passesValidation (validator : option Validator) (data : string) : Prop :=
  match validator with Some v => Valid (Validate v data) = true | None => True end.

(** The header of a JSON answer. *)
Definition jsonHeader : list (string * string) := [("Content-Type", "application/json")].

(** What the handler answers to a request on a new response writer. *)
Definition answer (h : HandlerFunc) (r : http.Request) : http.Response * list Event :=
  let '(w, evs) := h r http.newResponseWriter in (http.response w, evs).

(** ** States of the client *)

(** No connection, no process handle, no transport client, no context
    and no notification channel: a client that was never opened, or that
    was closed. *)
Definition idle (c : Client.Client) : Prop :=
  Client.connection c = None /\ Client.commandContext c = None
  /\ Client.httpClient c = None /\ Client.cancel c = None
  /\ Client.heartbeatChan c = None.

(** One of the four options the package offers. *)
Definition standardOption (opt : Client.ClientOption) : Prop :=
  (exists t, opt = Client.WithFunctionExecutionTimeout t)
  \/ (exists t, opt = Client.WithHealthCheckTimeout t)
  \/ (exists t, opt = Client.WithHealthCheckInterval t)
  \/ (exists t, opt = Client.WithHeartbeatInterval t).

(** The notification channel, if any, is open. *)
Definition channelOpen (c : Client.Client) (w : World) : Prop :=
  forall ch, Client.heartbeatChan c = Some ch -> chans w !! ch = Some false.

(** What [Process.Kill] answers for the process of the client, if any. *)
Definition killResult (env : ClientEnv) (c : Client.Client) : option error :=
  match Client.commandContext c with
  | Some {| Process := Some pid |} => kill env pid
  | _ => None
  end.

(** ** Processes and runs of the client *)

(** The processes started and not killed since, given those that were
    live before the events. *)
Fixpoint liveAfter (live : list nat) (evs : list Event) : list nat :=
  match evs with
  | [] => live
  | EvStart _ pid :: rest => liveAfter (pid :: live) rest
  | EvKill pid :: rest =>
    liveAfter (filter (fun p => negb (Nat.eqb p pid)) live) rest
  | _ :: rest => liveAfter live rest
  end.

Definition liveProcesses (w : World) : list nat := liveAfter [] (trace w).

(** The process the client holds a handle of. *)
Definition held (c : Client.Client) : list nat :=
  match Client.commandContext c with
  | Some {| Process := Some pid |} => [pid]
  | _ => []
  end.

(** The state of a client agrees with the world: the live processes are
    the one it holds, a connection comes with a transport client and a
    process handle, a client without process handle is idle, and its
    notification channel is open. *)
Definition consistent (c : Client.Client) (w : World) : Prop :=
  liveProcesses w = held c
  /\ (Client.connection c = None <-> Client.httpClient c = None)
  /\ (Client.commandContext c = None -> idle c)
  /\ (forall cmd, Client.commandContext c = Some cmd -> exists pid, Process cmd = Some pid)
  /\ channelOpen c w.

(** A call of [Open] or of [Close]. *)
Inductive Step : Type :=
| StepOpen (env : ClientEnv) (ctx : nat)
| StepClose (env : ClientEnv).

Definition step (s : Step) (c : Client.Client) (w : World)
  : Outcome (option error) * Client.Client * World :=
  match s with
  | StepOpen env ctx => Client.Open env ctx c w
  | StepClose env => Client.Close env c w
  end.

(** The state after a sequence of calls that all returned. *)
Fixpoint run (steps : list Step) (c : Client.Client) (w : World)
  : option (Client.Client * World) :=
  match steps with
  | [] => Some (c, w)
  | s :: rest =>
    match step s c w with
    | (Returns _, c', w') => run rest c' w'
    | _ => None
    end
  end.

(** The events of health polling. *)
Definition isProbe (ev : Event) : Prop :=
  match ev with EvGet _ | EvSleep _ => True | _ => False end.

(** ** The stages of [Open] *)

(** The client and the world once the process is started: the context
    and the process take the next two identifiers. *)
Definition running (c : Client.Client) (w : World) : Client.Client :=
  Client.setCommandContext
    (Some {| cmdPath := Client.path c; Process := Some (S (nextId w)) |})
    (Client.setCancel (Some (nextId w)) c).

Definition spawned (c : Client.Client) (w : World) : World :=
  emit (EvStart (Client.path c) (S (nextId w))) (fresh (fresh w).2).2.

(** The client once the connection is built from the announced port. *)
Definition connected (c : Client.Client) (w : World) (port : string) : Client.Client :=
  Client.setHTTPClient
    (Some {| http.Timeout := Client.functionExecutionTimeout c |})
    (Client.setConnection
       (Some {| FunctionExecutionTimeout := 0;
                BaseURL := defaultSchema +:+ defaultHost +:+ ":" +:+ port |})
       (running c w)).

(** The world once the context [k] is cancelled and the process [pid]
    killed. *)
Definition torn (k pid : nat) (w : World) : World :=
  emit (EvKill pid) (emit (EvCancel k) w).

(** The client and the world once supervision is started. *)
Definition supervised (c : Client.Client) (w : World) : Client.Client * World :=
  if 0 <? Client.heartbeatInterval c then
    (Client.setHeartbeatChan (Some (nextId w)) c,
     emit (EvGo (Client.heartbeatInterval c))
       (emit (EvMakeChan (nextId w)) (setChan (nextId w) false (fresh w).2)))
  else (c, w).

(** [Open] on an idle client, stage by stage. *)
Definition openIdle (env : ClientEnv) (c : Client.Client) (w : World)
  : Outcome (option error) * Client.Client * World :=
  let failed (err : error) (w' : World) := (Returns (Some err), c, w') in
  match stat env (Client.path c) with
  | inr err => failed (PluginNotFoundError (Some err)) w
  | inl fileInfo =>
    if IsDir fileInfo then failed (PluginNotFoundError None) w
    else if Z.land (Mode fileInfo) Client.executeBits =? 0 then
      failed (PluginExecutionError (errorString "plugin must be an executable")) w
    else
      match start env (Client.path c) with
      | Some err => failed (PluginExecutionError err) (emit (EvCancel (nextId w)) (fresh w).2)
      | None =>
        let stop := torn (nextId w) (S (nextId w)) in
        match readLine env with
        | None => (Blocks, running c w, spawned c w)
        | Some (inr err) => failed (PluginExecutionError err) (stop (spawned c w))
        | Some (inl line) =>
          let port := gostrings.TrimSpace line in
          match strconv.Atoi port with
          | (_, Some _) =>
            failed (PluginExecutionError
                      (Errorf "invalid port received from plugin: %s" [ArgS port]))
                   (stop (spawned c w))
          | (_, None) =>
            match Client.waitForHealth env (connected c w port) (spawned c w) with
            | (Returns (Some err), w') => failed (PluginExecutionError err) (stop w')
            | (Returns None, w') =>
              let '(c', w') := supervised (connected c w port) w' in (Returns None, c', w')
            | (Panics msg, w') => (Panics msg, connected c w port, w')
            | (Blocks, w') => (Blocks, connected c w port, w')
            end
          end
        end
      end
  end.

(** ** The classes of errors of [Open] *)

Definition returnsNotFound (o : Outcome (option error)) : Prop :=
  match o with Returns e => isPluginNotFoundError e | _ => False end.

Definition returnsExecutionError (o : Outcome (option error)) : Prop :=
  match o with Returns e => isPluginExecutionError e | _ => False end.

(** [os.Stat] fails on the path, or the path is a directory. *)
Definition missingOrDirectory (env : ClientEnv) (path : string) : Prop :=
  match stat env path with
  | inr _ => True
  | inl fileInfo => IsDir fileInfo = true
  end.

(** The file has none of the execute permission bits. *)
Definition notExecutable (fileInfo : FileInfo) : Prop :=
  Z.land (Mode fileInfo) Client.executeBits = 0.

(** ** Health polling, probe by probe *)

(** The probe that is issued in world [w]. *)
Definition probe (env : ClientEnv) (hc : http.Client) (url : string) (w : World)
  : Outcome (http.Reply * Z) :=
  http.Do hc (get env (gets w) url).

(** The probe got a response with status 200. *)
Definition healthy (o : Outcome (http.Reply * Z)) : Prop :=
  exists body took, o = Returns (http.ReplyResponse http.StatusOK body, took).

(** The world after a probe that took [took] and the sleep that follows. *)
Definition afterProbe (env : ClientEnv) (c : Client.Client) (url : string) (took : Z)
    (w : World) : World :=
  Sleep (Client.healthCheckInterval c) (oversleep env (gets w))
    (elapse took (countGet (emit (EvGet url) w))).

(** The world in which the [k]-th probe is issued when the probes before
    it have failed. *)
Fixpoint worldAt (env : ClientEnv) (c : Client.Client) (hc : http.Client) (url : string)
    (k : nat) (w : World) : World :=
  match k with
  | O => w
  | S k' =>
    match probe env hc url w with
    | Returns (_, took) => worldAt env c hc url k' (afterProbe env c url took w)
    | _ => w
    end
  end.

(** [n] failed probes, each followed by the sleep. *)
Fixpoint pollEvents (url : string) (interval : Z) (n : nat) : list Event :=
  match n with
  | O => []
  | S n' => EvGet url :: EvSleep interval :: pollEvents url interval n'
  end.

(** The health check of a client that is connected. *)
Definition healthURL (conn : Connection) : string := BaseURL conn +:+ healthPath.

(** The health-check timeout outlasts the time between two readings of
    the clock, which a microsecond does by far: the deadline has not
    passed when the loop first checks it, in the code as in
    [Client.waitForHealth]. *)
Definition microsecond : Z := 1000.

Definition outlastsClock (c : Client.Client) : Prop :=
  microsecond <= Client.healthCheckTimeout c.

(** No request to [url] gets a response: every one ends in a transport
    error, as when the connection is refused or the address is rejected
    before a connection is tried. *)
Definition unreachable (env : ClientEnv) (url : string) : Prop :=
  forall n, exists d msg,
    get env n url = {| http.delay := Some d; http.reply := http.ReplyError msg |}.

(** A port on which a server can listen. *)
Definition validPort (n : Z) : Prop := 0 < n <= 65535.

(** ** The example of the repository: function [hello] *)

Module Example.

Record In : Type := { Name : string }.
Record Out : Type := { Greeting : string }.

Definition dq : string := String "034"%char "".

(** [{"name":<v>}] *)
Definition named (v : string) : string :=
  "{" +:+ dq +:+ "name" +:+ dq +:+ ":" +:+ dq +:+ v +:+ dq +:+ "}".

(** [{"name":"world","extra":1}] *)
Definition withExtra : string :=
  "{" +:+ dq +:+ "name" +:+ dq +:+ ":" +:+ dq +:+ "world" +:+ dq +:+ ","
  +:+ dq +:+ "extra" +:+ dq +:+ ":1}".

(** [{"greeting":<v>}] *)
Definition greeting (v : string) : string :=
  "{" +:+ dq +:+ "greeting" +:+ dq +:+ ":" +:+ dq +:+ v +:+ dq +:+ "}".

Definition stringSchema (field : string) : list (string * JSON) :=
  [("properties", JObject [(field, JObject [("type", JString "string")])]);
   ("type", JString "object")].

(** The decoder of [In] on the payloads of the example. *)
Definition decodeIn (strict : bool) (data : string) : In + string :=
  if String.eqb data (named "world") then inl {| Name := "world" |}
  else if String.eqb data (named "") then inl {| Name := "" |}
  else if String.eqb data withExtra then
    if strict then inr ("json: unknown field " +:+ dq +:+ "extra" +:+ dq)
    else inl {| Name := "world" |}
  else inr "unexpected end of JSON input".

#[global] Program Instance jsonIn : JSONType In := {|
  Decode := decodeIn;
  Unmarshal := decodeIn false;
  Marshal := fun v => match v with
                      | Some i => inl (named (Name i))
                      | None => inl "null"
                      end;
  Reflect := inl (stringSchema "name");
  unknownField := fun data => String.eqb data withExtra
|}.
Next Obligation.
  intros data Hd. apply String.eqb_eq in Hd. subst data.
  eexists. reflexivity.
Qed.

Definition decodeOut (data : string) : Out + string :=
  if String.eqb data (greeting "hello, world!") then inl {| Greeting := "hello, world!" |}
  else inr "unexpected end of JSON input".

#[global] Program Instance jsonOut : JSONType Out := {|
  Decode := fun _ => decodeOut;
  Unmarshal := decodeOut;
  Marshal := fun v => match v with
                      | Some o => inl (greeting (Greeting o))
                      | None => inl "null"
                      end;
  Reflect := inl (stringSchema "greeting");
  unknownField := fun _ => false
|}.
Next Obligation. intros data Hd. discriminate. Qed.

(** An [errors.New] value. *)
#[global] Instance errorText : GoError string := fun s => s.

(** [Hello] of the example plugin; it refuses the name ["nobody"]. *)
Definition Hello (ctx : nat) (i : In) : option Out * option string :=
  if String.eqb (Name i) "nobody" then (None, Some "nobody is not here")
  else (Some {| Greeting := "hello, " +:+ Name i +:+ "!" |}, None).

(** The validator of [In]: [name] has at least three characters. *)
Definition minLength3 : Validator :=
  {| Validate := fun data =>
       if String.eqb data (named "") then
         {| Valid := false;
            Errors := [("/name", "Value should be at least 3 characters")] |}
       else {| Valid := true; Errors := [] |} |}.

Definition helloHandler : Handler :=
  handler (NewFunctionHandler (T := In) (R := Out) Hello (Some minLength3)).1.

(** A second handler, for another pair of types. *)
Definition echoHandler : Handler :=
  handler (NewFunctionHandler (T := Out) (R := Out)
             (fun _ o => (Some o, @None string)) None).1.

Definition post (body : string) : http.Request :=
  {| http.Method := "POST"; http.URLPath := "/hello"; http.Body := inl body;
     http.Context := 0%nat |}.

Definition serve (h : Handler) (r : http.Request) : http.Response * list Event :=
  let '(w, evs) := HTTPHandler h r http.newResponseWriter in (http.response w, evs).

(** A plugin process that gets port 40123 and no request before it is
    shut down. *)
Definition quietEnv : PluginEnv :=
  {| listen := inl 40123;
     requests := [];
     serveResult := Some (errorString "http: Server closed");
     encodeSchemas := fun _ => inl "{}";
     encodeSchema := fun _ => inl "{}" |}.

(** The world before anything has happened. *)
Definition world0 : World :=
  {| now := 0; gets := 0%nat; nextId := 0%nat; chans := ∅; trace := [] |}.

(** An answer with the given status after [d] nanoseconds. *)
Definition answers (d : positive) (status : Z) : http.Exchange :=
  {| http.delay := Some d; http.reply := http.ReplyResponse status (inl "ok") |}.

Definition refuses (d : positive) : http.Exchange :=
  {| http.delay := Some d; http.reply := http.ReplyError "connection refused" |}.

Definition silent : http.Exchange :=
  {| http.delay := None; http.reply := http.ReplyError "" |}.

(** An executable plugin that announces [line] and whose [n]-th request
    meets [peer n]. *)
Definition pluginEnv (line : string) (peer : nat -> http.Exchange) : ClientEnv :=
  {| stat := fun _ => inl {| IsDir := false; Mode := 493 |};
     start := fun _ => None;
     readLine := Some (inl line);
     get := fun n _ => peer n;
     oversleep := fun _ => 0%N;
     kill := fun _ => None;
     decodeSchemas := fun _ => inl ∅ |}.

(** The plugin answers the health check at once. *)
Definition healthyEnv : ClientEnv := pluginEnv ("40123" +:+ LF) (fun _ => answers 1000 200).

(** The plugin refuses two connections and then answers. *)
Definition slowEnv : ClientEnv :=
  pluginEnv ("40123" +:+ LF)
    (fun n => if (n <? 2)%nat then refuses 1000 else answers 1000 200).

(** The plugin never becomes healthy. *)
Definition deadEnv : ClientEnv := pluginEnv ("40123" +:+ LF) (fun _ => answers 1000 503).

(** The plugin accepts connections and never answers. *)
Definition silentEnv : ClientEnv := pluginEnv ("40123" +:+ LF) (fun _ => silent).

(** The plugin announces port 0, on which every connection is refused. *)
Definition zeroPortEnv : ClientEnv := pluginEnv ("0" +:+ LF) (fun _ => refuses 1000).

(** The plugin announces something that is not a number. *)
Definition garbageEnv : ClientEnv := pluginEnv ("ready" +:+ LF) (fun _ => answers 1000 200).

(** The path does not exist. *)
Definition missingEnv : ClientEnv :=
  {| stat := fun _ => inr (errorString "stat ./plugin: no such file or directory");
     start := fun _ => None;
     readLine := None;
     get := fun _ _ => silent;
     oversleep := fun _ => 0%N;
     kill := fun _ => None;
     decodeSchemas := fun _ => inl ∅ |}.

(** A connected client whose calls have no timeout. *)
Definition patient : Client.Client :=
  connected (Client.New "./plugin"
               [Client.WithFunctionExecutionTimeout 0; Client.WithHealthCheckTimeout 20000])
            world0 "40123".

(** A transport that refuses every connection, and one that accepts and
    never answers. *)
Definition refusingStub : StubEnv :=
  {| newRequest := fun _ _ => None; roundTrip := fun _ _ _ => refuses 1000 |}.

Definition silentStub : StubEnv :=
  {| newRequest := fun _ _ => None; roundTrip := fun _ _ _ => silent |}.

(** A client with short timings: calls time out after 5 microseconds,
    health polling after 20, with 2 microseconds between probes. *)
Definition quick : list Client.ClientOption :=
  [Client.WithFunctionExecutionTimeout 5000;
   Client.WithHealthCheckTimeout 20000;
   Client.WithHealthCheckInterval 2000].

End Example.

(** ** A series of registrations *)

(** The calls of [AddFunction] that the [main] of a plugin makes, in
    order.  A panic ends the program, so the calls after it are not
    made. *)
Fixpoint register (calls : list (string * Handler)) (l : Plugin)
  : Outcome unit * Plugin * list Event :=
  match calls with
  | [] => (Returns tt, l, [])
  | (name, h) :: rest =>
    match AddFunction name h l with
    | (Returns _, l', evs) =>
      let '(o, l'', evs') := register rest l' in (o, l'', evs ++ evs')
    | (o, l', evs) => (o, l', evs)
    end
  end.

(** The call passes [validateFunctionName]. *)
Definition validCall (call : string * Handler) : bool :=
  match validateFunctionName call.1 with None => true | Some _ => false end.

(** The calls that pass validation, and those that do not. *)
Definition accepted (calls : list (string * Handler)) : list (string * Handler) :=
  List.filter validCall calls.

Definition rejected (calls : list (string * Handler)) : list (string * Handler) :=
  List.filter (fun call => negb (validCall call)) calls.

(** The names whose path is taken by an endpoint of [NewPlugin]. *)
Definition reservedName (name : string) : Prop :=
  name = "_healthz" \/ name = "_schemas".

(** What a plugin holds for the registrations [regs]: the two endpoints
    of [NewPlugin]; for every registration the schema of its handler in
    the function table, its handler at the invocation path and the schema
    endpoint at the schema path; and nothing else, in the table or in the
    mux. *)
Definition holds (regs : list (string * Handler)) (l : Plugin) : Prop :=
  exists m, mux l = Some m
    /\ m !! healthPath = Some HealthEntry
    /\ m !! schemasPath = Some SchemasEntry
    /\ (forall name h, In (name, h) regs ->
          functions l !! name = Some (HandlerSchema h)
          /\ m !! (basePath +:+ name) = Some (FunctionEntry (HTTPHandler h))
          /\ m !! (basePath +:+ name +:+ schemasPath) = Some (FunctionSchemaEntry name))
    /\ (forall name s, functions l !! name = Some s -> In name (map fst regs))
    /\ (forall path e, m !! path = Some e ->
          path = healthPath \/ path = schemasPath
          \/ exists name, In name (map fst regs)
               /\ (path = basePath +:+ name \/ path = basePath +:+ name +:+ schemasPath)).

(** ** Client and plugin, put together *)

(** The exchange in which the answer [resp] of the peer arrives after
    [d] nanoseconds, with its body read to the end. *)
Definition delivers (d : positive) (resp : http.Response) : http.Exchange :=
  {| http.delay := Some d;
     http.reply := http.ReplyResponse (http.StatusCode resp) (inl (http.RespBody resp)) |}.

(** The answer arrives before the timeout of the transport client, if it
    has one. *)
Definition inTime (hc : http.Client) (d : positive) : Prop :=
  ~ (0 < http.Timeout hc < Z.pos d).

(** A GET request for [path], as the plugin's server sees it. *)
Definition getRequest (path : string) (ctx : nat) : http.Request :=
  {| http.Method := http.MethodGet; http.URLPath := path; http.Body := inl "";
     http.Context := ctx |}.

(** A POST request with the body [data], as the plugin's server sees it. *)
Definition postRequest (path data : string) (ctx : nat) : http.Request :=
  {| http.Method := http.MethodPost; http.URLPath := path; http.Body := inl data;
     http.Context := ctx |}.

(** The error of a stub for an answer with a status other than 200. *)
Definition statusError (name : string) (status : Z) (text : string) : error :=
  FunctionExecutionError name
    (Errorf "plugin returned status %d: %s" [ArgD status; ArgS text]).

(** ** A plugin and a client that talk to each other *)

Module Scenario.

(** The plugin of the basic example once [hello] is registered. *)
Definition plugin : Plugin :=
  (register [("hello", Example.helloHandler)] NewPlugin).1.2.

(** The text of its schema listing. *)
Definition listing : string :=
  "{" +:+ Example.dq +:+ "hello" +:+ Example.dq +:+ ":{}}" +:+ LF.

Definition serverEnv : PluginEnv :=
  {| listen := inl 40123;
     requests := [];
     serveResult := Some (errorString "http: Server closed");
     encodeSchemas := fun _ => inl listing;
     encodeSchema := fun _ => inl ("{}" +:+ LF) |}.

(** A client side whose GET requests reach the server of [plugin]. *)
Definition clientEnv : ClientEnv :=
  {| stat := fun _ => inl {| IsDir := false; Mode := 493 |};
     start := fun _ => None;
     readLine := Some (inl ("40123" +:+ LF));
     get := fun _ _ =>
       delivers 1000 (answer (ServeHTTP serverEnv plugin) (getRequest schemasPath 0)).1;
     oversleep := fun _ => 0%N;
     kill := fun _ => None;
     decodeSchemas := fun text =>
       if String.eqb text listing then inl (functions plugin)
       else inr "invalid character" |}.

(** A decoder of [Out] that accepts the newline the encoder writes. *)
Definition decodeReply (data : string) : Example.Out + string :=
  if String.eqb (gostrings.TrimSpace data) (Example.greeting "hello, world!")
  then inl {| Example.Greeting := "hello, world!" |}
  else inr "unexpected end of JSON input".

Program Definition jsonReply : JSONType Example.Out := {|
  Decode := fun _ => decodeReply;
  Unmarshal := decodeReply;
  Marshal := fun v => match v with
                      | Some o => inl (Example.greeting (Example.Greeting o))
                      | None => inl "null"
                      end;
  Reflect := inl (Example.stringSchema "greeting");
  unknownField := fun _ => false
|}.
Next Obligation. intros data Hd. discriminate. Qed.

(** The function endpoint of [hello] with this encoder. *)
Definition helloEndpoint : HandlerFunc :=
  httpHandler (T := Example.In) (R := Example.Out) (H0 := jsonReply)
    Example.Hello (Some Example.minLength3).

(** A stub side whose requests reach that endpoint. *)
Definition stubEnv : StubEnv :=
  {| newRequest := fun _ _ => None;
     roundTrip := fun _ _ body =>
       delivers 1000 (answer helloEndpoint (postRequest "/hello" body 0)).1 |}.

(** The stub of [hello] on the connection that [Open] installs. *)
Definition helloStub : Function.Function :=
  {| Function.name := "hello";
     Function.httpClient := {| http.Timeout := 0 |};
     Function.clientConnection :=
       {| FunctionExecutionTimeout := 0; BaseURL := "http://127.0.0.1:40123" |} |}.

(** A stub side whose GET requests reach the schema endpoint of [hello]
    on the server of [plugin], and a decoder for what it writes. *)
Definition schemaStubEnv : StubEnv :=
  {| newRequest := fun _ _ => None;
     roundTrip := fun _ _ _ =>
       delivers 1000
         (answer (ServeHTTP serverEnv plugin) (getRequest "/hello/_schemas" 0)).1 |}.

Definition decodeSchema (text : string) : Schema + string :=
  if String.eqb text ("{}" +:+ LF) then inl (HandlerSchema Example.helloHandler)
  else inr "unexpected end of JSON input".

(** A plugin process that starts and never writes to its standard
    output. *)
Definition muteEnv : ClientEnv :=
  {| stat := fun _ => inl {| IsDir := false; Mode := 493 |};
     start := fun _ => None;
     readLine := None;
     get := fun _ _ => Example.answers 1000 200;
     oversleep := fun _ => 0%N;
     kill := fun _ => None;
     decodeSchemas := fun _ => inl ∅ |}.

End Scenario.

(** ** The plugin [reverse] of the scan example *)

(** The package [shared] of the example: the input and the output of
    [exec]. *)
Module shared.

Module Input.
Record t : Type := { Text : string }.
End Input.

Module Output.
Record t : Type := { Text : string }.
End Output.

End shared.

(** The conversions between [string] and [[]rune] of the Go runtime. *)
Module runtime.

Definition runeError : Z := 0xFFFD.
Definition maxRune : Z := 0x10FFFF.
Definition surrogateMin : Z := 0xD800.
Definition surrogateMax : Z := 0xDFFF.
Definition rune1Max : Z := 0x7F.
Definition rune2Max : Z := 0x7FF.
Definition rune3Max : Z := 0xFFFF.
Definition tx : Z := 0x80.
Definition t2 : Z := 0xC0.
Definition t3 : Z := 0xE0.
Definition t4 : Z := 0xF0.
Definition maskx : Z := 0x3F.

(** The conversions [byte(x)] and [uint32(x)] of an integer. *)
Definition byte (x : Z) : Z := x mod 256.
Definition uint32 (x : Z) : Z := x mod 2 ^ 32.

(** [encoderune]: the UTF-8 encoding of [r]; a rune out of range or a
    surrogate half is encoded as [runeError]. *)
Definition encoderune (r : Z) : list Z :=
  let i := uint32 r in
  if i <=? rune1Max then [byte r]
  else if i <=? rune2Max then
    [Z.lor t2 (byte (Z.shiftr r 6)); Z.lor tx (Z.land (byte r) maskx)]
  else
    let invalid := (maxRune <? i) || ((surrogateMin <=? i) && (i <=? surrogateMax)) in
    let r := if invalid then runeError else r in
    if invalid || (i <=? rune3Max) then
      [Z.lor t3 (byte (Z.shiftr r 12));
       Z.lor tx (Z.land (byte (Z.shiftr r 6)) maskx);
       Z.lor tx (Z.land (byte r) maskx)]
    else
      [Z.lor t4 (byte (Z.shiftr r 18));
       Z.lor tx (Z.land (byte (Z.shiftr r 12)) maskx);
       Z.lor tx (Z.land (byte (Z.shiftr r 6)) maskx);
       Z.lor tx (Z.land (byte r) maskx)].

(** [string(a)] for a slice of runes [a]. *)
Definition slicerunetostring (a : list Z) : string :=
  gostrings.ofBytes (flat_map encoderune a).

(** [[]rune(s)]: the runes a [range] loop over [s] yields. *)
Definition stringtoslicerune (s : string) : list Z := utf8.runes s.

End runtime.

Module reverse.

(** The loop of [exec]: the runes at [i] and [j] are exchanged while
    [i < j]; from [0] and [len(runes)-1] both indices stay within the
    slice, and half its length is enough fuel. *)
Fixpoint swapLoop (fuel : nat) (i j : Z) (runes : list Z) : list Z :=
  match fuel with
  | O => runes
  | S fuel' =>
    if i <? j then
      let ri := nth (Z.to_nat i) runes 0 in
      let rj := nth (Z.to_nat j) runes 0 in
      swapLoop fuel' (i + 1) (j - 1)
        (<[Z.to_nat j := ri]> (<[Z.to_nat i := rj]> runes))
    else runes
  end.

(** [exec]: the text, rune by rune, in reverse order. *)
Definition exec (ctx : nat) (input : shared.Input.t)
  : option shared.Output.t * option string :=
  let runes := runtime.stringtoslicerune (shared.Input.Text input) in
  let runes := swapLoop (length runes) 0 (Z.of_nat (length runes) - 1) runes in
  (Some {| shared.Output.Text := runtime.slicerunetostring runes |}, None).

(** The text that [exec] returns. *)
Definition reversed (s : string) : string :=
  match (exec 0 {| shared.Input.Text := s |}).1 with
  | Some out => shared.Output.Text out
  | None => ""
  end.

End reverse.

(** A Unicode scalar value: a code point that is not a surrogate half. *)
Definition scalarValue (r : Z) : Prop :=
  0 <= r <= 0x10FFFF /\ ~ (0xD800 <= r <= 0xDFFF).

(** * Properties *)

(** ** The models of the library functions on concrete inputs *)

Example runes_two_byte_rune :
  utf8.runes (String "195"%char (String "169"%char "")) = [233].
Proof. reflexivity. Qed.

Example runes_invalid_byte :
  utf8.runes (String "255"%char "a") = [utf8.RuneError; rune "a"].
Proof. reflexivity. Qed.

Example TrimSpace_port_line : gostrings.TrimSpace ("  8080 " +:+ LF) = "8080".
Proof. reflexivity. Qed.

Example TrimSpace_inner_space :
  gostrings.TrimSpace (String "009"%char "x y" +:+ String "013"%char LF) = "x y".
Proof. reflexivity. Qed.

Example Atoi_port : strconv.Atoi "8080" = (8080, None).
Proof. reflexivity. Qed.

Example Atoi_signs :
  strconv.Atoi "+80" = (80, None) /\ strconv.Atoi "-5" = (-5, None).
Proof. split; reflexivity. Qed.

Example Atoi_syntax :
  strconv.Atoi "80a" = (0, Some strconv.ErrSyntax)
  /\ strconv.Atoi "" = (0, Some strconv.ErrSyntax).
Proof. split; reflexivity. Qed.

Example Atoi_range :
  strconv.Atoi "9223372036854775808" = (9223372036854775807, Some strconv.ErrRange).
Proof. reflexivity. Qed.

Example Itoa_values :
  strconv.Itoa 40123 = "40123" /\ strconv.Itoa 0 = "0" /\ strconv.Itoa (-5) = "-5".
Proof. repeat split; reflexivity. Qed.

Example SplitHostPort_ipv4 :
  net.SplitHostPort "127.0.0.1:40123" = ("127.0.0.1", "40123", None).
Proof. reflexivity. Qed.

Example SplitHostPort_ipv6 :
  net.SplitHostPort (net.JoinHostPort "::1" "80") = ("::1", "80", None).
Proof. reflexivity. Qed.

Example SplitHostPort_no_port :
  net.SplitHostPort "127.0.0.1"
  = ("", "", Some (errorString "address 127.0.0.1: missing port in address")).
Proof. reflexivity. Qed.

Example validateFunctionName_cases :
  validateFunctionName "hello" = None
  /\ validateFunctionName "" = Some (errorString "function name cannot be empty")
  /\ validateFunctionName "/a" = Some (errorString "function name cannot start with '/'")
  /\ validateFunctionName "a/b"
     = Some (Errorf "function name contains invalid character: %q" [ArgQ (rune "/")]).
Proof. repeat split; reflexivity. Qed.

(** ** The plugin on concrete requests *)

Example serves_health_check :
  answer (ServeHTTP Example.quietEnv NewPlugin)
    {| http.Method := "GET"; http.URLPath := "/_healthz"; http.Body := inl "";
       http.Context := 0%nat |}
  = ({| http.StatusCode := 200; http.Header := []; http.RespBody := "ok" |}, []).
Proof. reflexivity. Qed.

Example serves_registered_function :
  answer (ServeHTTP Example.quietEnv
            (AddFunction "hello" Example.helloHandler NewPlugin).1.2)
    (Example.post (Example.named "world"))
  = ({| http.StatusCode := 200;
        http.Header := [("Content-Type", "application/json")];
        http.RespBody := Example.greeting "hello, world!" +:+ LF |},
     [EvValidate (Example.named "world"); EvDecode (Example.named "world");
      EvInvoke 0%nat; EvEncode]).
Proof. reflexivity. Qed.

Example unknown_path_is_not_found :
  (answer (ServeHTTP Example.quietEnv NewPlugin)
     {| http.Method := "GET"; http.URLPath := "/nothing"; http.Body := inl "";
        http.Context := 0%nat |}).1
  = {| http.StatusCode := 404; http.Header := [];
       http.RespBody := "404 page not found" +:+ LF |}.
Proof. reflexivity. Qed.

Example Start_quiet :
  (Start Example.quietEnv NewPlugin).2
  = [EvListen "tcp" "127.0.0.1:0"; EvStdout ("40123" +:+ LF); EvStdoutSync;
     EvLog "failed to serve HTTP"].
Proof. reflexivity. Qed.

(** ** Bytes and runes *)

Lemma byteZ_range (a : ascii) : 0 <= byteZ a < 256.
Proof.
  unfold byteZ. pose proof (N_ascii_bounded a) as Hb. lia.
Qed.

Lemma bytes_range (s : string) : Forall (fun b => 0 <= b < 256) (bytes s).
Proof.
  unfold bytes. apply Forall_map, Forall_forall. intros a _. apply byteZ_range.
Qed.

Lemma land_le_r (a b : Z) : 0 <= a -> 0 <= b -> Z.land a b <= b.
Proof.
  intros Ha Hb.
  assert (Hz : Z.land (Z.ldiff b a) (Z.land b a) = 0).
  { apply Z.bits_inj'. intros n Hn.
    rewrite Z.land_spec, Z.ldiff_spec, Z.land_spec, Z.bits_0.
    destruct (Z.testbit b n), (Z.testbit a n); reflexivity. }
  pose proof (Z.add_lor_land (Z.ldiff b a) (Z.land b a)) as Hadd.
  rewrite Z.lor_ldiff_and, Hz in Hadd.
  assert (0 <= Z.ldiff b a) by (apply Z.ldiff_nonneg; lia).
  rewrite (Z.land_comm a b). lia.
Qed.

Lemma lor_ge_l (a b : Z) : 0 <= a -> 0 <= b -> a <= Z.lor a b.
Proof.
  intros Ha Hb. pose proof (Z.add_lor_land a b). pose proof (land_le_r a b Ha Hb). lia.
Qed.

Lemma lor_ge_r (a b : Z) : 0 <= a -> 0 <= b -> b <= Z.lor a b.
Proof. intros. rewrite Z.lor_comm. now apply lor_ge_l. Qed.

Lemma land_mask_nonneg (b m : Z) : 0 <= m -> 0 <= Z.land b m.
Proof. intros. apply Z.land_nonneg. now right. Qed.

Lemma shifted_mask_ge (b k lo n : Z) :
  0 <= k -> 0 <= n -> lo <= b mod 2 ^ k -> lo * 2 ^ n <= Z.shiftl (Z.land b (Z.ones k)) n.
Proof.
  intros Hk Hn Hlo. rewrite Z.land_ones, Z.shiftl_mul_pow2 by assumption.
  apply Z.mul_le_mono_nonneg_r; [apply Z.pow_nonneg; lia | assumption].
Qed.

Lemma DecodeRune_ascii (b0 : Z) (rest : list Z) :
  0 <= b0 < 128 -> utf8.DecodeRune (b0 :: rest) = (b0, 1%nat).
Proof.
  intros Hb. unfold utf8.DecodeRune, utf8.first.
  destruct (Z.ltb_spec b0 128); [reflexivity | lia].
Qed.

Ltac first_byte_class :=
  unfold utf8.first;
  repeat match goal with
    | |- context [?a <? ?b] => destruct (Z.ltb_spec a b); try lia
    | |- context [?a =? ?b] => destruct (Z.eqb_spec a b); try lia
    end; try reflexivity.

Lemma first_classes (b0 : Z) :
  128 <= b0 < 256 ->
  utf8.first b0 = utf8.xx
  \/ (utf8.first b0 = utf8.s1 /\ 2 <= b0 mod 2 ^ 5)
  \/ (utf8.first b0 = utf8.s2 /\ b0 = 0xE0)
  \/ (utf8.first b0 = utf8.s3 /\ 1 <= b0 mod 2 ^ 4)
  \/ (utf8.first b0 = utf8.s4 /\ 1 <= b0 mod 2 ^ 4)
  \/ (utf8.first b0 = utf8.s5 /\ b0 = 0xF0)
  \/ (utf8.first b0 = utf8.s6 /\ 1 <= b0 mod 2 ^ 3)
  \/ (utf8.first b0 = utf8.s7 /\ 1 <= b0 mod 2 ^ 3).
Proof.
  intros Hb. unfold utf8.first.
  repeat match goal with
    | |- context [if ?a <? ?b then _ else _] => destruct (Z.ltb_spec a b)
    | |- context [if ?a =? ?b then _ else _] => destruct (Z.eqb_spec a b)
    end; try lia; auto 10.
  all: try (right; left; split; [reflexivity|]).
  all: try (right; right; right; left; split; [reflexivity|]).
  all: try (right; right; right; right; left; split; [reflexivity|]).
  all: try (right; right; right; right; right; right; left; split; [reflexivity|]).
  all: try (right; right; right; right; right; right; right; split; [reflexivity|]).
  all: change (2 ^ 5) with 32; change (2 ^ 4) with 16; change (2 ^ 3) with 8.
  all: Z.to_euclidean_division_equations; lia.
Qed.

Lemma RuneError_high : 128 <= utf8.RuneError.
Proof. unfold utf8.RuneError. lia. Qed.

Ltac pose_lor t :=
  lazymatch t with
  | Z.lor ?x ?y =>
    pose_lor x; pose_lor y;
    pose proof (lor_ge_l x y); pose proof (lor_ge_r x y);
    pose proof (proj2 (Z.lor_nonneg x y))
  | Z.shiftl (Z.land ?b ?m) ?n =>
    pose proof (proj2 (Z.shiftl_nonneg (Z.land b m) n) (land_mask_nonneg b m ltac:(lia)))
  | Z.land ?b ?m => pose proof (land_mask_nonneg b m ltac:(lia))
  end.

Ltac bound_by b k lo n :=
  let H := fresh "Hbound" in
  assert (H : lo * 2 ^ n <= Z.shiftl (Z.land b (Z.ones k)) n)
    by (apply shifted_mask_ge; [lia | lia |];
        let v := eval vm_compute in (2 ^ k) in change (2 ^ k) with v in *;
        Z.to_euclidean_division_equations; lia);
  let v := eval vm_compute in (Z.ones k) in change (Z.ones k) with v in H.

Ltac decode_consts :=
  repeat match goal with
    | |- context [utf8.acceptRanges ?t] =>
      let v := eval vm_compute in (utf8.acceptRanges t) in
      change (utf8.acceptRanges t) with v
    | |- context [Z.to_nat (Z.land ?s 7)] =>
      let v := eval vm_compute in (Z.to_nat (Z.land s 7)) in
      change (Z.to_nat (Z.land s 7)) with v
    end.

Lemma outside_false (lo hi b : Z) : utf8.outside lo hi b = false -> lo <= b <= hi.
Proof.
  unfold utf8.outside. intros H. apply orb_false_iff in H as [H1 H2].
  apply Z.ltb_ge in H1, H2. lia.
Qed.

Lemma DecodeRune_high (b0 : Z) (rest : list Z) :
  128 <= b0 < 256 ->
  128 <= fst (utf8.DecodeRune (b0 :: rest)).
Proof.
  intros Hb.
  unfold utf8.DecodeRune.
  destruct (first_classes b0 Hb) as
    [Hx | [[Hx Hm] | [[Hx Hm] | [[Hx Hm] | [[Hx Hm] | [[Hx Hm] | [[Hx Hm] | [Hx Hm]]]]]]]];
    rewrite Hx; cbn -[Z.land Z.lor Z.shiftl utf8.outside Nat.ltb Nat.leb length];
    [apply RuneError_high | ..]; decode_consts; cbv iota beta;
    (destruct (_ <? _)%nat; [apply RuneError_high |]);
    (destruct rest as [|b1 rest1]; [apply RuneError_high |]);
    (destruct (utf8.outside _ _ b1) eqn:Ho1; [apply RuneError_high |]);
    apply outside_false in Ho1; cbn [Nat.leb]; cbv iota;
    try (destruct rest1 as [|b2 rest2]; [apply RuneError_high |];
         (destruct (utf8.outside _ _ b2) eqn:Ho2; [apply RuneError_high |]);
         try (destruct rest2 as [|b3 rest3]; [apply RuneError_high |];
              (destruct (utf8.outside _ _ b3) eqn:Ho3; [apply RuneError_high |])));
    cbn [fst]; unfold utf8.mask2, utf8.mask3, utf8.mask4, utf8.maskx, utf8.locb, utf8.hicb in *.
  all: match goal with |- _ <= ?t => pose_lor t end.
  1: bound_by b0 5 2 6.
  2: bound_by b1 6 32 6.
  3, 4: bound_by b0 4 1 12.
  5: bound_by b1 6 16 12.
  6, 7: bound_by b0 3 1 18.
  all: lia.
Qed.

Lemma rangeLoop_ascii (p : list Z) :
  forall fuel, (length p <= fuel)%nat ->
  Forall (fun b => 0 <= b < 128) p -> utf8.rangeLoop fuel p = p.
Proof.
  induction p as [|b0 rest IH]; intros fuel Hlen Hp.
  - destruct fuel; reflexivity.
  - destruct fuel as [|fuel]; [cbn in Hlen; lia |].
    inversion Hp as [|? ? Hb0 Hrest]; subst.
    cbn [utf8.rangeLoop]. rewrite DecodeRune_ascii by assumption.
    cbn [drop]. rewrite IH; [reflexivity | cbn in Hlen; lia | assumption].
Qed.

Lemma rangeLoop_low (p : list Z) :
  forall fuel, (length p <= fuel)%nat ->
  Forall (fun b => 0 <= b < 256) p ->
  Forall (fun r => r < 128) (utf8.rangeLoop fuel p) ->
  Forall (fun b => 0 <= b < 128) p.
Proof.
  induction p as [|b0 rest IH]; intros fuel Hlen Hp Hr; [constructor |].
  destruct fuel as [|fuel]; [cbn in Hlen; lia |].
  inversion Hp as [|? ? Hb0 Hrest]; subst.
  cbn [utf8.rangeLoop] in Hr.
  destruct (Z_lt_ge_dec b0 128) as [Hlow | Hhigh].
  - rewrite DecodeRune_ascii in Hr by lia. cbn [drop] in Hr.
    inversion Hr; subst. constructor; [lia |].
    apply (IH fuel); [cbn in Hlen; lia | assumption | assumption].
  - pose proof (DecodeRune_high b0 rest ltac:(lia)) as Hhi.
    destruct (utf8.DecodeRune (b0 :: rest)) as [r w]. cbn [fst] in Hhi.
    inversion Hr; subst. lia.
Qed.

Lemma runes_safe_are_bytes (name : string) :
  Forall (fun r => r < 128) (utf8.runes name) -> utf8.runes name = bytes name.
Proof.
  intros Hr. unfold utf8.runes in *.
  apply rangeLoop_ascii; [lia |].
  apply (rangeLoop_low _ (length (bytes name))); [lia | apply bytes_range | assumption].
Qed.

Lemma allowedRune_safe (r : Z) : allowedRune r = true <-> safeCharacter r.
Proof.
  unfold allowedRune, safeCharacter.
  rewrite !orb_true_iff, !andb_true_iff, !Z.eqb_eq, !Z.leb_le. tauto.
Qed.

Lemma safeCharacter_low (r : Z) : safeCharacter r -> r < 128.
Proof.
  unfold safeCharacter, rune, byteZ. cbn. lia.
Qed.

Lemma find_none_forall {A} (f : A -> bool) (l : list A) :
  find f l = None <-> Forall (fun x => f x = false) l.
Proof.
  induction l as [|x l IH]; cbn.
  - split; [constructor | reflexivity].
  - destruct (f x) eqn:Hx.
    + split; [discriminate | intros H; inversion H; congruence].
    + rewrite IH. split; [now constructor | intros H; now inversion H].
Qed.

Lemma byteZ_inj (a b : ascii) : byteZ a = byteZ b -> a = b.
Proof.
  unfold byteZ. intros H. apply N2Z.inj in H.
  rewrite <- (ascii_N_embedding a), <- (ascii_N_embedding b). now f_equal.
Qed.

Lemma validateFunctionName_safe (name : string) :
  validateFunctionName name = None <-> safeFunctionName name.
Proof.
  unfold validateFunctionName, safeFunctionName.
  destruct name as [|a rest].
  - cbn. split; [discriminate | intros [H _]; congruence].
  - change (bytes (String a rest)) with (byteZ a :: bytes rest).
    cbv beta iota.
    destruct (Z.eqb_spec (byteZ a) (rune "/")) as [Hslash | Hslash].
    { split; [discriminate |]. intros (_ & _ & Hno & _).
      apply byteZ_inj in Hslash. subst a. now specialize (Hno rest). }
    set (p := byteZ a :: bytes rest).
    assert (Hfirst : forall rest', String a rest <> String "/" rest').
    { intros rest' Heq. injection Heq as Ha _. subst a. now apply Hslash. }
    destruct (Nat.ltb_spec 128 (length p)) as [Hlong | Hshort].
    + split; [discriminate |]. intros (_ & Hlen & _ & Hsafe). exfalso.
      rewrite runes_safe_are_bytes in Hlen.
      * change (bytes (String a rest)) with p in Hlen. lia.
      * eapply Forall_impl; [exact Hsafe | intros r; apply safeCharacter_low].
    + destruct (find _ _) as [r|] eqn:Hfind.
      * split; [discriminate |]. intros (_ & _ & _ & Hsafe). exfalso.
        apply find_some in Hfind as [Hin Hbad].
        rewrite List.Forall_forall in Hsafe. apply Hsafe, allowedRune_safe in Hin.
        rewrite Hin in Hbad. discriminate.
      * split; [intros _ | reflexivity].
        apply find_none_forall in Hfind.
        assert (Hsafe : Forall safeCharacter (utf8.runes (String a rest))).
        { eapply Forall_impl; [exact Hfind |]. intros r Hr. cbn beta in Hr.
          apply allowedRune_safe. now apply negb_false_iff in Hr. }
        repeat split; [discriminate | | exact Hfirst | exact Hsafe].
        rewrite runes_safe_are_bytes.
        -- exact Hshort.
        -- eapply Forall_impl; [exact Hsafe | intros r; apply safeCharacter_low].
Qed.

(** ** Strings *)

Lemma length_append (s1 s2 : string) :
  String.length (s1 +:+ s2) = (String.length s1 + String.length s2)%nat.
Proof. induction s1 as [|a s1 IH]; simpl; [reflexivity | now rewrite IH]. Qed.

(** ** Registration (plugin.go) *)

Lemma AddFunction_invalid (name : string) (handler : Handler) (l : Plugin) :
  ~ safeFunctionName name ->
  AddFunction name handler l = (Returns tt, l, [EvLog "invalid function name"]).
Proof.
  intros Hbad. unfold AddFunction.
  destruct (validateFunctionName name) eqn:Hv; [reflexivity |].
  apply validateFunctionName_safe in Hv. contradiction.
Qed.

Lemma AddFunction_valid_table (name : string) (handler : Handler) (l : Plugin) :
  safeFunctionName name ->
  functions (AddFunction name handler l).1.2
  = <[name := HandlerSchema handler]> (functions l)
  /\ (AddFunction name handler l).2 = [].
Proof.
  intros Hok. apply validateFunctionName_safe in Hok.
  unfold AddFunction. rewrite Hok.
  destruct (mux _) as [m|]; [| split; reflexivity].
  destruct (Handle _ _ m) as [m1 | reason]; [| split; reflexivity].
  destruct (Handle _ _ m1) as [m2 | reason]; split; reflexivity.
Qed.

Lemma AddFunction_fresh_routes (name : string) (handler : Handler) (l : Plugin) (m : ServeMux) :
  safeFunctionName name ->
  mux l = Some m ->
  m !! (basePath +:+ name) = None ->
  m !! (basePath +:+ name +:+ schemasPath) = None ->
  AddFunction name handler l
  = (Returns tt,
     {| functions := <[name := HandlerSchema handler]> (functions l);
        httpServer := httpServer l;
        mux := Some (<[basePath +:+ name +:+ schemasPath := FunctionSchemaEntry name]>
                       (<[basePath +:+ name := FunctionEntry (HTTPHandler handler)]> m)) |},
     []).
Proof.
  intros Hok Hm H1 H2. apply validateFunctionName_safe in Hok.
  assert (Hne : basePath +:+ name <> basePath +:+ name +:+ schemasPath).
  { intros Heq. apply (f_equal String.length) in Heq.
    rewrite !length_append in Heq. cbn in Heq. lia. }
  unfold AddFunction. rewrite Hok. cbn [mux setFunctions]. rewrite Hm.
  set (k1 := basePath +:+ name) in *. set (k2 := basePath +:+ name +:+ schemasPath) in *.
  unfold Handle. rewrite H1. cbn [mux setMux].
  rewrite lookup_insert_ne by exact Hne. rewrite H2. reflexivity.
Qed.

Example hello_world :
  Example.serve Example.helloHandler (Example.post (Example.named "world"))
  = ({| http.StatusCode := 200;
        http.Header := [("Content-Type", "application/json")];
        http.RespBody := Example.greeting "hello, world!" +:+ LF |},
     [EvValidate (Example.named "world"); EvDecode (Example.named "world");
      EvInvoke 0%nat; EvEncode]).
Proof. reflexivity. Qed.

Example hello_short :
  Example.serve Example.helloHandler (Example.post (Example.named ""))
  = ({| http.StatusCode := 400;
        http.Header := [];
        http.RespBody := "invalid input: /name: Value should be at least 3 characters" |},
     [EvValidate (Example.named "");
      EvStderr ("error reading request body: invalid input: /name: Value should be at least 3 characters" +:+ LF)]).
Proof. reflexivity. Qed.

(** C6. [AddFunction] registers a name exactly when it follows the naming
    rule: [validateFunctionName] accepts exactly the non-empty names of at
    most 128 characters that do not begin with [/] and consist of
    letters, digits, [-], [_] and [.]; for such a name the function table
    receives the handler's schema and nothing is logged, and when its two
    paths are not registered yet both routes are installed and the call
    returns; for any other name the call logs, returns, and leaves the
    plugin as it was. *)
Theorem AddFunction_registers_iff_safe (name : string) (handler : Handler) (l : Plugin) :
  (validateFunctionName name = None <-> safeFunctionName name)
  /\ (safeFunctionName name ->
      functions (AddFunction name handler l).1.2
      = <[name := HandlerSchema handler]> (functions l)
      /\ (AddFunction name handler l).2 = []
      /\ forall m, mux l = Some m ->
           m !! (basePath +:+ name) = None ->
           m !! (basePath +:+ name +:+ schemasPath) = None ->
           (AddFunction name handler l).1.1 = Returns tt
           /\ mux (AddFunction name handler l).1.2
              = Some (<[basePath +:+ name +:+ schemasPath := FunctionSchemaEntry name]>
                        (<[basePath +:+ name := FunctionEntry (HTTPHandler handler)]> m)))
  /\ (~ safeFunctionName name ->
      AddFunction name handler l = (Returns tt, l, [EvLog "invalid function name"])).
Proof.
  split; [apply validateFunctionName_safe |].
  split; [| apply AddFunction_invalid].
  intros Hok. destruct (AddFunction_valid_table name handler l Hok) as [Htable Hlog].
  split; [exact Htable |]. split; [exact Hlog |].
  intros m Hm H1 H2. rewrite (AddFunction_fresh_routes name handler l m Hok Hm H1 H2).
  split; reflexivity.
Qed.

Lemma hello_is_safe : safeFunctionName "hello".
Proof. apply validateFunctionName_safe. reflexivity. Qed.

Lemma slash_is_unsafe : ~ safeFunctionName "a/b".
Proof.
  intros H. apply validateFunctionName_safe in H. discriminate H.
Qed.

Lemma AddFunction_registers_iff_safe_witness :
  (functions (AddFunction "hello" Example.helloHandler NewPlugin).1.2 !! "hello"
   = Some (HandlerSchema Example.helloHandler))
  /\ AddFunction "a/b" Example.helloHandler NewPlugin
     = (Returns tt, NewPlugin, [EvLog "invalid function name"]).
Proof.
  pose proof (AddFunction_registers_iff_safe "hello" Example.helloHandler NewPlugin)
    as (_ & Hyes & _).
  pose proof (AddFunction_registers_iff_safe "a/b" Example.helloHandler NewPlugin)
    as (_ & _ & Hno).
  split.
  - destruct (Hyes hello_is_safe) as (Htable & _ & _). rewrite Htable.
    apply lookup_insert_eq.
  - exact (Hno slash_is_unsafe).
Defined.

Lemma invocation_path_ne_schema_path (name : string) :
  basePath +:+ name <> basePath +:+ name +:+ schemasPath.
Proof.
  intros Heq. apply (f_equal String.length) in Heq.
  rewrite !length_append in Heq. cbn in Heq. lia.
Qed.

(** C1, as the code has it.  When a first [AddFunction] of a valid name
    has returned, a second one with the same name overwrites the entry
    of the function table and then panics in the serve mux, which refuses
    a pattern that is already registered: the call does not return, and
    the invocation path stays bound to the first handler. *)
Theorem AddFunction_twice_panics (name : string) (h1 h2 : Handler)
    (l l1 : Plugin) (evs1 : list Event) :
  safeFunctionName name ->
  AddFunction name h1 l = (Returns tt, l1, evs1) ->
  exists reason l2,
    AddFunction name h2 l1 = (Panics reason, l2, [])
    /\ functions l2 !! name = Some (HandlerSchema h2)
    /\ mux l2 ≫= (fun m => m !! (basePath +:+ name)) = Some (FunctionEntry (HTTPHandler h1)).
Proof.
  intros Hok Hfirst. apply validateFunctionName_safe in Hok.
  unfold AddFunction in Hfirst. rewrite Hok in Hfirst. cbn [mux setFunctions] in Hfirst.
  destruct (mux l) as [m|] eqn:Hm; [| discriminate].
  set (k1 := basePath +:+ name) in *. set (k2 := basePath +:+ name +:+ schemasPath) in *.
  destruct (Handle k1 _ m) as [m1 | r1] eqn:H1; [| discriminate].
  destruct (Handle k2 _ m1) as [m2 | r2] eqn:H2; [| discriminate].
  injection Hfirst as <- _.
  unfold Handle in H1, H2.
  destruct (m !! k1); [discriminate |]. injection H1 as <-.
  destruct (_ !! k2); [discriminate |]. injection H2 as <-.
  assert (Hroute : <[k2 := FunctionSchemaEntry name]>
                     (<[k1 := FunctionEntry (HTTPHandler h1)]> m) !! k1
                   = Some (FunctionEntry (HTTPHandler h1))).
  { rewrite lookup_insert_ne by (intros Heq; symmetry in Heq;
      now apply invocation_path_ne_schema_path in Heq).
    apply lookup_insert_eq. }
  unfold AddFunction. rewrite Hok. cbn [mux setFunctions setMux functions httpServer].
  fold k1. unfold Handle at 1. rewrite Hroute.
  eexists _, _. split; [reflexivity |].
  cbn [functions mux]. split; [apply lookup_insert_eq |].
  cbn [mbind option_bind]. exact Hroute.
Qed.

Lemma AddFunction_twice_panics_witness :
  exists reason l2,
    AddFunction "hello" Example.echoHandler
      (AddFunction "hello" Example.helloHandler NewPlugin).1.2
    = (Panics reason, l2, [])
    /\ functions l2 !! "hello" = Some (HandlerSchema Example.echoHandler)
    /\ mux l2 ≫= (fun m => m !! (basePath +:+ "hello"))
       = Some (FunctionEntry (HTTPHandler Example.helloHandler)).
Proof.
  eapply (AddFunction_twice_panics "hello" Example.helloHandler Example.echoHandler
            NewPlugin _ []).
  - exact hello_is_safe.
  - reflexivity.
Defined.

(** C1, as the specification words it, fails for the function [hello]
    registered twice on a new plugin. *)
Lemma duplicate_registration_is_not_last_write_wins :
  ~ lastWriteWins "hello" Example.helloHandler Example.echoHandler NewPlugin.
Proof.
  unfold lastWriteWins.
  assert (Hpanics : (AddFunction "hello" Example.echoHandler
                       (AddFunction "hello" Example.helloHandler NewPlugin).1.2).1.1
                    = Panics "http: multiple registrations for /hello")
    by (vm_compute; reflexivity).
  destruct (AddFunction "hello" Example.helloHandler NewPlugin) as [[o1 l1] e1].
  cbn [fst snd] in Hpanics.
  destruct (AddFunction "hello" Example.echoHandler l1) as [[o2 l2] e2].
  cbn [fst] in Hpanics. subst o2. intros [Hret _]. discriminate Hret.
Qed.

(** ** Host and port strings (net, strconv) *)

Lemma append_nil (s : string) : "" +:+ s = s.
Proof. reflexivity. Qed.

Lemma append_cons (a : ascii) (s1 s2 : string) :
  String a s1 +:+ s2 = String a (s1 +:+ s2).
Proof. reflexivity. Qed.

Lemma append_assoc (s1 s2 s3 : string) : (s1 +:+ s2) +:+ s3 = s1 +:+ s2 +:+ s3.
Proof.
  induction s1 as [|a s1 IH]; [reflexivity |].
  rewrite !append_cons. now rewrite IH.
Qed.

Lemma IndexByte_append (s1 s2 : string) (c : ascii) :
  net.IndexByte (s1 +:+ s2) c
  = match net.IndexByte s1 c with
    | Some i => Some i
    | None => (fun i => (String.length s1 + i)%nat) <$> net.IndexByte s2 c
    end.
Proof.
  induction s1 as [|a s1 IH]; rewrite ?append_nil, ?append_cons; simpl.
  - destruct (net.IndexByte s2 c); reflexivity.
  - destruct (Ascii.eqb a c); [reflexivity |].
    rewrite IH. destruct (net.IndexByte s1 c); [reflexivity |].
    destruct (net.IndexByte s2 c); reflexivity.
Qed.

Lemma LastIndexByte_none (s : string) (c : ascii) :
  net.IndexByte s c = None -> net.LastIndexByte s c = None.
Proof.
  induction s as [|a s IH]; simpl; [reflexivity |].
  destruct (Ascii.eqb a c); [discriminate |].
  destruct (net.IndexByte s c); [discriminate |].
  intros _. now rewrite IH.
Qed.

Lemma LastIndexByte_append (s1 s2 : string) (c : ascii) (i : nat) :
  net.LastIndexByte s2 c = Some i ->
  net.LastIndexByte (s1 +:+ s2) c = Some (String.length s1 + i)%nat.
Proof.
  intros H. induction s1 as [|a s1 IH]; rewrite ?append_nil, ?append_cons; simpl; [exact H |].
  now rewrite IH.
Qed.

Lemma substring_all (s : string) : String.substring 0 (String.length s) s = s.
Proof. induction s as [|a s IH]; simpl; [reflexivity | now rewrite IH]. Qed.

Lemma substring_prefix (s1 s2 : string) :
  String.substring 0 (String.length s1) (s1 +:+ s2) = s1.
Proof.
  induction s1 as [|a s1 IH]; rewrite ?append_nil, ?append_cons; simpl.
  - destruct s2; reflexivity.
  - now rewrite IH.
Qed.

Lemma substring_suffix (s1 s2 : string) :
  String.substring (String.length s1) (String.length s2) (s1 +:+ s2) = s2.
Proof.
  induction s1 as [|a s1 IH]; rewrite ?append_nil, ?append_cons; simpl;
    [apply substring_all | exact IH].
Qed.

(** Splitting what [JoinHostPort] joined gives the parts back, when
    neither holds a colon or a bracket. *)
Lemma SplitHostPort_join (host port : string) :
  (forall c, c = ":"%char \/ c = "["%char \/ c = "]"%char ->
             net.IndexByte host c = None /\ net.IndexByte port c = None) ->
  net.SplitHostPort (net.JoinHostPort host port) = (host, port, None).
Proof.
  intros Hfree.
  destruct (Hfree ":"%char ltac:(auto)) as [Hh1 Hp1].
  destruct (Hfree "["%char ltac:(auto)) as [Hh2 Hp2].
  destruct (Hfree "]"%char ltac:(auto)) as [Hh3 Hp3].
  unfold net.SplitHostPort, net.JoinHostPort. rewrite Hh1. cbn [net.found].
  assert (Hlast : net.LastIndexByte (host +:+ ":" +:+ port) ":" = Some (String.length host)).
  { rewrite (LastIndexByte_append host (":" +:+ port) ":" 0).
    - f_equal. lia.
    - rewrite append_cons, append_nil. simpl.
      now rewrite (LastIndexByte_none port ":" Hp1). }
  rewrite Hlast.
  assert (Hnob : net.byteIs "[" (host +:+ ":" +:+ port) 0 = false).
  { unfold net.byteIs. destruct host as [|a host]; [reflexivity |].
    rewrite append_cons. simpl in Hh2 |- *.
    destruct (Ascii.eqb a "["%char); [discriminate | reflexivity]. }
  rewrite Hnob.
  unfold net.upto. rewrite substring_prefix, Hh1.
  unfold net.found, net.from. rewrite !Nat.sub_0_r, substring_all.
  rewrite !IndexByte_append, Hh2, Hh3. simpl.
  rewrite Hp2, Hp3. simpl.
  do 2 f_equal.
  rewrite <- (append_assoc host ":" port).
  replace (S (String.length host)) with (String.length (host +:+ ":"))
    by (rewrite length_append; simpl; lia).
  replace (String.length ((host +:+ ":") +:+ port) - String.length (host +:+ ":"))%nat
    with (String.length port) by (rewrite (length_append (host +:+ ":") port); lia).
  apply substring_suffix.
Qed.

Lemma digit_not_separator (n : Z) (c : ascii) :
  separator c ->
  Ascii.eqb (ascii_of_N (Z.to_N (rune "0" + n mod 10))) c = false.
Proof.
  intros Hc. pose proof (Z.mod_pos_bound n 10 ltac:(lia)) as Hd.
  remember (n mod 10) as d eqn:Ed. clear Ed.
  assert (Hcases : d = 0 \/ d = 1 \/ d = 2 \/ d = 3 \/ d = 4 \/ d = 5 \/ d = 6
                   \/ d = 7 \/ d = 8 \/ d = 9) by lia.
  destruct Hc as [-> | [-> | ->]];
    repeat (destruct Hcases as [-> | Hcases]; [reflexivity |]); subst d; reflexivity.
Qed.

Lemma digitsOf_free (c : ascii) (fuel : nat) :
  separator c ->
  forall n acc, net.IndexByte acc c = None ->
  net.IndexByte (strconv.digitsOf fuel n acc) c = None.
Proof.
  intros Hc. induction fuel as [|fuel IH]; intros n acc Hacc; simpl.
  - rewrite digit_not_separator by assumption. now rewrite Hacc.
  - destruct (n / 10 =? 0).
    + simpl. rewrite digit_not_separator by assumption. now rewrite Hacc.
    + apply IH. simpl. rewrite digit_not_separator by assumption. now rewrite Hacc.
Qed.

Lemma Itoa_free (c : ascii) (n : Z) :
  separator c -> net.IndexByte (strconv.Itoa n) c = None.
Proof.
  intros Hc. unfold strconv.Itoa. destruct (n <? 0).
  - simpl. rewrite digitsOf_free by (assumption || reflexivity).
    destruct Hc as [-> | [-> | ->]]; reflexivity.
  - apply digitsOf_free; [assumption | reflexivity].
Qed.

Lemma SplitHostPort_loopback (p : Z) :
  net.SplitHostPort (net.JoinHostPort loopback (strconv.Itoa p))
  = (loopback, strconv.Itoa p, None).
Proof.
  apply SplitHostPort_join. intros c Hc. split.
  - destruct Hc as [-> | [-> | ->]]; reflexivity.
  - now apply Itoa_free.
Qed.

(** ** Start (plugin.go) *)

Lemma Start_cases (env : PluginEnv) (l : Plugin) :
  match listen env with
  | inr err =>
    Start env l
    = (Returns (Some err), l,
       [EvListen "tcp" "127.0.0.1:0"; EvLog "failed to bind to port"])
  | inl p =>
    match httpServer l with
    | Some srv =>
      let l' := setServer (Some {| Addr := net.JoinHostPort loopback (strconv.Itoa p);
                                   ReadTimeout := ReadTimeout srv |}) l in
      Start env l
      = (Returns (serveResult env), l',
         announcement p ++ Serve env l'
         ++ match serveResult env with
            | Some _ => [EvLog "failed to serve HTTP"]
            | None => []
            end)
    | None => Start env l = (Panics nilDereference, l, announcement p)
    end
  end.
Proof.
  unfold Start. destruct (listen env) as [p | err]; [| reflexivity].
  rewrite SplitHostPort_loopback.
  destruct (httpServer l) as [srv|]; [| reflexivity].
  destruct (serveResult env); cbv zeta; [reflexivity |].
  now rewrite app_nil_r.
Qed.

(** [Start], case by case.  [Start] binds the loopback address with port
    0.  When the bind fails it returns that error and nothing goes to
    standard output.  Otherwise the decimal port and a newline are
    written and flushed before anything else; then a plugin that has its
    server serves every request and returns what [Serve] returns, while
    a plugin without one panics. *)
Lemma Start_announces_then_serves (env : PluginEnv) (l : Plugin) :
  match listen env with
  | inr err =>
    exists evs, Start env l = (Returns (Some err), l, evs)
                /\ Forall (fun ev => ~ isStdout ev) evs
  | inl p =>
    match httpServer l with
    | Some srv =>
      exists l' tail,
        Start env l
        = (Returns (serveResult env), l', announcement p ++ Serve env l' ++ tail)
        /\ Forall (fun ev => ~ isServed ev) (announcement p)
        /\ Forall (fun ev => ~ isServed ev) tail
    | None => Start env l = (Panics nilDereference, l, announcement p)
    end
  end.
Proof.
  pose proof (Start_cases env l) as H.
  destruct (listen env) as [p | err].
  - destruct (httpServer l) as [srv|]; [| exact H].
    eexists _, _. split; [exact H |].
    split; [repeat constructor; intros [] |].
    destruct (serveResult env); repeat constructor; intros [].
  - eexists. split; [exact H |]. repeat constructor; intros [].
Qed.

(** C9, at its failing input.  [Stop] sets the server of the plugin to
    nil.  [Start] on that plugin binds the port, writes the port line
    and flushes it, and then panics on the nil server where it sets the
    address: nothing is served and no error is returned, against the
    contract of [Start]. *)
Theorem Start_after_Stop_panics (env : PluginEnv) (l : Plugin) (p : Z) :
  listen env = inl p ->
  Start env (Stop l).1 = (Panics nilDereference, (Stop l).1, announcement p)
  /\ ~ startContract env (Stop l).1.
Proof.
  intros Hlisten. pose proof (Start_cases env (Stop l).1) as H.
  rewrite Hlisten in H. change (httpServer (Stop l).1) with (@None Server) in H.
  cbv iota in H. split; [exact H |].
  unfold startContract. rewrite Hlisten, H. intros (l' & evs & Heq). discriminate Heq.
Qed.

Lemma Start_after_Stop_panics_witness :
  Start Example.quietEnv (Stop NewPlugin).1
  = (Panics nilDereference, (Stop NewPlugin).1, announcement 40123)
  /\ ~ startContract Example.quietEnv (Stop NewPlugin).1.
Proof.
  apply (Start_after_Stop_panics Example.quietEnv NewPlugin 40123). reflexivity.
Defined.

(** ** The function handler (handler.go) *)

Section HandlerContract.

Context {T R E : Type} {JT : JSONType T} {JR : JSONType R} {GE : GoError E}.
Variable fn : nat -> T -> option R * option E.
Variable validator : option Validator.

Lemma not_invoked_nil : ~ invoked [].
Proof. intros [ctx []]. Qed.

Lemma not_invoked_app (evs1 evs2 : list Event) :
  ~ invoked evs1 -> ~ invoked evs2 -> ~ invoked (evs1 ++ evs2).
Proof.
  intros H1 H2 [ctx Hin]. apply in_app_or in Hin as [Hin | Hin].
  - apply H1. now exists ctx.
  - apply H2. now exists ctx.
Qed.

Lemma decodeInput_not_invoked (r : http.Request) :
  ~ invoked (decodeInput (T := T) r validator).2.
Proof.
  unfold decodeInput. destruct (http.Body r) as [data | err]; [| apply not_invoked_nil].
  destruct validator as [v|].
  - destruct (negb (Valid (Validate v data))); cbn [snd].
    + intros [ctx [Hin | []]]. discriminate.
    + destruct (Decode true data); cbn [snd];
        intros [ctx Hin]; cbn in Hin; destruct Hin as [Hin | [Hin | []]]; discriminate.
  - destruct (Decode true data); cbn [snd];
      intros [ctx Hin]; cbn in Hin; destruct Hin as [Hin | []]; discriminate.
Qed.

(** What a request that is not a POST gets. *)
Lemma handler_wrong_method (r : http.Request) :
  http.Method r <> http.MethodPost ->
  http.StatusCode (answer (httpHandler fn validator) r).1 = http.StatusMethodNotAllowed
  /\ ~ invoked (answer (httpHandler fn validator) r).2.
Proof.
  intros Hm. unfold answer, httpHandler.
  destruct (String.eqb_spec (http.Method r) http.MethodPost) as [Heq | _]; [contradiction |].
  cbn. split; [reflexivity |]. intros [ctx [Hin | []]]. discriminate.
Qed.

(** What a POST whose input cannot be read, validated or decoded gets. *)
Lemma handler_bad_input (r : http.Request) (err : string) :
  http.Method r = http.MethodPost ->
  (decodeInput (T := T) r validator).1 = inr err ->
  http.StatusCode (answer (httpHandler fn validator) r).1 = http.StatusBadRequest
  /\ http.RespBody (answer (httpHandler fn validator) r).1 = err
  /\ ~ invoked (answer (httpHandler fn validator) r).2.
Proof.
  intros Hm Hd. unfold answer, httpHandler. rewrite Hm. cbn [String.eqb negb].
  replace (String.eqb http.MethodPost http.MethodPost) with true by reflexivity.
  cbn [negb]. pose proof (decodeInput_not_invoked r) as Hni.
  destruct (decodeInput r validator) as [[req | e] evs]; cbn [fst snd] in *; [discriminate |].
  injection Hd as ->. cbn. split; [reflexivity |]. split; [reflexivity |].
  apply not_invoked_app; [exact Hni |]. intros [ctx [Hin | []]]. discriminate.
Qed.

Lemma decodeInput_invalid (r : http.Request) (v : Validator) (data : string) :
  validator = Some v -> http.Body r = inl data ->
  Valid (Validate v data) = false ->
  decodeInput (T := T) r validator
  = (inr (aggregated (Errors (Validate v data))), [EvValidate data]).
Proof.
  intros Hv Hb Hbad. unfold decodeInput. rewrite Hb, Hv, Hbad. reflexivity.
Qed.

Lemma decodeInput_checked (r : http.Request) (data : string) :
  http.Body r = inl data -> passesValidation validator data ->
  decodeInput (T := T) r validator
  = (Decode (A := T) true data, validationEvents validator data ++ [EvDecode data]).
Proof.
  intros Hb Hp. unfold decodeInput, passesValidation, validationEvents in *. rewrite Hb.
  destruct validator as [v|].
  - rewrite Hp. cbn [negb]. destruct (Decode true data); reflexivity.
  - destruct (Decode true data); reflexivity.
Qed.

(** A POST whose input passes the validation, evaluated. *)
Lemma handler_checked (r : http.Request) (data : string) :
  http.Method r = http.MethodPost ->
  http.Body r = inl data -> passesValidation validator data ->
  answer (httpHandler fn validator) r
  = match Decode (A := T) true data with
    | inr e =>
      ({| http.StatusCode := http.StatusBadRequest; http.Header := [];
          http.RespBody := e |},
       (validationEvents validator data ++ [EvDecode data])
       ++ [EvStderr ("error reading request body: " +:+ e +:+ LF)])
    | inl req =>
      match fn (http.Context r) req with
      | (_, Some e) =>
        ({| http.StatusCode := http.StatusInternalServerError; http.Header := [];
            http.RespBody := Error e |},
         (validationEvents validator data ++ [EvDecode data])
         ++ [EvInvoke (http.Context r);
             EvStderr ("error executing function: " +:+ Error e +:+ LF)])
      | (out, None) =>
        match Marshal (A := R) out with
        | inl text =>
          ({| http.StatusCode := http.StatusOK; http.Header := jsonHeader;
              http.RespBody := text +:+ LF |},
           (validationEvents validator data ++ [EvDecode data]) ++ [EvInvoke (http.Context r); EvEncode])
        | inr e =>
          ({| http.StatusCode := http.StatusOK; http.Header := jsonHeader;
              http.RespBody := "" |},
           (validationEvents validator data ++ [EvDecode data])
           ++ [EvInvoke (http.Context r); EvEncode;
               EvStderr ("error encoding response: " +:+ e +:+ LF)])
        end
      end
    end.
Proof.
  intros Hm Hb Hp. unfold answer, httpHandler. rewrite Hm.
  replace (String.eqb http.MethodPost http.MethodPost) with true by reflexivity.
  cbn [negb]. rewrite (decodeInput_checked r data Hb Hp).
  destruct (Decode true data) as [req | e]; [| reflexivity].
  destruct (fn (http.Context r) req) as [out [e|]]; [reflexivity |].
  unfold encodeOutput. destruct (Marshal out) as [text | e]; reflexivity.
Qed.

(** C4. The contract of a function endpoint, for every request answered
    on a new response writer.  A method other than POST gets 405 and the
    function is not called.  With a validator, the raw body is validated
    before it is decoded, and a failed validation gets 400 with every
    field error in the body, without decoding and without calling the
    function.  A body that passes is decoded strictly: a payload with an
    unknown field, like every payload the decoder refuses, gets 400 and
    the function is not called.  A decoded input is passed to the
    function once; its error gets 500 with the error text as the body;
    its result gets 200 with the JSON encoding of the output. *)
Theorem FunctionHandler_contract (r : http.Request) :
  (http.Method r <> http.MethodPost ->
   http.StatusCode (answer (httpHandler fn validator) r).1 = http.StatusMethodNotAllowed
   /\ ~ invoked (answer (httpHandler fn validator) r).2)
  /\ (http.Method r = http.MethodPost ->
      forall data, http.Body r = inl data ->
      (forall v, validator = Some v -> Valid (Validate v data) = false ->
         http.StatusCode (answer (httpHandler fn validator) r).1 = http.StatusBadRequest
         /\ http.RespBody (answer (httpHandler fn validator) r).1 = aggregated (Errors (Validate v data))
         /\ (answer (httpHandler fn validator) r).2
            = [EvValidate data;
               EvStderr ("error reading request body: "
                         +:+ aggregated (Errors (Validate v data)) +:+ LF)])
      /\ (passesValidation validator data ->
          (exists rest, (answer (httpHandler fn validator) r).2 = validationEvents validator data ++ EvDecode data :: rest)
          /\ (unknownField (A := T) data = true ->
              http.StatusCode (answer (httpHandler fn validator) r).1 = http.StatusBadRequest
              /\ ~ invoked (answer (httpHandler fn validator) r).2)
          /\ (forall e, Decode (A := T) true data = inr e ->
              http.StatusCode (answer (httpHandler fn validator) r).1 = http.StatusBadRequest
              /\ http.RespBody (answer (httpHandler fn validator) r).1 = e
              /\ ~ invoked (answer (httpHandler fn validator) r).2)
          /\ (forall req, Decode (A := T) true data = inl req ->
              (exists before after,
                 (answer (httpHandler fn validator) r).2 = before ++ EvInvoke (http.Context r) :: after
                 /\ ~ invoked before /\ ~ invoked after)
              /\ (forall out e, fn (http.Context r) req = (out, Some e) ->
                  http.StatusCode (answer (httpHandler fn validator) r).1 = http.StatusInternalServerError
                  /\ http.RespBody (answer (httpHandler fn validator) r).1 = Error e)
              /\ (forall out, fn (http.Context r) req = (out, None) ->
                  http.StatusCode (answer (httpHandler fn validator) r).1 = http.StatusOK
                  /\ forall text, Marshal (A := R) out = inl text ->
                     http.RespBody (answer (httpHandler fn validator) r).1 = text +:+ LF
                     /\ http.Header (answer (httpHandler fn validator) r).1 = jsonHeader)))).
Proof.
  split; [apply handler_wrong_method |].
  intros Hm data Hb. split.
  - intros v Hv Hbad.
    pose proof (decodeInput_invalid r v data Hv Hb Hbad) as Hd.
    unfold answer, httpHandler. rewrite Hm.
    replace (String.eqb http.MethodPost http.MethodPost) with true by reflexivity.
    cbn [negb]. rewrite Hd. cbn. repeat split.
  - intros Hp. pose proof (handler_checked r data Hm Hb Hp) as Hans.
    assert (Hno : forall evs, ~ invoked evs -> ~ invoked ((validationEvents validator data ++ [EvDecode data]) ++ evs)).
    { intros evs Hevs. apply not_invoked_app; [| exact Hevs].
      unfold validationEvents. destruct validator; intros [ctx Hin]; cbn in Hin;
        repeat (destruct Hin as [Hin | Hin]; [discriminate |]); exact Hin. }
    assert (Hbad : forall e, Decode (A := T) true data = inr e ->
              http.StatusCode (answer (httpHandler fn validator) r).1 = http.StatusBadRequest
              /\ http.RespBody (answer (httpHandler fn validator) r).1 = e
              /\ ~ invoked (answer (httpHandler fn validator) r).2).
    { intros e He. rewrite Hans, He. cbn [fst snd http.StatusCode http.RespBody].
      repeat split. apply Hno. intros [ctx [Hin | []]]. discriminate. }
    split; [| split; [| split; [exact Hbad |]]].
    + rewrite Hans. destruct (Decode true data) as [req | e].
      * destruct (fn (http.Context r) req) as [out [e|]]; [| destruct (Marshal out)];
          cbn [snd]; rewrite <- app_assoc; eexists; reflexivity.
      * cbn [snd]. rewrite <- app_assoc. eexists; reflexivity.
    + intros Hu. destruct (strict_rejects data Hu) as [e He].
      destruct (Hbad e He) as (Hst & _ & Hni). now split.
    + intros req Hreq. rewrite Hans, Hreq.
      assert (Hc : ~ invoked (validationEvents validator data ++ [EvDecode data])).
      { rewrite <- (app_nil_r (validationEvents validator data ++ [EvDecode data])).
        apply Hno, not_invoked_nil. }
      split; [| split].
      * exists (validationEvents validator data ++ [EvDecode data]).
        destruct (fn (http.Context r) req) as [out [e|]]; [| destruct (Marshal out)];
          cbn [snd]; eexists; (split; [reflexivity |]); (split; [exact Hc |]);
          intros [ctx Hin]; cbn in Hin;
          repeat (destruct Hin as [Hin | Hin]; [discriminate |]); exact Hin.
      * intros out e Hfn. rewrite Hfn. split; reflexivity.
      * intros out Hfn. rewrite Hfn.
        split; [destruct (Marshal out); reflexivity |].
        intros text Hmar. rewrite Hmar. split; reflexivity.
Qed.

End HandlerContract.

Lemma FunctionHandler_contract_witness :
  http.StatusCode
    (answer (httpHandler Example.Hello (Some Example.minLength3))
            (Example.post Example.withExtra)).1 = http.StatusBadRequest
  /\ ~ invoked
       (answer (httpHandler Example.Hello (Some Example.minLength3))
               (Example.post Example.withExtra)).2.
Proof.
  pose proof (FunctionHandler_contract (T := Example.In) (R := Example.Out)
                Example.Hello (Some Example.minLength3)
                (Example.post Example.withExtra)) as [_ Hpost].
  destruct (Hpost eq_refl Example.withExtra eq_refl) as [_ Hchecked].
  destruct (Hchecked eq_refl) as (_ & Hunknown & _).
  exact (Hunknown eq_refl).
Defined.

(** ** The client (pluggo.go): closing *)

Lemma New_standard_idle (path : string) (opts : list Client.ClientOption) :
  Forall standardOption opts -> idle (Client.New path opts).
Proof.
  unfold Client.New. set (c0 := {| Client.path := path |}).
  assert (H0 : idle c0) by (repeat split).
  clearbody c0. revert c0 H0.
  induction opts as [|opt opts IH]; intros c0 H0 Hopts; [exact H0 |].
  inversion Hopts as [|? ? Hopt Hrest]; subst. cbn [fold_left].
  apply IH; [| exact Hrest].
  destruct H0 as (H1 & H2 & H3 & H4 & H5).
  destruct Hopt as [[t ->] | [[t ->] | [[t ->] | [t ->]]]]; repeat split; assumption.
Qed.

Lemma Close_idle (env : ClientEnv) (c : Client.Client) (w : World) :
  idle c -> Client.Close env c w = (Returns None, c, w).
Proof.
  intros (H1 & H2 & H3 & H4 & H5). destruct c. cbn in *. subst.
  reflexivity.
Qed.

Lemma Close_returns (env : ClientEnv) (c c' : Client.Client) (w w' : World)
    (r : option error) :
  Client.Close env c w = (Returns r, c', w') ->
  idle c' /\ r = killResult env c.
Proof.
  unfold Client.Close, killResult. intros H.
  destruct (Client.commandContext c) as [[p [pid|]]|];
    destruct (Client.heartbeatChan _) as [ch|] eqn:Hch;
    try destruct (chans _ !! ch) as [[|]|];
    try discriminate; injection H as <- <- <-; repeat split; exact Hch.
Qed.

Lemma Close_channelOpen (env : ClientEnv) (c : Client.Client) (w : World) :
  channelOpen c w ->
  exists r c' w', Client.Close env c w = (Returns r, c', w').
Proof.
  intros Hopen. unfold Client.Close, channelOpen in *.
  set (w1 := match Client.cancel c with Some k => emit (EvCancel k) w | None => w end).
  assert (Hw1 : chans w1 = chans w) by (subst w1; destruct (Client.cancel c); reflexivity).
  destruct (Client.commandContext c) as [[p [pid|]]|];
    cbn [Client.heartbeatChan Client.setCancel Client.setCommandContext Client.setRun];
    (destruct (Client.heartbeatChan c) as [ch|];
     [ cbn [chans emit]; rewrite Hw1, (Hopen ch eq_refl) | ]);
    eexists _, _, _; reflexivity.
Qed.

(** C7. [Close] is idempotent.  On a client that was never opened it
    returns nil and changes nothing.  Whenever the notification channel
    of the client is open, [Close] returns rather than panics.  Every
    [Close] that returns leaves the client without connection, process
    handle, transport client, context and channel; its result is what
    killing the process answered when the client held one, and nil
    otherwise; and a second [Close] returns nil and changes nothing more,
    so that the channel is closed at most once. *)
Theorem Close_is_idempotent (env env' : ClientEnv) (c : Client.Client) (w : World) :
  (forall path opts, Forall standardOption opts ->
     Client.Close env (Client.New path opts) w
     = (Returns None, Client.New path opts, w))
  /\ (channelOpen c w ->
      exists r c' w', Client.Close env c w = (Returns r, c', w'))
  /\ (forall r c' w', Client.Close env c w = (Returns r, c', w') ->
        idle c'
        /\ r = killResult env c
        /\ (Client.commandContext c = None -> r = None)
        /\ Client.Close env' c' w' = (Returns None, c', w')).
Proof.
  split; [| split].
  - intros path opts Hopts. apply Close_idle. now apply New_standard_idle.
  - apply Close_channelOpen.
  - intros r c' w' Hclose. destruct (Close_returns env c c' w w' r Hclose) as [Hidle Hr].
    split; [exact Hidle |]. split; [exact Hr |]. split.
    + intros Hnone. rewrite Hr. unfold killResult. now rewrite Hnone.
    + now apply Close_idle.
Qed.

(** C10. On a client without connection, [Schemas] returns the plain
    error "plugin is not connected" and leaves the world as it is: no
    request is issued, nothing panics, and the error is none of the
    error structs of the package. *)
Theorem Schemas_not_connected (env : ClientEnv) (c : Client.Client) (w : World) :
  Client.connection c = None ->
  Client.Schemas env c w
  = (Returns (None, Some (errorString "plugin is not connected")), w)
  /\ ~ isPluginExecutionError (Some (errorString "plugin is not connected"))
  /\ ~ isPluginNotFoundError (Some (errorString "plugin is not connected")).
Proof.
  intros Hc. unfold Client.Schemas. rewrite Hc. repeat split; intros [].
Qed.

Lemma Schemas_not_connected_witness :
  Client.Schemas Example.healthyEnv (Client.New "./plugin" []) Example.world0
  = (Returns (None, Some (errorString "plugin is not connected")), Example.world0)
  /\ ~ isPluginExecutionError (Some (errorString "plugin is not connected"))
  /\ ~ isPluginNotFoundError (Some (errorString "plugin is not connected")).
Proof.
  apply (Schemas_not_connected Example.healthyEnv (Client.New "./plugin" []) Example.world0).
  reflexivity.
Defined.

(** ** The client (pluggo.go): opening *)

Lemma liveAfter_app (live : list nat) (evs1 evs2 : list Event) :
  liveAfter live (evs1 ++ evs2) = liveAfter (liveAfter live evs1) evs2.
Proof.
  revert live. induction evs1 as [|ev evs1 IH]; intros live; [reflexivity |].
  destruct ev; cbn [liveAfter app]; apply IH.
Qed.

Lemma liveAfter_probes (live : list nat) (evs : list Event) :
  Forall isProbe evs -> liveAfter live evs = live.
Proof.
  induction 1 as [|ev evs Hev _ IH]; [reflexivity |].
  destruct ev; try contradiction; exact IH.
Qed.

(** Health polling only issues requests and sleeps. *)
Lemma waitLoop_frame (env : ClientEnv) (c : Client.Client) (deadline : Z) (fuel : nat) :
  forall w o w',
  Client.waitLoop env c deadline fuel w = Some (o, w') ->
  nextId w' = nextId w /\ chans w' = chans w
  /\ exists evs, trace w' = trace w ++ evs /\ Forall isProbe evs.
Proof.
  induction fuel as [|fuel IH]; intros w o w' H; [discriminate |].
  cbn [Client.waitLoop] in H.
  destruct (deadline <? now w).
  { injection H as <- <-. repeat split. exists []. now rewrite app_nil_r. }
  destruct (Client.connection c) as [conn|];
    [| injection H as <- <-; repeat split; exists []; now rewrite app_nil_r].
  destruct (Client.httpClient c) as [hc|];
    [| injection H as <- <-; repeat split; exists []; now rewrite app_nil_r].
  set (url := BaseURL conn +:+ healthPath) in *.
  assert (Hone : Forall isProbe [EvGet url]) by (repeat constructor).
  assert (Htwo : forall d, Forall isProbe [EvGet url; EvSleep d]) by (repeat constructor).
  destruct (http.Do hc _) as [[r took] | msg |].
  - assert (Hretry : forall late,
      Client.waitLoop env c deadline fuel
        (Sleep (Client.healthCheckInterval c) late
           (elapse took (countGet (emit (EvGet url) w)))) = Some (o, w') ->
      nextId w' = nextId w /\ chans w' = chans w
      /\ exists evs, trace w' = trace w ++ evs /\ Forall isProbe evs).
    { intros late Hrec. apply IH in Hrec as (Hn & Hc & evs & Ht & Hp).
      cbn in Hn, Hc, Ht. repeat split; [exact Hn | exact Hc |].
      exists ([EvGet url; EvSleep (Client.healthCheckInterval c)] ++ evs).
      split; [rewrite Ht, <- !app_assoc; reflexivity |].
      apply Forall_app. split; [apply Htwo | exact Hp]. }
    destruct r as [msg | st body]; [exact (Hretry _ H) |].
    destruct (st =? http.StatusOK); [| exact (Hretry _ H)].
    injection H as <- <-. cbn. repeat split. now exists [EvGet url].
  - injection H as <- <-. cbn. repeat split. now exists [EvGet url].
  - injection H as <- <-. cbn. repeat split. now exists [EvGet url].
Qed.

Lemma waitForHealth_frame (env : ClientEnv) (c : Client.Client) (w w' : World)
    (o : Outcome (option error)) :
  Client.waitForHealth env c w = (o, w') ->
  nextId w' = nextId w /\ chans w' = chans w
  /\ exists evs, trace w' = trace w ++ evs /\ Forall isProbe evs.
Proof.
  unfold Client.waitForHealth. intros H.
  destruct (Client.waitLoop _ _ _ _ _) as [[o1 w1]|] eqn:Hloop.
  - injection H as <- <-. eapply waitLoop_frame. exact Hloop.
  - injection H as <- <-. repeat split. exists []. now rewrite app_nil_r.
Qed.

Lemma cleared_is_idle (c : Client.Client) :
  idle c -> Client.setRun None None None None None c = c.
Proof.
  intros (H1 & H2 & H3 & H4 & H5). destruct c. cbn in *. now subst.
Qed.

(** [Open] on an idle client goes through the stages of [openIdle]. *)
Lemma Open_idle (env : ClientEnv) (ctx : nat) (c : Client.Client) (w : World) :
  idle c -> Client.Open env ctx c w = openIdle env c w.
Proof.
  intros (H1 & H2 & H3 & H4 & H5). destruct c. cbn in H1, H2, H3, H4, H5. subst.
  unfold Client.Open, openIdle. cbn [Client.commandContext Client.path].
  destruct (stat env path) as [fi | err]; [| reflexivity].
  destruct (IsDir fi); [reflexivity |].
  destruct (Z.land (Mode fi) Client.executeBits =? 0); [reflexivity |].
  cbn [fresh Client.path Client.setCancel Client.setRun].
  destruct (start env path) as [err |]; [reflexivity |].
  destruct (readLine env) as [[line | err] |]; [| reflexivity | reflexivity].
  destruct (strconv.Atoi (gostrings.TrimSpace line)) as [n [nerr |]]; [reflexivity |].
  unfold connected, running, spawned.
  cbn [fresh Client.path Client.setCancel Client.setRun Client.setHTTPClient
       Client.setConnection Client.setCommandContext Client.functionExecutionTimeout
       Client.heartbeatChan Client.httpClient Client.connection Client.commandContext
       Client.cancel Client.healthCheckTimeout Client.healthCheckInterval
       Client.heartbeatInterval nextId snd].
  destruct (Client.waitForHealth _ _ _) as [[[err |] | msg |] w'];
    [reflexivity | | reflexivity | reflexivity].
  unfold supervised. cbn. destruct (0 <? heartbeatInterval); reflexivity.
Qed.

Lemma live_emit (ev : Event) (w : World) :
  liveProcesses (emit ev w) = liveAfter (liveProcesses w) [ev].
Proof. unfold liveProcesses. cbn [trace emit]. apply liveAfter_app. Qed.

Lemma live_same_trace (w w' : World) :
  trace w' = trace w -> liveProcesses w' = liveProcesses w.
Proof. unfold liveProcesses. now intros ->. Qed.

Lemma live_extended (w w' : World) (evs : list Event) :
  trace w' = trace w ++ evs -> Forall isProbe evs ->
  liveProcesses w' = liveProcesses w.
Proof.
  intros Ht Hp. unfold liveProcesses. rewrite Ht, liveAfter_app.
  now apply liveAfter_probes.
Qed.

Lemma live_spawned (c : Client.Client) (w : World) :
  liveProcesses w = [] -> liveProcesses (spawned c w) = [S (nextId w)].
Proof.
  intros Hw. unfold spawned. rewrite live_emit.
  change (liveProcesses (fresh (fresh w).2).2) with (liveProcesses w).
  now rewrite Hw.
Qed.

Lemma live_torn (k pid : nat) (w : World) :
  liveProcesses w = [pid] -> liveProcesses (torn k pid w) = [].
Proof.
  intros Hw. unfold torn. rewrite !live_emit, Hw. cbn. now rewrite Nat.eqb_refl.
Qed.

Lemma idle_consistent (c : Client.Client) (w : World) :
  idle c -> liveProcesses w = [] -> consistent c w.
Proof.
  intros Hidle Hw. pose proof Hidle as (H1 & H2 & H3 & H4 & H5).
  unfold consistent, held, channelOpen. rewrite H2, H1, H3, H5.
  repeat split; try assumption; try discriminate; try reflexivity.
Qed.

(** What [Open] leaves behind when it returns. *)
Lemma Open_returns (env : ClientEnv) (ctx : nat) (c c' : Client.Client)
    (w w' : World) (r : option error) :
  consistent c w ->
  Client.Open env ctx c w = (Returns r, c', w') ->
  consistent c' w'
  /\ match r with
     | Some err =>
       (Client.commandContext c <> None ->
        err = errorString "plugin is already running" /\ c' = c /\ w' = w)
       /\ (Client.commandContext c = None -> idle c' /\ liveProcesses w' = [])
     | None =>
       Client.commandContext c = None
       /\ exists conn hc pid,
            Client.connection c' = Some conn /\ Client.httpClient c' = Some hc
            /\ Client.commandContext c'
               = Some {| cmdPath := Client.path c; Process := Some pid |}
            /\ liveProcesses w' = [pid]
     end.
Proof.
  intros Hcons Hopen. pose proof Hcons as (Hlive & Hconn & Hidle & Hpid & Hchan).
  destruct (Client.commandContext c) as [cmd|] eqn:Hcmd.
  { unfold Client.Open in Hopen. rewrite Hcmd in Hopen. injection Hopen as <- <- <-.
    split; [exact Hcons |]. split; [now intros _ | discriminate]. }
  specialize (Hidle eq_refl).
  assert (Hw : liveProcesses w = []) by (rewrite Hlive; unfold held; now rewrite Hcmd).
  rewrite (Open_idle env ctx c w Hidle) in Hopen. unfold openIdle in Hopen.
  assert (Hfail : forall err w1, liveProcesses w1 = [] ->
            (Returns (Some err), c, w1) = (Returns r, c', w') ->
            consistent c' w'
            /\ match r with
               | Some err =>
                 (@None Cmd <> None ->
                  err = errorString "plugin is already running" /\ c' = c /\ w' = w)
                 /\ (@None Cmd = None -> idle c' /\ liveProcesses w' = [])
               | None => False
               end).
  { intros err w1 Hw1 Heq. injection Heq as <- <- <-.
    split; [now apply idle_consistent |]. split; [congruence | now intros _]. }
  assert (Hfail' : forall err w1, liveProcesses w1 = [] ->
            (Returns (Some err), c, w1) = (Returns r, c', w') ->
            consistent c' w'
            /\ match r with
               | Some err =>
                 (@None Cmd <> None ->
                  err = errorString "plugin is already running" /\ c' = c /\ w' = w)
                 /\ (@None Cmd = None -> idle c' /\ liveProcesses w' = [])
               | None =>
                 @None Cmd = None
                 /\ exists conn hc pid,
                      Client.connection c' = Some conn /\ Client.httpClient c' = Some hc
                      /\ Client.commandContext c'
                         = Some {| cmdPath := Client.path c; Process := Some pid |}
                      /\ liveProcesses w' = [pid]
               end).
  { intros err w1 Hw1 Heq. destruct (Hfail err w1 Hw1 Heq) as [Hc Hm].
    split; [exact Hc |]. destruct r; [exact Hm | contradiction]. }
  clear Hfail.
  destruct (stat env (Client.path c)) as [fi | err]; [| exact (Hfail' _ w Hw Hopen)].
  destruct (IsDir fi); [exact (Hfail' _ w Hw Hopen) |].
  destruct (Z.land (Mode fi) Client.executeBits =? 0); [exact (Hfail' _ w Hw Hopen) |].
  destruct (start env (Client.path c)) as [err |].
  { eapply Hfail'; [| exact Hopen].
    rewrite live_emit. change (liveProcesses (fresh w).2) with (liveProcesses w).
    now rewrite Hw. }
  pose proof (live_spawned c w Hw) as Hsp.
  destruct (readLine env) as [[line | err] |]; [| | discriminate].
  2: { apply (Hfail' _ _ (live_torn _ _ _ Hsp) Hopen). }
  destruct (strconv.Atoi (gostrings.TrimSpace line)) as [n [nerr |]].
  { apply (Hfail' _ _ (live_torn _ _ _ Hsp) Hopen). }
  set (port := gostrings.TrimSpace line) in *.
  destruct (Client.waitForHealth env (connected c w port) (spawned c w))
    as [[[err |] | msg |] w1] eqn:Hwait; [| | discriminate | discriminate].
  - apply waitForHealth_frame in Hwait as (_ & _ & evs & Ht & Hp).
    eapply Hfail'; [| exact Hopen].
    apply live_torn. rewrite (live_extended _ _ evs Ht Hp). exact Hsp.
  - apply waitForHealth_frame in Hwait as (Hn & Hch & evs & Ht & Hp).
    assert (Hw1 : liveProcesses w1 = [S (nextId w)])
      by (rewrite (live_extended _ _ evs Ht Hp); exact Hsp).
    destruct Hidle as (H1 & H2 & H3 & H4 & H5).
    unfold supervised in Hopen.
    destruct (0 <? Client.heartbeatInterval (connected c w port));
      injection Hopen as <- <- <-.
    + match goal with |- consistent ?cc ?ww /\ _ => set (wfin := ww); set (cfin := cc) end.
      assert (Hfin : liveProcesses wfin = [S (nextId w)]).
      { subst wfin. rewrite !live_emit.
        rewrite (live_same_trace w1) by reflexivity. now rewrite Hw1. }
      assert (Hcmdfin : Client.commandContext cfin
                = Some {| cmdPath := Client.path c; Process := Some (S (nextId w)) |})
        by reflexivity.
      split.
      * unfold consistent, held, channelOpen. rewrite Hfin, Hcmdfin.
        repeat split; try discriminate.
        -- intros cmd [= <-]. eauto.
        -- intros ch [= <-]. subst wfin. cbn [chans emit setChan fresh snd].
           apply lookup_insert_eq.
      * split; [reflexivity |]. eexists _, _, _.
        split; [reflexivity |]. split; [reflexivity |]. split; [exact Hcmdfin | exact Hfin].
    + match goal with |- consistent ?cc ?ww /\ _ => set (cfin := cc) end.
      assert (Hcmdfin : Client.commandContext cfin
                = Some {| cmdPath := Client.path c; Process := Some (S (nextId w)) |})
        by reflexivity.
      assert (Hchfin : Client.heartbeatChan cfin = None) by exact H5.
      split.
      * unfold consistent, held, channelOpen. rewrite Hw1, Hcmdfin, Hchfin.
        repeat split; try discriminate.
        intros cmd [= <-]. eauto.
      * split; [reflexivity |]. eexists _, _, _.
        split; [reflexivity |]. split; [reflexivity |]. split; [exact Hcmdfin | exact Hw1].
Qed.

Lemma Close_consistent (env : ClientEnv) (c c' : Client.Client) (w w' : World)
    (r : option error) :
  consistent c w ->
  Client.Close env c w = (Returns r, c', w') ->
  consistent c' w'.
Proof.
  intros (Hlive & _ & _ & _ & _) Hclose.
  destruct (Close_returns env c c' w w' r Hclose) as [Hidle _].
  apply idle_consistent; [exact Hidle |].
  unfold Client.Close in Hclose. unfold held in Hlive.
  set (w1 := match Client.cancel c with Some k => emit (EvCancel k) w | None => w end) in *.
  assert (Hw1 : liveProcesses w1 = liveProcesses w).
  { subst w1. destruct (Client.cancel c); [| reflexivity].
    rewrite live_emit. reflexivity. }
  assert (Hdone : forall w2, liveProcesses w2 = [] ->
            forall o, match Client.heartbeatChan
                              (Client.setCancel None (Client.setCommandContext None c)) with
                      | Some ch =>
                        match chans w2 !! ch with
                        | Some false =>
                          (Returns o,
                           Client.setHTTPClient None
                             (Client.setConnection None
                                (Client.setHeartbeatChan None
                                   (Client.setCancel None (Client.setCommandContext None c)))),
                           emit (EvCloseChan ch) (setChan ch true w2))
                        | _ => (Panics "close of closed channel",
                                Client.setCancel None (Client.setCommandContext None c), w2)
                        end
                      | None =>
                        (Returns o,
                         Client.setHTTPClient None
                           (Client.setConnection None
                              (Client.setCancel None (Client.setCommandContext None c))), w2)
                      end = (Returns r, c', w') ->
            liveProcesses w' = []).
  { intros w2 Hw2 o Heq.
    destruct (Client.heartbeatChan _) as [ch|].
    - destruct (chans w2 !! ch) as [[|]|]; try discriminate.
      injection Heq as _ _ <-. rewrite live_emit.
      rewrite (live_same_trace w2) by reflexivity. now rewrite Hw2.
    - injection Heq as _ _ <-. exact Hw2. }
  destruct (Client.commandContext c) as [[p [pid|]]|].
  - eapply Hdone; [| exact Hclose]. rewrite live_emit, Hw1, Hlive. cbn.
    now rewrite Nat.eqb_refl.
  - eapply Hdone; [| exact Hclose]. now rewrite Hw1.
  - eapply Hdone; [| exact Hclose]. now rewrite Hw1.
Qed.

Lemma run_consistent (steps : list Step) :
  forall c w c' w',
  consistent c w -> run steps c w = Some (c', w') -> consistent c' w'.
Proof.
  induction steps as [|s steps IH]; intros c w c' w' Hcons Hrun.
  - injection Hrun as <- <-. exact Hcons.
  - cbn [run] in Hrun.
    destruct (step s c w) as [[[r | msg |] c1] w1] eqn:Hstep; try discriminate.
    apply (IH c1 w1); [| exact Hrun].
    destruct s as [env ctx | env]; cbn [step] in Hstep.
    + now destruct (Open_returns env ctx c c1 w w1 r Hcons Hstep).
    + exact (Close_consistent env c c1 w w1 r Hcons Hstep).
Qed.

Lemma consistent_one_process (c : Client.Client) (w : World) :
  consistent c w ->
  (length (liveProcesses w) <= 1)%nat
  /\ (Client.connection c <> None -> exists pid, liveProcesses w = [pid]).
Proof.
  intros (Hlive & Hconn & Hidle & Hpid & _). rewrite Hlive. unfold held.
  destruct (Client.commandContext c) as [[p [pid|]]|] eqn:Hcmd.
  - split; [cbn; lia | eauto].
  - destruct (Hpid _ eq_refl) as [pid Hp]. discriminate.
  - split; [cbn; lia |]. intros Hc. destruct (Hidle eq_refl) as (H1 & _). contradiction.
Qed.

(** C5. [Open] is all or nothing.  On a client that already holds a
    process handle it fails at once and changes nothing.  On any other
    client in a consistent state: when it returns an error, the client is
    idle again (no connection, no process handle, no transport client)
    and no process it started is left alive; when it returns nil, the
    client holds one connection, one transport client and the handle of
    the one live process.  The state stays consistent, so along every
    sequence of [Open] and [Close] calls from a new client at most one
    process is alive and a connection implies exactly one. *)
Theorem Open_all_or_nothing (env : ClientEnv) (ctx : nat) (c : Client.Client) (w : World) :
  consistent c w ->
  (forall r c' w', Client.Open env ctx c w = (Returns r, c', w') ->
     consistent c' w'
     /\ match r with
        | Some err =>
          (Client.commandContext c <> None ->
           err = errorString "plugin is already running" /\ c' = c /\ w' = w)
          /\ (Client.commandContext c = None -> idle c' /\ liveProcesses w' = [])
        | None =>
          Client.commandContext c = None
          /\ exists conn hc pid,
               Client.connection c' = Some conn /\ Client.httpClient c' = Some hc
               /\ Client.commandContext c'
                  = Some {| cmdPath := Client.path c; Process := Some pid |}
               /\ liveProcesses w' = [pid]
        end)
  /\ (Client.commandContext c <> None ->
      Client.Open env ctx c w
      = (Returns (Some (errorString "plugin is already running")), c, w))
  /\ (forall steps c' w', run steps c w = Some (c', w') ->
        consistent c' w'
        /\ (length (liveProcesses w') <= 1)%nat
        /\ (Client.connection c' <> None -> exists pid, liveProcesses w' = [pid])).
Proof.
  intros Hcons. split; [| split].
  - intros r c' w' Hopen. exact (Open_returns env ctx c c' w w' r Hcons Hopen).
  - intros Hcmd. unfold Client.Open.
    destruct (Client.commandContext c); [reflexivity | contradiction].
  - intros steps c' w' Hrun.
    pose proof (run_consistent steps c w c' w' Hcons Hrun) as Hc'.
    split; [exact Hc' | now apply consistent_one_process].
Qed.

Lemma new_client_consistent (path : string) (opts : list Client.ClientOption) (w : World) :
  Forall standardOption opts -> liveProcesses w = [] ->
  consistent (Client.New path opts) w.
Proof.
  intros Hopts Hw. apply idle_consistent; [now apply New_standard_idle | exact Hw].
Qed.

Lemma quick_standard : Forall standardOption Example.quick.
Proof.
  unfold Example.quick, standardOption.
  constructor; [left; eauto |].
  constructor; [right; left; eauto |].
  constructor; [right; right; left; eauto | constructor].
Qed.

Lemma Open_all_or_nothing_witness :
  exists c' w',
    Client.Open Example.deadEnv 0 (Client.New "./plugin" Example.quick) Example.world0
    = (Returns (Some (PluginExecutionError Client.timeoutWaiting)), c', w')
    /\ idle c' /\ liveProcesses w' = [].
Proof.
  pose proof (Open_all_or_nothing Example.deadEnv 0 (Client.New "./plugin" Example.quick)
                Example.world0
                (new_client_consistent "./plugin" Example.quick Example.world0
                   quick_standard eq_refl)) as [Hstep _].
  destruct (Client.Open Example.deadEnv 0 (Client.New "./plugin" Example.quick)
              Example.world0) as [[o c'] w'] eqn:Hopen.
  assert (Ho : o = Returns (Some (PluginExecutionError Client.timeoutWaiting))).
  { apply (f_equal (fun x => x.1.1)) in Hopen. vm_compute in Hopen. now subst o. }
  subst o. destruct (Hstep _ c' w' eq_refl) as [_ [_ Hclean]].
  exists c', w'. split; [reflexivity |]. exact (Hclean eq_refl).
Defined.

(** ** The client (pluggo.go): health polling *)

Lemma Do_took_positive (hc : http.Client) (x : http.Exchange) (r : http.Reply) (took : Z) :
  http.Do hc x = Returns (r, took) -> 0 < took.
Proof.
  unfold http.Do. destruct (http.delay x) as [d|].
  - destruct (0 <? http.Timeout hc) eqn:Ht; cbn [andb].
    + destruct (http.Timeout hc <? Z.pos d); intros [= <- <-]; lia.
    + intros [= <- <-]. lia.
  - destruct (0 <? http.Timeout hc) eqn:Ht; [| discriminate].
    intros [= <- <-]. lia.
Qed.

Lemma Do_never_panics (hc : http.Client) (x : http.Exchange) (msg : string) :
  http.Do hc x <> Panics msg.
Proof.
  unfold http.Do. destruct (http.delay x); repeat destruct (_ <? _); cbn; discriminate.
Qed.

Lemma Do_with_timeout (hc : http.Client) (x : http.Exchange) :
  0 < http.Timeout hc -> http.Do hc x <> Blocks.
Proof.
  intros Ht. unfold http.Do. apply Z.ltb_lt in Ht. rewrite Ht.
  destruct (http.delay x); [destruct (_ && _) |]; discriminate.
Qed.

Lemma afterProbe_later (env : ClientEnv) (c : Client.Client) (url : string) (took : Z)
    (w : World) :
  0 < took -> now w < now (afterProbe env c url took w).
Proof. intros Ht. unfold afterProbe, Sleep. cbn. lia. Qed.

Lemma worldAt_later (env : ClientEnv) (c : Client.Client) (hc : http.Client) (url : string)
    (k : nat) :
  forall w, now w <= now (worldAt env c hc url k w).
Proof.
  induction k as [|k IH]; intros w; cbn [worldAt]; [lia |].
  unfold probe. destruct (http.Do hc _) as [[r took] | msg |] eqn:Hdo; try lia.
  pose proof (Do_took_positive _ _ _ _ Hdo) as Ht.
  pose proof (afterProbe_later env c url took w Ht).
  specialize (IH (afterProbe env c url took w)). lia.
Qed.

Lemma healthy_dec (o : Outcome (http.Reply * Z)) :
  match o with
  | Returns (http.ReplyResponse st _, _) => st = http.StatusOK <-> healthy o
  | _ => ~ healthy o
  end.
Proof.
  destruct o as [[[msg | st body] took] | msg |].
  - intros (b & t & [=]).
  - split.
    + intros ->. now exists body, took.
    + intros (b & t & [= -> _ _]). reflexivity.
  - intros (b & t & [=]).
  - intros (b & t & [=]).
Qed.

(** The loop of [waitForHealth], with fuel for every nanosecond that is
    left until the deadline and one more probe. *)
Lemma waitLoop_polls (env : ClientEnv) (c : Client.Client) (conn : Connection)
    (hc : http.Client) (deadline : Z) :
  Client.connection c = Some conn -> Client.httpClient c = Some hc ->
  (forall n, http.Do hc (get env n (healthURL conn)) <> Blocks) ->
  forall fuel w,
  (Z.to_nat (deadline - now w + 1) + 1 <= fuel)%nat ->
  exists r w' n,
    Client.waitLoop env c deadline fuel w = Some (Returns r, w')
    /\ (r = None <->
        exists k, now (worldAt env c hc (healthURL conn) k w) <= deadline
                  /\ healthy (probe env hc (healthURL conn)
                                (worldAt env c hc (healthURL conn) k w)))
    /\ (r <> None -> r = Some Client.timeoutWaiting /\ deadline < now w')
    /\ trace w'
       = trace w ++ pollEvents (healthURL conn) (Client.healthCheckInterval c) n
         ++ match r with None => [EvGet (healthURL conn)] | Some _ => [] end.
Proof.
  intros Hconn Hhc Hnoblock. set (url := healthURL conn) in *.
  induction fuel as [|fuel IH]; intros w Hfuel; [lia |].
  cbn [Client.waitLoop]. rewrite Hconn, Hhc. fold (healthURL conn). fold url.
  destruct (Z.ltb_spec deadline (now w)) as [Hlate | Hintime].
  { exists (Some Client.timeoutWaiting), w, 0%nat.
    split; [reflexivity |]. split; [| split].
    - split; [discriminate |]. intros (k & Hk & _).
      pose proof (worldAt_later env c hc url k w). lia.
    - intros _. split; [reflexivity | exact Hlate].
    - cbn. now rewrite app_nil_r. }
  pose proof (healthy_dec (probe env hc url w)) as Hdec. unfold probe in Hdec.
  destruct (http.Do hc (get env (gets w) url)) as [[rep took] | msg |] eqn:Hdo;
    [| now apply Do_never_panics in Hdo | now apply Hnoblock in Hdo].
  pose proof (Do_took_positive _ _ _ _ Hdo) as Htook.
  assert (Hretry : ~ healthy (Returns (rep, took)) ->
    exists r w' n,
      Client.waitLoop env c deadline fuel
        (Sleep (Client.healthCheckInterval c) (oversleep env (gets w))
           (elapse took (countGet (emit (EvGet url) w)))) = Some (Returns r, w')
      /\ (r = None <->
          exists k, now (worldAt env c hc url k w) <= deadline
                    /\ healthy (probe env hc url (worldAt env c hc url k w)))
      /\ (r <> None -> r = Some Client.timeoutWaiting /\ deadline < now w')
      /\ trace w'
         = trace w ++ pollEvents url (Client.healthCheckInterval c) n
           ++ match r with None => [EvGet url] | Some _ => [] end).
  { intros Hbad. fold (afterProbe env c url took w).
    pose proof (afterProbe_later env c url took w Htook) as Hlater.
    destruct (IH (afterProbe env c url took w) ltac:(lia)) as (r & w' & n & Hloop & Hiff & Hto & Htr).
    exists r, w', (S n). split; [exact Hloop |]. split; [| split; [exact Hto |]].
    - rewrite Hiff. split.
      + intros (k & Hk & Hh). exists (S k). cbn [worldAt]. unfold probe at 1 3.
        rewrite Hdo. split; assumption.
      + intros ([|k] & Hk & Hh).
        * cbn [worldAt] in Hh. unfold probe in Hh. rewrite Hdo in Hh. contradiction.
        * cbn [worldAt] in Hk, Hh. unfold probe at 1 in Hk. unfold probe at 2 in Hh.
          rewrite Hdo in Hk, Hh. exists k. split; assumption.
    - rewrite Htr. cbn [pollEvents]. unfold afterProbe, Sleep. cbn [trace emit elapse countGet].
      rewrite <- !app_assoc. reflexivity. }
  destruct rep as [msg | st body]; [apply Hretry; exact Hdec |].
  destruct (Z.eqb_spec st http.StatusOK) as [Hok | Hno]; [| apply Hretry; tauto].
  exists None, (elapse took (countGet (emit (EvGet url) w))), 0%nat.
  split; [reflexivity |]. split; [| split].
  - split; [| reflexivity]. intros _. exists 0%nat. cbn [worldAt]. split; [lia |].
    unfold probe. rewrite Hdo. now apply Hdec.
  - congruence.
  - reflexivity.
Qed.

(** Health polling when every probe comes back (the HTTP client has a
    positive timeout, or the peer always answers), on a connected client
    whose health-check timeout outlasts the clock: polling returns.  It
    returns nil exactly when some probe issued no later than the
    deadline gets a response with status 200, and the timeout error
    otherwise, at the first check after the deadline has passed.  Until
    then every failed probe (a transport error or another status) is
    followed by a sleep of the poll interval and a new probe. *)
Lemma waitForHealth_polls (env : ClientEnv) (c : Client.Client) (w : World)
    (conn : Connection) (hc : http.Client) :
  Client.connection c = Some conn -> Client.httpClient c = Some hc ->
  outlastsClock c ->
  (0 < http.Timeout hc \/ forall n, http.delay (get env n (healthURL conn)) <> None) ->
  exists r w' n,
    Client.waitForHealth env c w = (Returns r, w')
    /\ (r = None <->
        exists k,
          now (worldAt env c hc (healthURL conn) k w) <= now w + Client.healthCheckTimeout c
          /\ healthy (probe env hc (healthURL conn)
                        (worldAt env c hc (healthURL conn) k w)))
    /\ (r <> None ->
        r = Some Client.timeoutWaiting /\ now w + Client.healthCheckTimeout c < now w')
    /\ trace w'
       = trace w ++ pollEvents (healthURL conn) (Client.healthCheckInterval c) n
         ++ match r with None => [EvGet (healthURL conn)] | Some _ => [] end.
Proof.
  intros Hconn Hhc _ Hback.
  assert (Hnoblock : forall n, http.Do hc (get env n (healthURL conn)) <> Blocks).
  { intros n. destruct Hback as [Ht | Hd]; [now apply Do_with_timeout |].
    specialize (Hd n). unfold http.Do.
    destruct (http.delay _); [destruct (_ && _); discriminate | contradiction]. }
  destruct (waitLoop_polls env c conn hc (now w + Client.healthCheckTimeout c)
              Hconn Hhc Hnoblock (Z.to_nat (Client.healthCheckTimeout c) + 2) w
              ltac:(lia)) as (r & w' & n & Hloop & Hrest).
  exists r, w', n. unfold Client.waitForHealth. rewrite Hloop. split; [reflexivity | exact Hrest].
Qed.

Example waitForHealth_polls_slow_plugin :
  exists w' n,
    Client.waitForHealth Example.slowEnv
      (connected (Client.New "./plugin" Example.quick) Example.world0 "40123")
      Example.world0 = (Returns None, w')
    /\ trace w'
       = pollEvents "http://127.0.0.1:40123/_healthz" 2000 n
         ++ [EvGet "http://127.0.0.1:40123/_healthz"].
Proof.
  destruct (waitForHealth_polls Example.slowEnv
              (connected (Client.New "./plugin" Example.quick) Example.world0 "40123")
              Example.world0 _ _ eq_refl eq_refl ltac:(vm_compute; discriminate)
              (or_introl eq_refl))
    as (r & w' & n & Hwait & Hiff & _ & Htrace).
  assert (Hr : r = None).
  { vm_compute in Hwait. now injection Hwait as <- _. }
  subst r. exists w', n. split; [exact Hwait | exact Htrace].
Qed.

(** Health polling of a peer that cannot be reached ends in the timeout
    error. *)
Lemma waitForHealth_unreachable (env : ClientEnv) (c : Client.Client) (w : World)
    (conn : Connection) (hc : http.Client) :
  Client.connection c = Some conn -> Client.httpClient c = Some hc ->
  unreachable env (healthURL conn) ->
  exists w', Client.waitForHealth env c w = (Returns (Some Client.timeoutWaiting), w').
Proof.
  intros Hconn Hhc Hun.
  assert (Hdo : forall n, exists msg took,
            http.Do hc (get env n (healthURL conn)) = Returns (http.ReplyError msg, took)).
  { intros n. destruct (Hun n) as (d & msg & ->). unfold http.Do.
    cbn [http.delay http.reply]. destruct (_ && _); eauto. }
  assert (Hnoblock : forall n, http.Do hc (get env n (healthURL conn)) <> Blocks).
  { intros n. destruct (Hdo n) as (msg & took & ->). discriminate. }
  destruct (waitLoop_polls env c conn hc (now w + Client.healthCheckTimeout c)
              Hconn Hhc Hnoblock (Z.to_nat (Client.healthCheckTimeout c) + 2) w
              ltac:(lia)) as (r & w' & n & Hloop & Hiff & Hto & _).
  exists w'. unfold Client.waitForHealth. rewrite Hloop.
  destruct r as [e |].
  - destruct (Hto ltac:(discriminate)) as [-> _]. reflexivity.
  - destruct (proj1 Hiff eq_refl) as (k & _ & (body & took & Hh)). unfold probe in Hh.
    destruct (Hdo (gets (worldAt env c hc (healthURL conn) k w))) as (msg & t & Heq).
    rewrite Heq in Hh. discriminate Hh.
Qed.

(** C8, at its failing input.  The deadline is checked between probes
    only, and a probe is bounded by nothing but the timeout of the HTTP
    client, which is the function-execution timeout.  On a connected
    client whose calls have no timeout, when the plugin accepts the
    connection of the probe and never answers, that probe never comes
    back: health polling blocks after its GET, whatever the health-check
    timeout, and returns neither success nor the timeout error. *)
Theorem waitForHealth_blocks_on_silent_plugin (env : ClientEnv) (c : Client.Client)
    (w : World) (conn : Connection) (hc : http.Client) :
  Client.connection c = Some conn -> Client.httpClient c = Some hc ->
  http.Timeout hc <= 0 ->
  outlastsClock c ->
  http.delay (get env (gets w) (healthURL conn)) = None ->
  Client.waitForHealth env c w
  = (Blocks, countGet (emit (EvGet (healthURL conn)) w)).
Proof.
  intros Hconn Hhc Hnone Hclock Hsilent. unfold outlastsClock, microsecond in Hclock.
  unfold Client.waitForHealth.
  replace (Z.to_nat (Client.healthCheckTimeout c) + 2)%nat
    with (S (Z.to_nat (Client.healthCheckTimeout c) + 1)) by lia.
  cbn [Client.waitLoop].
  destruct (Z.ltb_spec (now w + Client.healthCheckTimeout c) (now w)); [lia |].
  rewrite Hconn, Hhc. fold (healthURL conn). unfold http.Do. rewrite Hsilent.
  destruct (Z.ltb_spec 0 (http.Timeout hc)); [lia | reflexivity].
Qed.

Lemma waitForHealth_blocks_on_silent_plugin_witness :
  Client.waitForHealth Example.silentEnv Example.patient Example.world0
  = (Blocks, countGet (emit (EvGet "http://127.0.0.1:40123/_healthz") Example.world0)).
Proof.
  apply (waitForHealth_blocks_on_silent_plugin Example.silentEnv Example.patient
           Example.world0 _ _ eq_refl eq_refl).
  - vm_compute. discriminate.
  - vm_compute. discriminate.
  - reflexivity.
Defined.

(** ** The client (pluggo.go): the errors of [Open] *)

(** C3, with the client at rest.  On an idle client, [Open] returns a
    [PluginNotFoundError] exactly when [os.Stat] fails on the path or the
    path is a directory.  Otherwise it returns a [PluginExecutionError]
    when the file has no execute permission, when the process does not
    start, when the first line of its output cannot be read, when the
    trimmed line is not an integer, when it is an integer that is no
    valid port, zero and negative numbers among them (the parse lets it
    through, no probe reaches such a port, and health polling ends in
    the timeout error), and whenever health polling returns an error.
    On a client that holds a process handle, [Open] returns the plain
    error "plugin is already running" and changes nothing. *)
Theorem Open_error_classes (env : ClientEnv) (ctx : nat) (c : Client.Client) (w : World) :
  (Client.commandContext c <> None ->
   Client.Open env ctx c w
   = (Returns (Some (errorString "plugin is already running")), c, w))
  /\ (idle c ->
      (returnsNotFound (Client.Open env ctx c w).1.1
       <-> missingOrDirectory env (Client.path c))
      /\ (forall fileInfo,
          stat env (Client.path c) = inl fileInfo -> IsDir fileInfo = false ->
          (notExecutable fileInfo ->
           (Client.Open env ctx c w).1.1
           = Returns (Some (PluginExecutionError
                              (errorString "plugin must be an executable"))))
          /\ (~ notExecutable fileInfo ->
              (forall err, start env (Client.path c) = Some err ->
                 (Client.Open env ctx c w).1.1
                 = Returns (Some (PluginExecutionError err)))
              /\ (start env (Client.path c) = None ->
                  (forall err, readLine env = Some (inr err) ->
                     (Client.Open env ctx c w).1.1
                     = Returns (Some (PluginExecutionError err)))
                  /\ (forall line, readLine env = Some (inl line) ->
                      (forall n nerr,
                         strconv.Atoi (gostrings.TrimSpace line) = (n, Some nerr) ->
                         (Client.Open env ctx c w).1.1
                         = Returns
                             (Some (PluginExecutionError
                                      (Errorf "invalid port received from plugin: %s"
                                              [ArgS (gostrings.TrimSpace line)]))))
                      /\ (forall n,
                          strconv.Atoi (gostrings.TrimSpace line) = (n, None) ->
                          (~ validPort n ->
                           (forall conn,
                              Client.connection (connected c w (gostrings.TrimSpace line))
                              = Some conn ->
                              unreachable env (healthURL conn)) ->
                           (Client.Open env ctx c w).1.1
                           = Returns (Some (PluginExecutionError Client.timeoutWaiting)))
                          /\ (forall health w',
                              Client.waitForHealth env
                                (connected c w (gostrings.TrimSpace line)) (spawned c w)
                              = (Returns health, w') ->
                              (Client.Open env ctx c w).1.1
                              = Returns (PluginExecutionError <$> health)))))))).
Proof.
  split.
  { intros Hcmd. unfold Client.Open.
    destruct (Client.commandContext c); [reflexivity | contradiction]. }
  intros Hidle. rewrite (Open_idle env ctx c w Hidle).
  unfold openIdle, missingOrDirectory, notExecutable.
  destruct (stat env (Client.path c)) as [fi | err].
  2: { split; [cbn; tauto |]. intros fi' [=]. }
  destruct (IsDir fi) eqn:Hdir.
  { split; [cbn; tauto |]. intros fi' [= <-] Hno. congruence. }
  split.
  - split; [| discriminate].
    destruct (Z.land (Mode fi) Client.executeBits =? 0); [intros [] |].
    destruct (start env (Client.path c)); [intros [] |].
    destruct (readLine env) as [[line | err] |]; [| intros [] | intros []].
    destruct (strconv.Atoi _) as [n [nerr |]]; [intros [] |].
    destruct (Client.waitForHealth _ _ _) as [[[err |] | msg |] w1]; try (intros []).
    destruct (supervised _ _). intros [].
  - intros fi' [= <-] _.
    destruct (Z.eqb_spec (Z.land (Mode fi) Client.executeBits) 0) as [Hx | Hx].
    { split; [reflexivity | contradiction]. }
    split; [contradiction |]. intros _.
    destruct (start env (Client.path c)) as [err |].
    { split; [now intros err' [= <-] | discriminate]. }
    split; [discriminate |]. intros _.
    destruct (readLine env) as [[line | err] |].
    + split; [discriminate |]. intros line' [= <-].
      destruct (strconv.Atoi _) as [n [nerr |]].
      * split; [now intros n' nerr' [= <- <-] | discriminate].
      * split; [discriminate |]. intros n' _. split.
        -- intros _ Hun.
           destruct (waitForHealth_unreachable env
                       (connected c w (gostrings.TrimSpace line)) (spawned c w) _ _
                       eq_refl eq_refl (Hun _ eq_refl)) as (w' & Hwait).
           rewrite Hwait. reflexivity.
        -- intros health w' Hwait. rewrite Hwait.
           destruct health as [err |]; [reflexivity |].
           destruct (supervised _ _). reflexivity.
    + split; [now intros err' [= <-] | discriminate].
    + split; discriminate.
Qed.

Lemma Open_error_classes_witness :
  (Client.Open Example.garbageEnv 0 (Client.New "./plugin" Example.quick)
     Example.world0).1.1
  = Returns (Some (PluginExecutionError
                     (Errorf "invalid port received from plugin: %s" [ArgS "ready"])))
  /\ (Client.Open Example.zeroPortEnv 0 (Client.New "./plugin" Example.quick)
        Example.world0).1.1
     = Returns (Some (PluginExecutionError Client.timeoutWaiting)).
Proof.
  split.
  - destruct (Open_error_classes Example.garbageEnv 0
                (Client.New "./plugin" Example.quick) Example.world0) as [_ Hidle].
    destruct (Hidle (New_standard_idle "./plugin" Example.quick quick_standard))
      as [_ Hclasses].
    destruct (Hclasses {| IsDir := false; Mode := 493 |} eq_refl eq_refl) as [_ Hexec].
    destruct (Hexec ltac:(discriminate)) as [_ Hstarted].
    destruct (Hstarted eq_refl) as [_ Hline].
    destruct (Hline ("ready" +:+ LF) eq_refl) as [Hbad _].
    exact (Hbad 0 strconv.ErrSyntax eq_refl).
  - destruct (Open_error_classes Example.zeroPortEnv 0
                (Client.New "./plugin" Example.quick) Example.world0) as [_ Hidle].
    destruct (Hidle (New_standard_idle "./plugin" Example.quick quick_standard))
      as [_ Hclasses].
    destruct (Hclasses {| IsDir := false; Mode := 493 |} eq_refl eq_refl) as [_ Hexec].
    destruct (Hexec ltac:(discriminate)) as [_ Hstarted].
    destruct (Hstarted eq_refl) as [_ Hline].
    destruct (Hline ("0" +:+ LF) eq_refl) as [_ Hnumber].
    destruct (Hnumber 0 eq_refl) as [Hzero _].
    apply Hzero.
    + unfold validPort. lia.
    + intros conn _ n. exists 1000%positive, "connection refused". reflexivity.
Defined.

(** C3, as the specification words it, fails on a client that is already
    running: its path no longer exists, and [Open] answers "plugin is
    already running", which is no [PluginNotFoundError]. *)
Lemma Open_while_running_is_not_NotFound :
  let running := Client.Open Example.healthyEnv 0
                   (Client.New "./plugin" Example.quick) Example.world0 in
  running.1.1 = Returns None
  /\ missingOrDirectory Example.missingEnv (Client.path running.1.2)
  /\ (Client.Open Example.missingEnv 1 running.1.2 running.2).1.1
     = Returns (Some (errorString "plugin is already running"))
  /\ ~ returnsNotFound (Client.Open Example.missingEnv 1 running.1.2 running.2).1.1.
Proof.
  cbv zeta. split; [vm_compute; reflexivity |]. split; [exact I |].
  split; [vm_compute; reflexivity |]. vm_compute. intros [].
Qed.

(** ** The function stub (function.go) *)

(** C2, at its failing input.  [NewFunction] on the connection of a
    client that has none (never opened, or closed) dereferences nil and
    panics: no stub is built and no error is returned. *)
Theorem NewFunction_without_connection_panics (name : string) (c : Client.Client) :
  Client.connection c = None ->
  NewFunction name (Client.Connection c) = Panics nilDereference.
Proof.
  intros Hc. unfold Client.Connection. rewrite Hc. reflexivity.
Qed.

Lemma NewFunction_without_connection_panics_witness :
  NewFunction "hello" (Client.Connection (Client.New "./plugin" []))
  = Panics nilDereference.
Proof.
  apply (NewFunction_without_connection_panics "hello" (Client.New "./plugin" [])).
  reflexivity.
Defined.

(** The same after [Close]. *)
Lemma NewFunction_after_Close_panics (env : ClientEnv) (name : string)
    (c c' : Client.Client) (w w' : World) (r : option error) :
  Client.Close env c w = (Returns r, c', w') ->
  NewFunction name (Client.Connection c') = Panics nilDereference.
Proof.
  intros Hclose. destruct (Close_returns env c c' w w' r Hclose) as [(Hc & _) _].
  now apply NewFunction_without_connection_panics.
Qed.

(** The connection that [Open] installs carries no timeout, so a stub
    built from it waits for its answer without limit. *)
Lemma Open_connection_has_no_timeout (env : ClientEnv) (ctx : nat)
    (c c' : Client.Client) (w w' : World) (conn : Connection) :
  idle c ->
  Client.Open env ctx c w = (Returns None, c', w') ->
  Client.Connection c' = Some conn ->
  FunctionExecutionTimeout conn = 0.
Proof.
  intros Hidle Hopen Hconn. rewrite (Open_idle env ctx c w Hidle) in Hopen.
  unfold openIdle in Hopen.
  destruct (stat env (Client.path c)) as [fi | err]; [| discriminate].
  destruct (IsDir fi); [discriminate |].
  destruct (Z.land (Mode fi) Client.executeBits =? 0); [discriminate |].
  destruct (start env (Client.path c)); [discriminate |].
  destruct (readLine env) as [[line | err] |]; [| discriminate | discriminate].
  destruct (strconv.Atoi _) as [n [nerr |]]; [discriminate |].
  destruct (Client.waitForHealth _ _ _) as [[[err |] | msg |] w1]; try discriminate.
  unfold supervised in Hopen.
  destruct (0 <? _); injection Hopen as <- _; cbn in Hconn; now injection Hconn as <-.
Qed.

Section StubCalls.

Context {T R : Type} {JT : JSONType T} {JR : JSONType R}.

(** A call whose request is refused fails with the error of the stub. *)
Lemma Call_refused (env : StubEnv) (f : Function.Function) (input : option T)
    (b msg : string) (d : positive) :
  Marshal (A := T) input = inl b ->
  newRequest env http.MethodPost
    (BaseURL (Function.clientConnection f) +:+ "/" +:+ Function.name f) = None ->
  roundTrip env http.MethodPost
    (BaseURL (Function.clientConnection f) +:+ "/" +:+ Function.name f) b
  = {| http.delay := Some d; http.reply := http.ReplyError msg |} ->
  exists err,
    (Function.Call (R := R) env f input).1
    = Returns (None, Some (FunctionExecutionError (Function.name f) err)).
Proof.
  intros Hm Hreq Hrt. unfold Function.Call. rewrite Hm, Hreq, Hrt.
  unfold http.Do. cbn [http.delay http.reply].
  destruct (_ && _); eexists; reflexivity.
Qed.

(** A call without timeout to a peer that never answers does not return. *)
Lemma Call_blocks_without_timeout (env : StubEnv) (f : Function.Function)
    (input : option T) (b : string) :
  Marshal (A := T) input = inl b ->
  newRequest env http.MethodPost
    (BaseURL (Function.clientConnection f) +:+ "/" +:+ Function.name f) = None ->
  http.delay (roundTrip env http.MethodPost
                (BaseURL (Function.clientConnection f) +:+ "/" +:+ Function.name f) b)
  = None ->
  http.Timeout (Function.httpClient f) <= 0 ->
  (Function.Call (R := R) env f input).1 = Blocks.
Proof.
  intros Hm Hreq Hsilent Ht. unfold Function.Call. rewrite Hm, Hreq.
  unfold http.Do. rewrite Hsilent.
  destruct (Z.ltb_spec 0 (http.Timeout (Function.httpClient f))); [lia | reflexivity].
Qed.

End StubCalls.

(** ** The handshake: what [Start] writes is what [Open] reads *)

Lemma byteZ_of_byte (b : Z) :
  0 <= b < 256 -> byteZ (ascii_of_N (Z.to_N b)) = b.
Proof.
  intros Hb. unfold byteZ. rewrite N_ascii_embedding by lia. lia.
Qed.

Lemma ofBytes_bytes (s : string) : gostrings.ofBytes (bytes s) = s.
Proof.
  unfold gostrings.ofBytes, bytes. rewrite map_map.
  rewrite <- (string_of_list_ascii_of_string s) at 2. f_equal.
  rewrite <- (map_id (list_ascii_of_string s)) at 2.
  apply map_ext. intros a. unfold byteZ. rewrite N2Z.id. apply ascii_N_embedding.
Qed.

Lemma bytes_append (s1 s2 : string) : bytes (s1 +:+ s2) = bytes s1 ++ bytes s2.
Proof.
  unfold bytes. induction s1 as [|a s1 IH]; [reflexivity |].
  rewrite append_cons. cbn [list_ascii_of_string map app]. now rewrite IH.
Qed.

Lemma digit_byte (n : Z) :
  byteZ (ascii_of_N (Z.to_N (rune "0" + n mod 10))) = 48 + n mod 10.
Proof.
  pose proof (Z.mod_pos_bound n 10 ltac:(lia)).
  apply byteZ_of_byte. change (rune "0") with 48. lia.
Qed.

Lemma digitsOf_digits (fuel : nat) :
  forall n acc, forallb strconv.isDigit (bytes acc) = true ->
  forallb strconv.isDigit (bytes (strconv.digitsOf fuel n acc)) = true.
Proof.
  assert (Hd : forall n, strconv.isDigit (48 + n mod 10) = true).
  { intros n. pose proof (Z.mod_pos_bound n 10 ltac:(lia)).
    unfold strconv.isDigit. change (rune "0") with 48. change (rune "9") with 57.
    apply andb_true_iff. split; apply Z.leb_le; lia. }
  induction fuel as [|fuel IH]; intros n acc Hacc; cbn [strconv.digitsOf].
  - cbn [bytes list_ascii_of_string map forallb]. fold (bytes acc).
    now rewrite digit_byte, Hd.
  - assert (Hstep : forallb strconv.isDigit
                      (bytes (String (ascii_of_N (Z.to_N (rune "0" + n mod 10))) acc)) = true).
    { cbn [bytes list_ascii_of_string map forallb]. fold (bytes acc).
      now rewrite digit_byte, Hd. }
    destruct (n / 10 =? 0); [exact Hstep | now apply IH].
Qed.

Lemma digitsOf_value (fuel : nat) :
  forall n acc, 0 <= n < 10 ^ (Z.of_nat fuel + 1) ->
  fold_left (fun m ch => m * 10 + (ch - rune "0")) (bytes (strconv.digitsOf fuel n acc)) 0
  = fold_left (fun m ch => m * 10 + (ch - rune "0")) (bytes acc) n.
Proof.
  assert (Hone : forall n acc, 0 <= n < 10 ->
    fold_left (fun m ch => m * 10 + (ch - rune "0"))
      (bytes (String (ascii_of_N (Z.to_N (rune "0" + n mod 10))) acc)) 0
    = fold_left (fun m ch => m * 10 + (ch - rune "0")) (bytes acc) n).
  { intros n acc Hn. cbn [bytes list_ascii_of_string map fold_left]. fold (bytes acc).
    rewrite digit_byte, Z.mod_small by lia. change (rune "0") with 48. f_equal. lia. }
  induction fuel as [|fuel IH]; intros n acc Hn; cbn [strconv.digitsOf].
  - apply Hone. cbn in Hn. lia.
  - destruct (Z.eqb_spec (n / 10) 0) as [Hz | Hnz].
    + apply Hone. split; [lia |].
      destruct (Z_lt_ge_dec n 10) as [Hlt | Hge]; [exact Hlt |].
      pose proof (Z.div_le_lower_bound n 10 1 ltac:(lia) ltac:(lia)). lia.
    + rewrite IH.
      * cbn [bytes list_ascii_of_string map fold_left]. fold (bytes acc).
        rewrite digit_byte. change (rune "0") with 48. f_equal.
        pose proof (Z.div_mod n 10 ltac:(lia)). lia.
      * split; [apply Z.div_pos; lia |].
        apply Z.div_lt_upper_bound; [lia |].
        replace (Z.of_nat (S fuel) + 1) with (Z.succ (Z.of_nat fuel + 1)) in Hn by lia.
        rewrite Z.pow_succ_r in Hn by lia. lia.
Qed.

Lemma below_power_of_ten (n : Z) : 0 <= n -> n < 10 ^ (Z.of_nat (Z.to_nat (Z.log2 n)) + 1).
Proof.
  intros Hn. rewrite Z2Nat.id by apply Z.log2_nonneg.
  destruct (Z.eq_dec n 0) as [-> | Hpos]; [reflexivity |].
  pose proof (Z.log2_spec n ltac:(lia)) as [_ Hup].
  pose proof (Z.log2_nonneg n).
  eapply Z.lt_le_trans; [exact Hup |].
  replace (Z.succ (Z.log2 n)) with (Z.log2 n + 1) by lia.
  apply Z.pow_le_mono_l. lia.
Qed.

(** The decimal digits that [Itoa] writes are read back by [Atoi]. *)
Lemma Atoi_Itoa (p : Z) : 0 <= p < 2 ^ 63 -> strconv.Atoi (strconv.Itoa p) = (p, None).
Proof.
  intros Hp. unfold strconv.Itoa. destruct (Z.ltb_spec p 0) as [Hneg | _]; [lia |].
  set (s := strconv.digitsOf (Z.to_nat (Z.log2 p)) p "").
  pose proof (digitsOf_digits (Z.to_nat (Z.log2 p)) p "" eq_refl) as Hdigits.
  pose proof (digitsOf_value (Z.to_nat (Z.log2 p)) p ""
                (conj (proj1 Hp) (below_power_of_ten p (proj1 Hp)))) as Hvalue.
  fold s in Hdigits, Hvalue. cbn [bytes list_ascii_of_string map fold_left] in Hvalue.
  unfold strconv.Atoi.
  destruct (bytes s) as [|b rest] eqn:Hbytes.
  { exfalso. subst s. destruct (Z.to_nat (Z.log2 p)); cbn [strconv.digitsOf] in Hbytes.
    - discriminate.
    - destruct (p / 10 =? 0); [discriminate |].
      revert Hbytes. generalize (p / 10).
      generalize (String (ascii_of_N (Z.to_N (rune "0" + p mod 10))) "").
      induction n as [|n IH]; intros acc q; cbn [strconv.digitsOf].
      + discriminate.
      + destruct (q / 10 =? 0); [discriminate | apply IH]. }
  assert (Hb : strconv.isDigit b = true).
  { cbn [forallb] in Hdigits. now apply andb_true_iff in Hdigits as [Hb _]. }
  assert (Hsign : (b =? rune "-") = false /\ (b =? rune "+") = false).
  { unfold strconv.isDigit in Hb. apply andb_true_iff in Hb as [H1 H2].
    apply Z.leb_le in H1, H2. change (rune "0") with 48 in H1.
    change (rune "9") with 57 in H2.
    split; apply Z.eqb_neq; [change (rune "-") with 45 | change (rune "+") with 43]; lia. }
  destruct Hsign as [-> ->]. cbn [orb negb andb].
  rewrite Hdigits. unfold strconv.digitsValue. rewrite Hvalue.
  destruct (Z.leb_spec (2 ^ 63) p); [lia | reflexivity].
Qed.

Lemma digit_is_plain (b : Z) :
  strconv.isDigit b = true -> (0x80 <=? b) = false /\ gostrings.asciiSpace b = false.
Proof.
  unfold strconv.isDigit. intros Hb. apply andb_true_iff in Hb as [H1 H2].
  apply Z.leb_le in H1, H2. change (rune "0") with 48 in H1.
  change (rune "9") with 57 in H2.
  split; [apply Z.leb_gt; lia |].
  unfold gostrings.asciiSpace.
  repeat (apply orb_false_iff; split); apply Z.eqb_neq; lia.
Qed.

Lemma trimRightFast_step (fuel : nat) (p : list Z) :
  p <> [] ->
  gostrings.trimRightFast (S fuel) p =
  if 0x80 <=? nth (length p - 1) p 0 then gostrings.trimRightSpace (length p) p
  else if gostrings.asciiSpace (nth (length p - 1) p 0)
       then gostrings.trimRightFast fuel (take (length p - 1) p)
       else p.
Proof.
  destruct p; [contradiction | reflexivity].
Qed.

(** [TrimSpace] removes the line feed that ends a line of digits, and
    nothing else. *)
Lemma trimLeftFast_digits_line (ds : list Z) :
  ds <> [] -> forallb strconv.isDigit ds = true ->
  gostrings.trimLeftFast (ds ++ [10]) = ds.
Proof.
  intros Hne Hds.
  assert (Hlast : strconv.isDigit (nth (length ds - 1) ds 0) = true).
  { rewrite forallb_forall in Hds. apply Hds, nth_In.
    destruct ds; [contradiction | cbn [length]; lia]. }
  assert (Hlen : length (ds ++ [10]) = S (length ds)).
  { rewrite length_app. cbn [length]. lia. }
  assert (Hright : gostrings.trimRightFast (length (ds ++ [10])) (ds ++ [10]) = ds).
  { rewrite Hlen, trimRightFast_step by (destruct ds; discriminate).
    rewrite Hlen. replace (S (length ds) - 1)%nat with (length ds) by lia.
    rewrite nth_middle. change (0x80 <=? 10) with false.
    change (gostrings.asciiSpace 10) with true. cbv iota.
    rewrite take_app_length.
    destruct (digit_is_plain _ Hlast) as [Hhigh Hspace].
    destruct (length ds) as [|n] eqn:Hn; [destruct ds; [contradiction | discriminate] |].
    rewrite trimRightFast_step by exact Hne. rewrite Hn.
    now rewrite Hhigh, Hspace. }
  destruct ds as [|b rest]; [contradiction |].
  assert (Hb : strconv.isDigit b = true).
  { cbn [forallb] in Hds. now apply andb_true_iff in Hds as [Hb _]. }
  destruct (digit_is_plain b Hb) as [Hhigh Hspace].
  change ((b :: rest) ++ [10]) with (b :: (rest ++ [10])) in *.
  cbn [gostrings.trimLeftFast]. rewrite Hhigh, Hspace. exact Hright.
Qed.

Lemma Itoa_digits (p : Z) :
  0 <= p -> bytes (strconv.Itoa p) <> [] /\
            forallb strconv.isDigit (bytes (strconv.Itoa p)) = true.
Proof.
  intros Hp. unfold strconv.Itoa. destruct (Z.ltb_spec p 0) as [Hneg | _]; [lia |].
  split; [| now apply digitsOf_digits].
  generalize (Z.to_nat (Z.log2 p)) as fuel. generalize p as n. generalize "" as acc.
  intros acc n fuel. revert acc n.
  induction fuel as [|fuel IH]; intros acc n; cbn [strconv.digitsOf].
  - discriminate.
  - destruct (n / 10 =? 0); [discriminate | apply IH].
Qed.

Lemma TrimSpace_Itoa_line (p : Z) :
  0 <= p -> gostrings.TrimSpace (strconv.Itoa p +:+ LF) = strconv.Itoa p.
Proof.
  intros Hp. destruct (Itoa_digits p Hp) as [Hne Hds].
  unfold gostrings.TrimSpace. rewrite bytes_append.
  change (bytes LF) with [10].
  rewrite (trimLeftFast_digits_line _ Hne Hds). apply ofBytes_bytes.
Qed.

(** X1.  The port that [Start] announces is the port that [Open] connects to:
    when the first line of the child's standard output is the line of
    [announcement p] and [Open] succeeds, the connection is to the
    loopback address at port [p]. *)
Theorem Open_connects_to_announced_port (env : ClientEnv) (ctx : nat)
    (c c' : Client.Client) (w w' : World) (p : Z) (line : string) :
  0 <= p < 2 ^ 63 ->
  In (EvStdout line) (announcement p) ->
  readLine env = Some (inl line) ->
  idle c ->
  Client.Open env ctx c w = (Returns None, c', w') ->
  Client.Connection c'
  = Some {| FunctionExecutionTimeout := 0;
            BaseURL := "http://127.0.0.1:" +:+ strconv.Itoa p |}.
Proof.
  intros Hp Hline Hread Hidle Hopen.
  assert (line = strconv.Itoa p +:+ LF) as ->.
  { destruct Hline as [H | [H | [H | []]]]; [discriminate | | discriminate].
    now injection H as <-. }
  rewrite (Open_idle env ctx c w Hidle) in Hopen. unfold openIdle in Hopen.
  destruct (stat env (Client.path c)) as [fi | err]; [| discriminate].
  destruct (IsDir fi); [discriminate |].
  destruct (Z.land (Mode fi) Client.executeBits =? 0); [discriminate |].
  destruct (start env (Client.path c)); [discriminate |].
  rewrite Hread, (TrimSpace_Itoa_line p (proj1 Hp)), (Atoi_Itoa p Hp) in Hopen.
  destruct (Client.waitForHealth _ _ _) as [[[err |] | msg |] w1]; try discriminate.
  unfold supervised in Hopen.
  destruct (0 <? Client.heartbeatInterval _); injection Hopen as <- <-; reflexivity.
Qed.

Lemma Open_connects_to_announced_port_witness :
  exists c' w',
    Client.Open Example.healthyEnv 0 (Client.New "./plugin" Example.quick) Example.world0
    = (Returns None, c', w')
    /\ Client.Connection c'
       = Some {| FunctionExecutionTimeout := 0; BaseURL := "http://127.0.0.1:40123" |}.
Proof.
  eexists _, _. split; [reflexivity |].
  eapply (Open_connects_to_announced_port Example.healthyEnv 0
           (Client.New "./plugin" Example.quick) _ Example.world0 _ 40123
           ("40123" +:+ LF)).
  - lia.
  - right. left. reflexivity.
  - reflexivity.
  - apply New_standard_idle, quick_standard.
  - reflexivity.
Defined.

(** ** The heartbeat goroutine and [Close] *)

(** X2.  [Close] does not stop the goroutine that [Open] starts for the
    heartbeat.  Its next tick, on a client that [Close] has cleared and
    whose health-check timeout outlasts the clock (a microsecond or
    more, so that the deadline has not passed at the first check), calls
    [waitForHealth] with no connection and no transport client: a nil
    pointer dereference, in a goroutine, where nothing recovers it. *)
Theorem heartbeat_after_Close_panics (env env' : ClientEnv) (c c' : Client.Client)
    (w w' : World) (r : option error) :
  Client.Close env c w = (Returns r, c', w') ->
  outlastsClock c' ->
  Client.heartbeatTick env' c' w' = (Panics nilDereference, c', w').
Proof.
  intros Hclose Htimeout. unfold outlastsClock, microsecond in Htimeout.
  destruct (Close_returns env c c' w w' r Hclose) as [(Hconn & _) _].
  unfold Client.heartbeatTick, Client.waitForHealth.
  replace (Z.to_nat (Client.healthCheckTimeout c') + 2)%nat
    with (S (Z.to_nat (Client.healthCheckTimeout c') + 1)) by lia.
  cbn [Client.waitLoop].
  destruct (Z.ltb_spec (now w' + Client.healthCheckTimeout c') (now w')); [lia |].
  now rewrite Hconn.
Qed.

Lemma heartbeat_after_Close_panics_witness :
  exists c w c' w',
    Client.Open Example.healthyEnv 0
      (Client.New "./plugin" (Client.WithHeartbeatInterval 1000000 :: Example.quick)) Example.world0
    = (Returns None, c, w)
    /\ Client.Done c <> None
    /\ Client.Close Example.healthyEnv c w = (Returns None, c', w')
    /\ Client.heartbeatTick Example.healthyEnv c' w' = (Panics nilDereference, c', w').
Proof.
  pose (o := Client.Open Example.healthyEnv 0
              (Client.New "./plugin" (Client.WithHeartbeatInterval 1000000 :: Example.quick))
              Example.world0).
  pose (k := Client.Close Example.healthyEnv o.1.2 o.2).
  exists o.1.2, o.2, k.1.2, k.2.
  split; [vm_compute; reflexivity |]. split; [vm_compute; discriminate |].
  split; [vm_compute; reflexivity |].
  apply (heartbeat_after_Close_panics Example.healthyEnv Example.healthyEnv
           o.1.2 k.1.2 o.2 k.2 None).
  - vm_compute. reflexivity.
  - vm_compute. discriminate.
Defined.

(** ** The timeout of calls *)

(** X3.  The timeout configured on the client does not reach the calls:
    [Open] leaves [FunctionExecutionTimeout] of the connection at zero,
    and [NewFunction] takes the timeout of its transport client from
    there, so every stub built from the connection of an opened client
    starts with no timeout, whatever [WithFunctionExecutionTimeout] set. *)
Theorem NewFunction_ignores_configured_timeout (env : ClientEnv) (ctx : nat)
    (c c' : Client.Client) (w w' : World) (name : string) :
  idle c ->
  Client.Open env ctx c w = (Returns None, c', w') ->
  exists f, NewFunction name (Client.Connection c') = Returns f
            /\ http.Timeout (Function.httpClient f) = 0.
Proof.
  intros Hidle Hopen.
  destruct (Client.Connection c') as [conn |] eqn:Hconn.
  - eexists. split; [reflexivity |]. cbn [Function.httpClient http.Timeout].
    exact (Open_connection_has_no_timeout env ctx c c' w w' conn Hidle Hopen Hconn).
  - exfalso. rewrite (Open_idle env ctx c w Hidle) in Hopen. unfold openIdle in Hopen.
    destruct (stat env (Client.path c)) as [fi | err]; [| discriminate].
    destruct (IsDir fi); [discriminate |].
    destruct (Z.land (Mode fi) Client.executeBits =? 0); [discriminate |].
    destruct (start env (Client.path c)); [discriminate |].
    destruct (readLine env) as [[line | err] |]; [| discriminate | discriminate].
    destruct (strconv.Atoi _) as [n [nerr |]]; [discriminate |].
    destruct (Client.waitForHealth _ _ _) as [[[err |] | msg |] w1]; try discriminate.
    unfold supervised in Hopen.
    destruct (0 <? _); injection Hopen as <- _; discriminate Hconn.
Qed.

Lemma NewFunction_ignores_configured_timeout_witness :
  exists c' w' f,
    Client.Open Example.healthyEnv 0 (Client.New "./plugin" Example.quick) Example.world0
    = (Returns None, c', w')
    /\ Client.functionExecutionTimeout c' = 5000
    /\ NewFunction "hello" (Client.Connection c') = Returns f
    /\ http.Timeout (Function.httpClient f) = 0.
Proof.
  destruct (NewFunction_ignores_configured_timeout Example.healthyEnv 0
              (Client.New "./plugin" Example.quick)
              (Client.Open Example.healthyEnv 0 (Client.New "./plugin" Example.quick)
                 Example.world0).1.2
              Example.world0
              (Client.Open Example.healthyEnv 0 (Client.New "./plugin" Example.quick)
                 Example.world0).2
              "hello"
              (New_standard_idle "./plugin" Example.quick quick_standard) eq_refl)
    as (f & Hf & Ht).
  eexists _, _, f. split; [reflexivity |]. split; [reflexivity |]. split; assumption.
Defined.

(** ** A series of registrations (plugin.go) *)

Lemma append_inv_tail (s1 s2 t : string) : s1 +:+ t = s2 +:+ t -> s1 = s2.
Proof.
  intros H. apply (f_equal bytes) in H. rewrite !bytes_append in H.
  apply app_inv_tail in H. apply (f_equal gostrings.ofBytes) in H.
  now rewrite !ofBytes_bytes in H.
Qed.

Lemma append_inv_head (s t1 t2 : string) : s +:+ t1 = s +:+ t2 -> t1 = t2.
Proof.
  induction s as [|a s IH]; [now rewrite !append_nil |].
  rewrite !append_cons. intros H. injection H as H. now apply IH.
Qed.

(** A valid name holds no slash. *)
Lemma valid_name_no_slash (name s1 s2 : string) :
  validateFunctionName name = None -> name <> s1 +:+ "/" +:+ s2.
Proof.
  intros Hv Heq. apply validateFunctionName_safe in Hv as (_ & _ & _ & Hsafe).
  rewrite runes_safe_are_bytes in Hsafe
    by (eapply Forall_impl; [exact Hsafe | intros r; apply safeCharacter_low]).
  subst name. rewrite bytes_append, append_cons, append_nil in Hsafe.
  apply Forall_app in Hsafe as [_ Hsafe]. inversion Hsafe as [|? ? Hslash _]; subst.
  unfold safeCharacter, rune, byteZ in Hslash. cbn in Hslash. lia.
Qed.

Lemma validCall_spec (name : string) (h : Handler) :
  validCall (name, h) = true <-> validateFunctionName name = None.
Proof.
  unfold validCall. cbn [fst]. destruct (validateFunctionName name); split; congruence.
Qed.

(** What a call with a valid name that returns has found and has done. *)
Lemma AddFunction_returned (name : string) (h : Handler) (l l' : Plugin)
    (evs : list Event) :
  validateFunctionName name = None ->
  AddFunction name h l = (Returns tt, l', evs) ->
  exists m, mux l = Some m
    /\ m !! (basePath +:+ name) = None
    /\ m !! (basePath +:+ name +:+ schemasPath) = None
    /\ l' = {| functions := <[name := HandlerSchema h]> (functions l);
               httpServer := httpServer l;
               mux := Some (<[basePath +:+ name +:+ schemasPath := FunctionSchemaEntry name]>
                              (<[basePath +:+ name := FunctionEntry (HTTPHandler h)]> m)) |}
    /\ evs = [].
Proof.
  intros Hv Hadd. unfold AddFunction in Hadd. rewrite Hv in Hadd.
  cbn [mux setFunctions] in Hadd.
  destruct (mux l) as [m|] eqn:Hm; [| discriminate].
  set (k1 := basePath +:+ name) in *. set (k2 := basePath +:+ name +:+ schemasPath) in *.
  unfold Handle in Hadd.
  destruct (m !! k1) eqn:H1; [discriminate |].
  destruct (<[k1 := FunctionEntry (HTTPHandler h)]> m !! k2) eqn:H2; [discriminate |].
  injection Hadd as <- <-.
  apply lookup_insert_None in H2 as [H2 _].
  exists m. split; [reflexivity |]. split; [exact H1 |]. split; [exact H2 |].
  split; reflexivity.
Qed.

(** One more registration that returns: the plugin holds it too, and its
    name is new and not reserved. *)
Lemma holds_step (regs : list (string * Handler)) (name : string) (h : Handler)
    (l l' : Plugin) (evs : list Event) :
  holds regs l ->
  validateFunctionName name = None ->
  AddFunction name h l = (Returns tt, l', evs) ->
  holds ((name, h) :: regs) l'
  /\ ~ In name (map fst regs) /\ ~ reservedName name
  /\ httpServer l' = httpServer l /\ evs = [].
Proof.
  intros (m & Hm & Hhealth & Hschemas & Hregs & Htable & Hmux) Hv Hadd.
  destruct (AddFunction_returned name h l l' evs Hv Hadd)
    as (m' & Hm' & H1 & H2 & -> & ->).
  rewrite Hm in Hm'. injection Hm' as <-.
  set (k1 := basePath +:+ name) in *. set (k2 := basePath +:+ name +:+ schemasPath) in *.
  assert (Hk : k1 <> k2) by apply invocation_path_ne_schema_path.
  assert (Hnew : ~ In name (map fst regs)).
  { intros Hin. apply in_map_iff in Hin as ([n h0] & Hn & Hin). cbn in Hn. subst n.
    destruct (Hregs name h0 Hin) as (_ & Hroute & _). fold k1 in Hroute. congruence. }
  assert (Hfree : ~ reservedName name).
  { intros [-> | ->]; [change k1 with healthPath in H1 | change k1 with schemasPath in H1];
      congruence. }
  split; [| repeat split; assumption].
  eexists. split; [reflexivity |].
  assert (Hold : forall path e, m !! path = Some e ->
            <[k2 := FunctionSchemaEntry name]> (<[k1 := FunctionEntry (HTTPHandler h)]> m)
              !! path = Some e).
  { intros path e Hp.
    rewrite !lookup_insert_ne by (intros <-; congruence). exact Hp. }
  split; [now apply Hold |]. split; [now apply Hold |].
  split; [| split].
  - intros n h0 [Heq | Hin].
    + injection Heq as <- <-. cbn [functions]. split; [apply lookup_insert_eq |].
      split; [| apply lookup_insert_eq].
      rewrite lookup_insert_ne by (intros Heq; now apply Hk). apply lookup_insert_eq.
    + destruct (Hregs n h0 Hin) as (Ht & Hr & Hs). cbn [functions].
      split; [| split; now apply Hold].
      rewrite lookup_insert_ne; [exact Ht |].
      intros <-. apply Hnew. apply in_map_iff. now exists (name, h0).
  - intros n s Hn. cbn [functions map fst] in *.
    destruct (decide (name = n)) as [<- | Hne]; [now left |].
    rewrite lookup_insert_ne in Hn by exact Hne. right. eapply Htable, Hn.
  - intros path e Hp. cbn [map fst].
    destruct (decide (k2 = path)) as [<- | Hne2].
    { right. right. exists name. split; [now left | now right]. }
    rewrite lookup_insert_ne in Hp by exact Hne2.
    destruct (decide (k1 = path)) as [<- | Hne1].
    { right. right. exists name. split; [now left | now left]. }
    rewrite lookup_insert_ne in Hp by exact Hne1.
    destruct (Hmux path e Hp) as [-> | [-> | (n & Hin & Hpath)]]; [now left | right; now left |].
    right. right. exists n. split; [now right | exact Hpath].
Qed.

Lemma holds_new : holds [] NewPlugin.
Proof.
  exists (<[schemasPath := SchemasEntry]> (<[healthPath := HealthEntry]> ∅)).
  split; [reflexivity |].
  split; [rewrite lookup_insert_ne by discriminate; apply lookup_insert_eq |].
  split; [apply lookup_insert_eq |].
  split; [intros name h [] |].
  split; [intros name s Hn; cbn in Hn; now rewrite lookup_empty in Hn |].
  intros path e Hp.
  destruct (decide (schemasPath = path)) as [<- | Hne2]; [right; now left |].
  rewrite lookup_insert_ne in Hp by exact Hne2.
  destruct (decide (healthPath = path)) as [<- | Hne1]; [now left |].
  rewrite lookup_insert_ne in Hp by exact Hne1. now rewrite lookup_empty in Hp.
Qed.

(** A valid name that is new and not reserved finds its two paths free. *)
Lemma AddFunction_free (regs : list (string * Handler)) (name : string) (h : Handler)
    (l : Plugin) :
  holds regs l ->
  Forall (fun call => validCall call = true) regs ->
  validateFunctionName name = None ->
  ~ In name (map fst regs) ->
  ~ reservedName name ->
  exists l', AddFunction name h l = (Returns tt, l', []).
Proof.
  intros (m & Hm & _ & _ & _ & _ & Hmux) Hvalid Hv Hnew Hfree.
  assert (Hregs : forall n, In n (map fst regs) -> validateFunctionName n = None).
  { intros n Hin. apply in_map_iff in Hin as ([n' h'] & Hn & Hin). cbn in Hn. subst n'.
    rewrite List.Forall_forall in Hvalid. now apply (validCall_spec n h'), Hvalid. }
  assert (H1 : m !! (basePath +:+ name) = None).
  { destruct (m !! (basePath +:+ name)) as [e|] eqn:Hp; [exfalso | reflexivity].
    destruct (Hmux _ e Hp) as [Heq | [Heq | (n & Hin & [Heq | Heq])]].
    - apply Hfree. left. now apply (append_inv_head basePath).
    - apply Hfree. right. now apply (append_inv_head basePath).
    - apply append_inv_head in Heq. now subst n.
    - apply append_inv_head in Heq. now apply (valid_name_no_slash name n "_schemas" Hv). }
  assert (H2 : m !! (basePath +:+ name +:+ schemasPath) = None).
  { destruct (m !! (basePath +:+ name +:+ schemasPath)) as [e|] eqn:Hp;
      [exfalso | reflexivity].
    destruct (Hmux _ e Hp) as [Heq | [Heq | (n & Hin & [Heq | Heq])]].
    - apply (f_equal String.length) in Heq. rewrite !length_append in Heq. cbn in Heq. lia.
    - apply (f_equal String.length) in Heq. rewrite !length_append in Heq. cbn in Heq. lia.
    - apply append_inv_head in Heq.
      now apply (valid_name_no_slash n name "_schemas" (Hregs n Hin)).
    - apply append_inv_head, append_inv_tail in Heq. now subst n. }
  eexists. apply (AddFunction_fresh_routes name h l m); try assumption.
  now apply validateFunctionName_safe.
Qed.

Lemma AddFunction_rejected (name : string) (h : Handler) (l : Plugin) (err : error) :
  validateFunctionName name = Some err ->
  AddFunction name h l = (Returns tt, l, [EvLog "invalid function name"]).
Proof.
  intros Hv. unfold AddFunction. now rewrite Hv.
Qed.

(** The calls that returned, from a plugin that holds [regs]. *)
Lemma register_holds (calls : list (string * Handler)) :
  forall regs l l' evs,
  holds regs l ->
  register calls l = (Returns tt, l', evs) ->
  holds (rev (accepted calls) ++ regs) l'
  /\ (List.NoDup (map fst regs) -> List.NoDup (map fst (rev (accepted calls) ++ regs)))
  /\ Forall (fun call => ~ reservedName call.1) (accepted calls)
  /\ httpServer l' = httpServer l
  /\ evs = map (fun _ => EvLog "invalid function name") (rejected calls).
Proof.
  induction calls as [|[name h] rest IH]; intros regs l l' evs Hholds Hreg.
  - injection Hreg as <- <-. cbn [accepted rejected List.filter rev app map].
    split; [exact Hholds |]. split; [exact (fun H => H) |].
    split; [constructor |]. split; reflexivity.
  - cbn [register] in Hreg. unfold accepted, rejected. cbn [List.filter].
    fold (accepted rest) (rejected rest).
    destruct (validateFunctionName name) as [err|] eqn:Hv.
    + rewrite (AddFunction_rejected name h l err Hv) in Hreg.
      destruct (register rest l) as [[o l2] evs2] eqn:Hrest.
      injection Hreg as -> -> <-.
      assert (Hcall : validCall (name, h) = false) by (unfold validCall; cbn; now rewrite Hv).
      rewrite Hcall. cbn [negb].
      destruct (IH regs l l' evs2 Hholds Hrest) as (H1 & H2 & H3 & H4 & H5).
      repeat split; try assumption. cbn [map app]. now rewrite H5.
    + assert (Hcall : validCall (name, h) = true) by now apply validCall_spec.
      rewrite Hcall. cbn [negb].
      destruct (AddFunction name h l) as [[o l1] evs1] eqn:Hadd.
      destruct o as [[] | msg |]; [| discriminate | discriminate].
      destruct (register rest l1) as [[o l2] evs2] eqn:Hrest.
      injection Hreg as -> -> <-.
      destruct (holds_step regs name h l l1 evs1 Hholds Hv Hadd)
        as (Hholds1 & Hnew & Hfree & Hsrv & ->).
      destruct (IH ((name, h) :: regs) l1 l' evs2 Hholds1 Hrest) as (H1 & H2 & H3 & H4 & H5).
      cbn [rev]. rewrite <- app_assoc. cbn [app].
      split; [exact H1 |]. split; [| split; [| split]].
      * intros Hnodup. apply H2. cbn [map fst]. constructor; assumption.
      * constructor; assumption.
      * congruence.
      * exact H5.
Qed.

Lemma holds_same (regs regs' : list (string * Handler)) (l : Plugin) :
  (forall call, In call regs <-> In call regs') -> holds regs l -> holds regs' l.
Proof.
  intros Hsame (m & Hm & Hhealth & Hschemas & Hregs & Htable & Hmux).
  assert (Hnames : forall name, In name (map fst regs) -> In name (map fst regs')).
  { intros name Hin. apply in_map_iff in Hin as (call & Hn & Hin).
    apply in_map_iff. exists call. split; [exact Hn | now apply Hsame]. }
  exists m. split; [exact Hm |]. split; [exact Hhealth |]. split; [exact Hschemas |].
  split; [| split].
  - intros name h Hin. now apply Hregs, Hsame.
  - intros name s Hn. eapply Hnames, Htable, Hn.
  - intros path e Hp.
    destruct (Hmux path e Hp) as [-> | [-> | (n & Hin & Hpath)]]; [now left | right; now left |].
    right. right. exists n. split; [now apply Hnames | exact Hpath].
Qed.

(** The calls return when the valid names are new and not reserved. *)
Lemma register_returns (calls : list (string * Handler)) :
  forall regs l,
  holds regs l ->
  Forall (fun call => validCall call = true) regs ->
  List.NoDup (map fst (rev (accepted calls) ++ regs)) ->
  Forall (fun call => ~ reservedName call.1) (accepted calls) ->
  exists l' evs, register calls l = (Returns tt, l', evs).
Proof.
  induction calls as [|[name h] rest IH]; intros regs l Hholds Hvalid Hnodup Hfree.
  - eexists _, _. reflexivity.
  - cbn [register]. unfold accepted in Hnodup, Hfree. cbn [List.filter] in Hnodup, Hfree.
    fold (accepted rest) in Hnodup, Hfree.
    destruct (validateFunctionName name) as [err|] eqn:Hv.
    + assert (Hcall : validCall (name, h) = false) by (unfold validCall; cbn; now rewrite Hv).
      rewrite Hcall in Hnodup, Hfree.
      rewrite (AddFunction_rejected name h l err Hv).
      destruct (IH regs l Hholds Hvalid Hnodup Hfree) as (l' & evs & ->).
      eexists _, _. reflexivity.
    + assert (Hcall : validCall (name, h) = true) by now apply validCall_spec.
      rewrite Hcall in Hnodup, Hfree. cbn [rev] in Hnodup.
      rewrite <- app_assoc in Hnodup. cbn [app] in Hnodup.
      inversion Hfree as [|? ? Hname Hrest]; subst.
      assert (Hnew : ~ In name (map fst regs)).
      { rewrite map_app in Hnodup. apply NoDup_app_remove_l in Hnodup.
        cbn [map fst] in Hnodup. now inversion Hnodup. }
      destruct (AddFunction_free regs name h l Hholds Hvalid Hv Hnew Hname) as (l1 & Hadd).
      rewrite Hadd.
      destruct (holds_step regs name h l l1 [] Hholds Hv Hadd) as (Hholds1 & _).
      destruct (IH ((name, h) :: regs) l1 Hholds1 ltac:(now constructor) Hnodup Hrest)
        as (l' & evs & ->).
      eexists _, _. reflexivity.
Qed.

(** X4.  What a plugin holds after a series of registrations that all
    returned: the health and schema-listing endpoints of [NewPlugin] are
    still in place; every call with a valid name has the schema of its
    handler in the function table, its handler at [/name] and the schema
    endpoint at [/name/_schemas]; the table and the mux hold nothing
    else; the valid names are pairwise distinct and none is [_healthz] or
    [_schemas]; the server is the one of [NewPlugin]; and one line is
    logged for each call with an invalid name. *)
Theorem registrations_are_held (calls : list (string * Handler)) (l : Plugin)
    (evs : list Event) :
  register calls NewPlugin = (Returns tt, l, evs) ->
  holds (accepted calls) l
  /\ List.NoDup (map fst (accepted calls))
  /\ Forall (fun call => ~ reservedName call.1) (accepted calls)
  /\ httpServer l = httpServer NewPlugin
  /\ evs = map (fun _ => EvLog "invalid function name") (rejected calls).
Proof.
  intros Hreg.
  destruct (register_holds calls [] NewPlugin l evs holds_new Hreg)
    as (Hholds & Hnodup & Hfree & Hsrv & Hevs).
  rewrite app_nil_r in Hholds, Hnodup.
  split; [| split; [| repeat split; assumption]].
  - apply (holds_same (rev (accepted calls))); [| exact Hholds].
    intros call. symmetry. apply in_rev.
  - specialize (Hnodup (List.NoDup_nil _)). rewrite map_rev in Hnodup.
    apply List.NoDup_rev in Hnodup. now rewrite rev_involutive in Hnodup.
Qed.

Lemma registrations_are_held_witness :
  let calls := [("hello", Example.helloHandler); ("a/b", Example.echoHandler);
                ("echo", Example.echoHandler)] in
  exists l,
    register calls NewPlugin = (Returns tt, l, [EvLog "invalid function name"])
    /\ holds [("hello", Example.helloHandler); ("echo", Example.echoHandler)] l.
Proof.
  intros calls.
  destruct (register calls NewPlugin) as [[o l] evs] eqn:Hreg.
  assert (Ho : o = Returns tt /\ evs = [EvLog "invalid function name"]).
  { split.
    - apply (f_equal (fun x => x.1.1)) in Hreg. vm_compute in Hreg. now subst o.
    - apply (f_equal snd) in Hreg. vm_compute in Hreg. now subst evs. }
  destruct Ho as [-> ->]. exists l. split; [reflexivity |].
  exact (proj1 (registrations_are_held calls l _ Hreg)).
Defined.

(** X5.  A series of registrations on a new plugin returns exactly when
    the names that pass validation are pairwise distinct and none of them
    is [_healthz] or [_schemas]; otherwise one of the calls panics in the
    serve mux and ends the program. *)
Theorem register_returns_iff (calls : list (string * Handler)) :
  ((exists l evs, register calls NewPlugin = (Returns tt, l, evs))
   <-> List.NoDup (map fst (accepted calls))
       /\ Forall (fun call => ~ reservedName call.1) (accepted calls))
  /\ ((forall l evs, register calls NewPlugin <> (Returns tt, l, evs)) ->
      exists reason l evs, register calls NewPlugin = (Panics reason, l, evs)).
Proof.
  split; [split |].
  - intros (l & evs & Hreg).
    destruct (register_holds calls [] NewPlugin l evs holds_new Hreg)
      as (_ & Hnodup & Hfree & _).
    split; [| exact Hfree].
    specialize (Hnodup (List.NoDup_nil _)). rewrite app_nil_r, map_rev in Hnodup.
    apply List.NoDup_rev in Hnodup. now rewrite rev_involutive in Hnodup.
  - intros [Hnodup Hfree].
    apply (register_returns calls [] NewPlugin holds_new (List.Forall_nil _)); [| exact Hfree].
    rewrite app_nil_r, map_rev. now apply List.NoDup_rev.
  - intros Hnot.
    destruct (register calls NewPlugin) as [[o l] evs] eqn:Hreg.
    destruct o as [[] | msg |].
    + now specialize (Hnot l evs).
    + now exists msg, l, evs.
    + exfalso. clear Hnot. revert Hreg. generalize NewPlugin as l0. revert l evs.
      induction calls as [|[name h] rest IH]; intros l evs l0 Hreg; [discriminate |].
      cbn [register] in Hreg.
      destruct (AddFunction name h l0) as [[o1 l1] evs1] eqn:Hadd.
      assert (Ho : o1 <> Blocks).
      { unfold AddFunction in Hadd.
        destruct (validateFunctionName name); [injection Hadd as <- _ _; discriminate |].
        cbn [mux setFunctions] in Hadd. destruct (mux l0); [| injection Hadd as <- _ _; discriminate].
        destruct (Handle _ _ _); [| injection Hadd as <- _ _; discriminate].
        destruct (Handle _ _ _); injection Hadd as <- _ _; discriminate. }
      destruct o1 as [[] | msg |]; [| discriminate | contradiction].
      destruct (register rest l1) as [[o2 l2] evs2] eqn:Hrest.
      injection Hreg as -> _ _. eapply IH, Hrest.
Qed.

(** X6.  Registrations never disturb the health endpoint: after any
    series of registrations that returned, a request for [/_healthz]
    (other than HEAD, whose answer carries no body) is answered with
    status 200 and the body [ok], whatever its body, and no function is
    invoked for it. *)
Theorem health_endpoint_is_kept (penv : PluginEnv) (calls : list (string * Handler))
    (l : Plugin) (evs : list Event) (r : http.Request) :
  register calls NewPlugin = (Returns tt, l, evs) ->
  http.URLPath r = healthPath ->
  http.Method r <> "HEAD" ->
  answer (ServeHTTP penv l) r
  = ({| http.StatusCode := 200; http.Header := []; http.RespBody := "ok" |}, []).
Proof.
  intros Hreg Hpath _.
  destruct (register_holds calls [] NewPlugin l evs holds_new Hreg)
    as ((m & Hm & Hhealth & _) & _).
  unfold answer, ServeHTTP. rewrite Hm, Hpath. cbn [mbind option_bind].
  rewrite Hhealth. reflexivity.
Qed.

Lemma health_endpoint_is_kept_witness :
  answer (ServeHTTP Example.quietEnv
            (register [("hello", Example.helloHandler)] NewPlugin).1.2)
         (getRequest healthPath 0)
  = ({| http.StatusCode := 200; http.Header := []; http.RespBody := "ok" |}, []).
Proof.
  eapply (health_endpoint_is_kept Example.quietEnv [("hello", Example.helloHandler)]
            _ [] (getRequest healthPath 0)).
  - vm_compute. reflexivity.
  - reflexivity.
  - discriminate.
Defined.

Lemma Do_delivers (hc : http.Client) (d : positive) (resp : http.Response) :
  inTime hc d ->
  http.Do hc (delivers d resp)
  = Returns (http.ReplyResponse (http.StatusCode resp) (inl (http.RespBody resp)), Z.pos d).
Proof.
  unfold inTime, http.Do, delivers. cbn [http.delay http.reply]. intros Hin.
  destruct (Z.ltb_spec 0 (http.Timeout hc)); [| reflexivity].
  destruct (Z.ltb_spec (http.Timeout hc) (Z.pos d)); [lia | reflexivity].
Qed.

(** X7.  The schema listing of the client shows the registrations of the
    plugin.  When the GET request of [Schemas] is answered by the server
    of a plugin on which a series of registrations has returned, the
    answer arrives in time and the client's decoder reads back the
    function table that the plugin's encoder wrote, [Schemas] returns a
    table that holds, for every call with a valid name, the schema of its
    handler, and holds no other name. *)
Theorem Schemas_lists_registrations (env : ClientEnv) (penv : PluginEnv)
    (c : Client.Client) (w : World) (calls : list (string * Handler)) (l : Plugin)
    (evs : list Event) (conn : Connection) (hc : http.Client) (d : positive)
    (ctx : nat) (text : string) :
  register calls NewPlugin = (Returns tt, l, evs) ->
  Client.connection c = Some conn ->
  Client.httpClient c = Some hc ->
  get env (gets w) (BaseURL conn +:+ schemasPath)
  = delivers d (answer (ServeHTTP penv l) (getRequest schemasPath ctx)).1 ->
  inTime hc d ->
  encodeSchemas penv (functions l) = inl text ->
  decodeSchemas env text = inl (functions l) ->
  exists schemas w',
    Client.Schemas env c w = (Returns (Some schemas, None), w')
    /\ (forall name h, In (name, h) (accepted calls) ->
          schemas !! name = Some (HandlerSchema h))
    /\ (forall name s, schemas !! name = Some s -> In name (map fst (accepted calls))).
Proof.
  intros Hreg Hconn Hhc Hget Hin Henc Hdec.
  destruct (register_holds calls [] NewPlugin l evs holds_new Hreg)
    as ((m & Hm & _ & Hschemas & Hregs & Htable & _) & _).
  rewrite app_nil_r in Hregs, Htable.
  assert (Hanswer : (answer (ServeHTTP penv l) (getRequest schemasPath ctx)).1
                    = {| http.StatusCode := 200; http.Header := [];
                         http.RespBody := text |}).
  { unfold answer, ServeHTTP, getRequest. cbn [http.URLPath]. rewrite Hm.
    cbn [mbind option_bind]. rewrite Hschemas. cbn [runEntry]. rewrite Henc. reflexivity. }
  rewrite Hanswer in Hget.
  exists (functions l). eexists. split.
  - unfold Client.Schemas. rewrite Hconn, Hhc, Hget, (Do_delivers hc d _ Hin).
    cbn [http.StatusCode http.RespBody]. change (200 =? http.StatusOK) with true.
    cbn [negb]. rewrite Hdec. reflexivity.
  - split.
    + intros name h Hcall. apply Hregs. apply -> in_rev. exact Hcall.
    + intros name s Hn. specialize (Htable name s Hn).
      rewrite map_rev in Htable. apply <- in_rev in Htable. exact Htable.
Qed.

Lemma Schemas_lists_registrations_witness :
  exists schemas w',
    Client.Schemas Scenario.clientEnv Example.patient Example.world0
    = (Returns (Some schemas, None), w')
    /\ schemas !! "hello" = Some (HandlerSchema Example.helloHandler).
Proof.
  destruct (Schemas_lists_registrations Scenario.clientEnv Scenario.serverEnv
              Example.patient Example.world0 [("hello", Example.helloHandler)]
              Scenario.plugin []
              {| FunctionExecutionTimeout := 0; BaseURL := "http://127.0.0.1:40123" |}
              {| http.Timeout := 0 |} 1000 0 Scenario.listing)
    as (schemas & w' & Hcall & Hin & _).
  - vm_compute. reflexivity.
  - reflexivity.
  - reflexivity.
  - reflexivity.
  - unfold inTime. cbn. lia.
  - reflexivity.
  - reflexivity.
  - exists schemas, w'. split; [exact Hcall |].
    apply Hin. left. reflexivity.
Defined.

(** ** Stop (plugin.go) *)

(** X8.  [Stop] can be called again: the second call closes nothing and
    changes nothing.  It leaves the function table as it was, but the
    plugin can register no more: after [Stop], [AddFunction] of a valid
    name writes the table and then panics on the nil mux, while an
    invalid name is still skipped with a log line. *)
Theorem Stop_twice_and_after (l : Plugin) :
  Stop (Stop l).1 = ((Stop l).1, [])
  /\ functions (Stop l).1 = functions l
  /\ (forall name h, validateFunctionName name = None ->
        exists l', AddFunction name h (Stop l).1 = (Panics nilDereference, l', [])
                   /\ functions l' = <[name := HandlerSchema h]> (functions l))
  /\ (forall name h err, validateFunctionName name = Some err ->
        AddFunction name h (Stop l).1
        = (Returns tt, (Stop l).1, [EvLog "invalid function name"])).
Proof.
  split; [reflexivity |]. split; [reflexivity |]. split.
  - intros name h Hv. unfold AddFunction. rewrite Hv. cbn [Stop fst mux setMux setFunctions].
    eexists. split; reflexivity.
  - intros name h err Hv. unfold AddFunction. now rewrite Hv.
Qed.

(** ** The function stub (function.go): how a call ends *)

Section StubOutcomes.

Context {T R : Type} {JT : JSONType T} {JR : JSONType R}.

(** X9.  How [Call] ends.  It never panics.  It returns either an output
    and no error, after one POST of the marshalled input to
    [BaseURL/name], or no output and a [FunctionExecutionError] that
    carries the name of the function.  It fails to return only when the
    stub has no timeout and the plugin never answers. *)
Theorem Call_outcomes (env : StubEnv) (f : Function.Function) (input : option T) :
  let url := BaseURL (Function.clientConnection f) +:+ "/" +:+ Function.name f in
  match Function.Call (R := R) env f input with
  | (Returns (Some _, None), evs) =>
    exists b, Marshal (A := T) input = inl b /\ evs = [EvPost url b]
  | (Returns (None, Some (FunctionExecutionError name _)), evs) =>
    name = Function.Name f
    /\ (evs = [] \/ exists b, Marshal (A := T) input = inl b /\ evs = [EvPost url b])
  | (Blocks, evs) =>
    http.Timeout (Function.httpClient f) <= 0
    /\ exists b, Marshal (A := T) input = inl b
         /\ http.delay (roundTrip env http.MethodPost url b) = None
         /\ evs = [EvPost url b]
  | _ => False
  end.
Proof.
  intros url. unfold Function.Call. fold url.
  destruct (Marshal (A := T) input) as [b | err]; [| split; [reflexivity | now left]].
  destruct (newRequest env http.MethodPost url); [split; [reflexivity | now left] |].
  unfold http.Do.
  destruct (http.delay (roundTrip env http.MethodPost url b)) as [d|] eqn:Hd.
  - destruct ((0 <? _) && _); [split; [reflexivity | right; now exists b] |].
    destruct (http.reply _) as [msg | st body]; [split; [reflexivity | right; now exists b] |].
    destruct body as [out | err]; [| split; [reflexivity | right; now exists b]].
    destruct (negb (st =? http.StatusOK)); [split; [reflexivity | right; now exists b] |].
    destruct (Unmarshal (A := R) out); [now exists b |].
    split; [reflexivity | right; now exists b].
  - destruct (Z.ltb_spec 0 (http.Timeout (Function.httpClient f))).
    + split; [reflexivity | right; now exists b].
    + split; [lia |]. now exists b.
Qed.

(** X10.  [SetTimeout] with a positive duration bounds the call: [Call]
    returns, whatever the plugin does, and the name and the base URL of
    the stub are unchanged. *)
Theorem SetTimeout_bounds_Call (env : StubEnv) (f : Function.Function)
    (input : option T) (timeout : Z) :
  0 < timeout ->
  Function.Name (Function.SetTimeout timeout f) = Function.Name f
  /\ Function.clientConnection (Function.SetTimeout timeout f) = Function.clientConnection f
  /\ exists r evs,
       Function.Call (R := R) env (Function.SetTimeout timeout f) input = (Returns r, evs).
Proof.
  intros Ht. split; [reflexivity |]. split; [reflexivity |].
  unfold Function.Call, Function.SetTimeout, http.Do.
  cbn [Function.httpClient Function.name Function.clientConnection http.Timeout].
  destruct (Marshal (A := T) input) as [b | err]; [| eexists _, _; reflexivity].
  destruct (newRequest env _ _); [eexists _, _; reflexivity |].
  destruct (Z.ltb_spec 0 timeout) as [_ | Hle]; [| lia].
  destruct (http.delay _) as [d|]; [| eexists _, _; reflexivity].
  destruct (true && _); [eexists _, _; reflexivity |].
  destruct (http.reply _) as [msg | st [out | err]]; try (eexists _, _; reflexivity).
  destruct (negb _); [eexists _, _; reflexivity |].
  destruct (Unmarshal (A := R) out); eexists _, _; reflexivity.
Qed.

End StubOutcomes.

Lemma SetTimeout_bounds_Call_witness :
  exists r evs,
    Function.Call (T := Example.In) (R := Example.Out) Example.silentStub
      (Function.SetTimeout 5000 Scenario.helloStub) (Some {| Example.Name := "world" |})
    = (Returns r, evs).
Proof.
  exact (proj2 (proj2 (SetTimeout_bounds_Call (T := Example.In) (R := Example.Out)
                         Example.silentStub Scenario.helloStub
                         (Some {| Example.Name := "world" |}) 5000 ltac:(lia)))).
Defined.

(** ** A call from the stub to the function endpoint *)

Section RemoteCall.

Context {T R E : Type} {JT : JSONType T} {JR : JSONType R} {GE : GoError E}.
Variable fn : nat -> T -> option R * option E.
Variable validator : option Validator.

(** X11.  A call runs the function of the plugin.  When the POST of
    [Call] is answered by the function endpoint and the answer arrives in
    time, [Call] returns what the endpoint makes of the marshalled input:
    a failed validation and an input that the strict decoder refuses come
    back as a [FunctionExecutionError] with status 400 and the text of
    the failure, without the function being run; an error of the function
    comes back with status 500 and its text; and the output of the
    function comes back as what [json.Unmarshal] reads in its encoding
    followed by a newline. *)
Theorem Call_runs_the_function (env : StubEnv) (f : Function.Function)
    (input : option T) (b path : string) (ctx : nat) (d : positive) :
  let url := BaseURL (Function.clientConnection f) +:+ "/" +:+ Function.name f in
  let failed (err : error) : Outcome (option R * option error) :=
    Returns (None, Some err) in
  let read (out : string) : Outcome (option R * option error) :=
    match Unmarshal (A := R) out with
    | inl output => Returns (Some output, None)
    | inr err => failed (FunctionExecutionError (Function.name f) (errorString err))
    end in
  Marshal (A := T) input = inl b ->
  newRequest env http.MethodPost url = None ->
  roundTrip env http.MethodPost url b
  = delivers d (answer (httpHandler fn validator) (postRequest path b ctx)).1 ->
  inTime (Function.httpClient f) d ->
  (forall v, validator = Some v -> Valid (Validate v b) = false ->
     (Function.Call (R := R) env f input).1
     = failed (statusError (Function.name f) 400 (aggregated (Errors (Validate v b))))
     /\ ~ invoked (answer (httpHandler fn validator) (postRequest path b ctx)).2)
  /\ (passesValidation validator b ->
      (Function.Call (R := R) env f input).1
      = match Decode (A := T) true b with
        | inr err => failed (statusError (Function.name f) 400 err)
        | inl x =>
          match fn ctx x with
          | (_, Some e) => failed (statusError (Function.name f) 500 (Error e))
          | (y, None) =>
            match Marshal (A := R) y with
            | inl text => read (text +:+ LF)
            | inr _ => read ""
            end
          end
        end).
Proof.
  intros url failed read Hm Hreq Hrt Hin.
  assert (Hcall : forall resp,
    (answer (httpHandler fn validator) (postRequest path b ctx)).1 = resp ->
    (Function.Call (R := R) env f input).1
    = if negb (http.StatusCode resp =? http.StatusOK)
      then failed (statusError (Function.name f) (http.StatusCode resp) (http.RespBody resp))
      else read (http.RespBody resp)).
  { intros resp Hresp. rewrite Hresp in Hrt. unfold Function.Call. fold url.
    rewrite Hm, Hreq, Hrt, (Do_delivers _ d resp Hin).
    destruct (negb (http.StatusCode resp =? http.StatusOK)); [reflexivity |].
    unfold read, failed. destruct (Unmarshal (http.RespBody resp)); reflexivity. }
  split.
  - intros v Hv Hbad.
    destruct (handler_bad_input fn validator (postRequest path b ctx)
                (aggregated (Errors (Validate v b))) eq_refl) as (Hst & Hbody & Hni).
    { now rewrite (decodeInput_invalid validator (postRequest path b ctx) v b Hv eq_refl Hbad). }
    split; [| exact Hni].
    rewrite (Hcall _ eq_refl), Hst, Hbody. reflexivity.
  - intros Hp. rewrite (Hcall _ eq_refl).
    rewrite (handler_checked fn validator (postRequest path b ctx) b eq_refl eq_refl Hp).
    cbn [postRequest http.Context].
    destruct (Decode true b) as [x | err]; [| reflexivity].
    destruct (fn ctx x) as [y [e|]]; [reflexivity |].
    destruct (Marshal y) as [text | err]; reflexivity.
Qed.

End RemoteCall.

Lemma Call_runs_the_function_witness :
  (Function.Call (T := Example.In) (R := Example.Out) (H0 := Scenario.jsonReply)
     Scenario.stubEnv Scenario.helloStub (Some {| Example.Name := "world" |})).1
  = Returns (Some {| Example.Greeting := "hello, world!" |}, None).
Proof.
  destruct (Call_runs_the_function (JT := Example.jsonIn) (JR := Scenario.jsonReply)
              (GE := Example.errorText) Example.Hello
              (Some Example.minLength3) Scenario.stubEnv Scenario.helloStub
              (Some {| Example.Name := "world" |}) (Example.named "world") "/hello" 0 1000)
    as [_ Hok].
  - reflexivity.
  - reflexivity.
  - reflexivity.
  - unfold inTime. cbn. lia.
  - rewrite (Hok eq_refl). vm_compute. reflexivity.
Defined.

(** ** Supervision of the plugin (pluggo.go) *)

(** X12.  What [Done] gives after [Open].  When [Open] succeeds on an
    idle client with a positive heartbeat interval, [Done] is a new
    channel, open, and the supervising goroutine is started last; with
    the default interval, or any interval that is not positive, [Done] is
    the nil channel and no channel is made. *)
Theorem Open_starts_supervision (env : ClientEnv) (ctx : nat) (c c' : Client.Client)
    (w w' : World) :
  idle c ->
  Client.Open env ctx c w = (Returns None, c', w') ->
  (0 < Client.heartbeatInterval c ->
   exists ch evs,
     Client.Done c' = Some ch /\ chans w' !! ch = Some false
     /\ trace w' = evs ++ [EvMakeChan ch; EvGo (Client.heartbeatInterval c)])
  /\ (Client.heartbeatInterval c <= 0 ->
      Client.Done c' = None /\ chans w' = chans w).
Proof.
  intros Hidle Hopen. rewrite (Open_idle env ctx c w Hidle) in Hopen.
  unfold openIdle in Hopen.
  destruct (stat env (Client.path c)) as [fi | err]; [| discriminate].
  destruct (IsDir fi); [discriminate |].
  destruct (Z.land (Mode fi) Client.executeBits =? 0); [discriminate |].
  destruct (start env (Client.path c)); [discriminate |].
  destruct (readLine env) as [[line | err] |]; [| discriminate | discriminate].
  destruct (strconv.Atoi _) as [n [nerr |]]; [discriminate |].
  destruct (Client.waitForHealth _ _ _) as [[[err |] | msg |] w1] eqn:Hwait;
    try discriminate.
  destruct (waitForHealth_frame _ _ _ _ _ Hwait) as (_ & Hchans & _).
  destruct Hidle as (_ & _ & _ & _ & Hch).
  unfold supervised in Hopen.
  change (Client.heartbeatInterval (connected c w (gostrings.TrimSpace line)))
    with (Client.heartbeatInterval c) in Hopen.
  destruct (Z.ltb_spec 0 (Client.heartbeatInterval c)) as [Hpos | Hnot];
    injection Hopen as <- <-; (split; [intros H | intros H]; try lia).
  - exists (nextId w1), (trace w1). split; [reflexivity |]. split.
    + cbn. apply lookup_insert_eq.
    + cbn. now rewrite <- app_assoc.
  - split; [exact Hch | exact Hchans].
Qed.

Lemma Open_starts_supervision_witness :
  exists c' w' ch,
    Client.Open Example.healthyEnv 0
      (Client.New "./plugin" (Client.WithHeartbeatInterval 1000000 :: Example.quick))
      Example.world0
    = (Returns None, c', w')
    /\ Client.Done c' = Some ch /\ chans w' !! ch = Some false.
Proof.
  pose (c := Client.New "./plugin" (Client.WithHeartbeatInterval 1000000 :: Example.quick)).
  pose (o := Client.Open Example.healthyEnv 0 c Example.world0).
  assert (Hopen : Client.Open Example.healthyEnv 0 c Example.world0
                  = (Returns None, o.1.2, o.2)) by (vm_compute; reflexivity).
  assert (Hidle : idle c).
  { apply New_standard_idle. constructor; [| exact quick_standard].
    right. right. right. now exists 1000000. }
  destruct (Open_starts_supervision Example.healthyEnv 0 c o.1.2 Example.world0 o.2
              Hidle Hopen) as [Hyes _].
  destruct (Hyes ltac:(vm_compute; reflexivity)) as (ch & evs & Hdone & Hch & _).
  exists o.1.2, o.2, ch. split; [exact Hopen |]. split; assumption.
Defined.

(** [Close] on a client whose notification channel is open. *)
Lemma Close_open_channel (env : ClientEnv) (c : Client.Client) (w : World) (ch : nat) :
  Client.heartbeatChan c = Some ch ->
  chans w !! ch = Some false ->
  exists c' w',
    Client.Close env c w = (Returns (killResult env c), c', w')
    /\ idle c' /\ chans w' !! ch = Some true
    /\ (exists evs, trace w' = trace w ++ evs ++ [EvCloseChan ch])
    /\ (forall pid p, Client.commandContext c = Some {| cmdPath := p; Process := Some pid |} ->
          In (EvKill pid) (trace w')).
Proof.
  intros Hch Hopen. unfold Client.Close, killResult.
  set (w1 := match Client.cancel c with Some k => emit (EvCancel k) w | None => w end).
  assert (Hw1 : chans w1 = chans w) by (subst w1; destruct (Client.cancel c); reflexivity).
  assert (Ht1 : exists evs, trace w1 = trace w ++ evs).
  { subst w1. destruct (Client.cancel c) as [k|]; [now exists [EvCancel k] |].
    exists []. now rewrite app_nil_r. }
  destruct Ht1 as (evs1 & Ht1).
  destruct (Client.commandContext c) as [[p [pid|]]|];
    cbn [Client.heartbeatChan Client.setCancel Client.setCommandContext Client.setRun];
    rewrite Hch; cbn [chans emit]; rewrite Hw1, Hopen;
    eexists _, _; (split; [reflexivity |]); (split; [repeat split |]);
    (split; [cbn; apply lookup_insert_eq |]); split.
  - exists (evs1 ++ [EvKill pid]). cbn. rewrite Ht1, <- !app_assoc. reflexivity.
  - intros pid' p' [= _ <-]. cbn. rewrite in_app_iff. left.
    rewrite in_app_iff. right. now left.
  - exists evs1. cbn. rewrite Ht1, <- !app_assoc. reflexivity.
  - intros pid' p' [=].
  - exists evs1. cbn. rewrite Ht1, <- !app_assoc. reflexivity.
  - intros pid' p' [=].
Qed.

(** X13.  [Close] signals [Done].  On a client whose notification
    channel is open, [Close] returns what killing the process answered,
    closes that channel, so that every receiver of [Done] is released,
    and leaves the client idle, with the nil channel as [Done]. *)
Theorem Close_signals_Done (env : ClientEnv) (c : Client.Client) (w : World) (ch : nat) :
  Client.Done c = Some ch ->
  chans w !! ch = Some false ->
  exists c' w',
    Client.Close env c w = (Returns (killResult env c), c', w')
    /\ chans w' !! ch = Some true
    /\ last (trace w') = Some (EvCloseChan ch)
    /\ idle c' /\ Client.Done c' = None.
Proof.
  intros Hch Hopen.
  destruct (Close_open_channel env c w ch Hch Hopen)
    as (c' & w' & Hclose & Hidle & Hclosed & (evs & Htrace) & _).
  exists c', w'. split; [exact Hclose |]. split; [exact Hclosed |].
  split; [| split; [exact Hidle | apply Hidle]].
  rewrite Htrace, app_assoc. apply last_snoc.
Qed.

(** X14.  A tick of the heartbeat.  When the health check of the tick
    succeeds, the client is left as it is and the goroutine goes on.
    When it fails on a client whose notification channel is open, the
    goroutine closes the client and ends: the process is killed, the
    channel is closed, the client is idle, and a [Close] by the caller
    afterwards returns nil and changes nothing. *)
Theorem heartbeat_closes_on_failure (env : ClientEnv) (c : Client.Client) (w w1 : World)
    (ch : nat) (health : option error) :
  Client.Done c = Some ch ->
  chans w !! ch = Some false ->
  Client.waitForHealth env c w = (Returns health, w1) ->
  match health with
  | None => Client.heartbeatTick env c w = (Returns true, c, w1)
  | Some _ =>
    exists c' w',
      Client.heartbeatTick env c w = (Returns false, c', w')
      /\ idle c' /\ chans w' !! ch = Some true
      /\ (forall pid p,
            Client.commandContext c = Some {| cmdPath := p; Process := Some pid |} ->
            In (EvKill pid) (trace w'))
      /\ Client.Close env c' w' = (Returns None, c', w')
  end.
Proof.
  intros Hch Hopen Hwait. unfold Client.heartbeatTick. rewrite Hwait.
  destruct health as [err|]; [| reflexivity].
  destruct (waitForHealth_frame _ _ _ _ _ Hwait) as (_ & Hchans & _).
  rewrite <- Hchans in Hopen.
  destruct (Close_open_channel env c w1 ch Hch Hopen)
    as (c' & w' & Hclose & Hidle & Hclosed & _ & Hkill).
  rewrite Hclose. exists c', w'. split; [reflexivity |]. split; [exact Hidle |].
  split; [exact Hclosed |]. split; [exact Hkill |]. now apply Close_idle.
Qed.

Lemma Close_signals_Done_witness :
  let o := Client.Open Example.healthyEnv 0
             (Client.New "./plugin" (Client.WithHeartbeatInterval 1000000 :: Example.quick))
             Example.world0 in
  exists ch c' w',
    Client.Done o.1.2 = Some ch
    /\ Client.Close Example.healthyEnv o.1.2 o.2 = (Returns None, c', w')
    /\ chans w' !! ch = Some true.
Proof.
  intros o.
  destruct (Close_signals_Done Example.healthyEnv o.1.2 o.2 2)
    as (c' & w' & Hclose & Hclosed & _).
  - vm_compute. reflexivity.
  - vm_compute. reflexivity.
  - exists 2%nat, c', w'. split; [vm_compute; reflexivity |]. split; [| exact Hclosed].
    rewrite Hclose. reflexivity.
Defined.

Lemma heartbeat_closes_on_failure_witness :
  let o := Client.Open Example.healthyEnv 0
             (Client.New "./plugin" (Client.WithHeartbeatInterval 1000000 :: Example.quick))
             Example.world0 in
  exists c' w',
    Client.heartbeatTick Example.deadEnv o.1.2 o.2 = (Returns false, c', w')
    /\ idle c' /\ In (EvKill 1) (trace w').
Proof.
  intros o.
  pose (h := Client.waitForHealth Example.deadEnv o.1.2 o.2).
  pose proof (heartbeat_closes_on_failure Example.deadEnv o.1.2 o.2 h.2 2
                (Some Client.timeoutWaiting)) as H.
  destruct H as (c' & w' & Htick & Hidle & _ & Hkill & _).
  - vm_compute. reflexivity.
  - vm_compute. reflexivity.
  - vm_compute. reflexivity.
  - exists c', w'. split; [exact Htick |]. split; [exact Hidle |].
    apply (Hkill 1%nat "./plugin"). vm_compute. reflexivity.
Defined.

(** ** The schema listing of the client (pluggo.go) *)

(** X15.  How [Schemas] ends on a connected client.  It issues one GET
    request, to [BaseURL/_schemas], and never panics.  It returns either
    a table and no error or no table and a [PluginExecutionError]; it
    fails to return only when the transport client has no timeout and the
    plugin never answers. *)
Theorem Schemas_outcomes (env : ClientEnv) (c : Client.Client) (w : World)
    (conn : Connection) (hc : http.Client) :
  Client.connection c = Some conn ->
  Client.httpClient c = Some hc ->
  let url := BaseURL conn +:+ schemasPath in
  trace (Client.Schemas env c w).2 = trace w ++ [EvGet url]
  /\ gets (Client.Schemas env c w).2 = S (gets w)
  /\ match (Client.Schemas env c w).1 with
     | Returns (Some _, None) => True
     | Returns (None, Some (PluginExecutionError _)) => True
     | Blocks => http.Timeout hc <= 0 /\ http.delay (get env (gets w) url) = None
     | _ => False
     end.
Proof.
  intros Hconn Hhc url. unfold Client.Schemas. rewrite Hconn, Hhc. fold url.
  unfold http.Do.
  destruct (http.delay (get env (gets w) url)) as [d|] eqn:Hd.
  - destruct ((0 <? _) && _); [repeat split |].
    destruct (http.reply _) as [msg | st body]; [repeat split |].
    destruct (negb (st =? http.StatusOK)); [repeat split |].
    destruct body as [text | err]; [| repeat split].
    destruct (decodeSchemas env text); repeat split.
  - destruct (Z.ltb_spec 0 (http.Timeout hc)); repeat split; lia.
Qed.

Lemma Schemas_outcomes_witness :
  trace (Client.Schemas Example.deadEnv Example.patient Example.world0).2
  = [EvGet "http://127.0.0.1:40123/_schemas"]
  /\ exists err,
       (Client.Schemas Example.deadEnv Example.patient Example.world0).1
       = Returns (None, Some (PluginExecutionError err)).
Proof.
  destruct (Schemas_outcomes Example.deadEnv Example.patient Example.world0
              {| FunctionExecutionTimeout := 0; BaseURL := "http://127.0.0.1:40123" |}
              {| http.Timeout := 0 |} eq_refl eq_refl) as (Htrace & _ & _).
  split; [exact Htrace |]. eexists. vm_compute. reflexivity.
Defined.

(** ** A health-check timeout that is negative (pluggo.go) *)

Lemma waitForHealth_past_deadline (env : ClientEnv) (c : Client.Client) (w : World) :
  Client.healthCheckTimeout c < 0 ->
  Client.waitForHealth env c w = (Returns (Some Client.timeoutWaiting), w).
Proof.
  intros Hneg. unfold Client.waitForHealth.
  replace (Z.to_nat (Client.healthCheckTimeout c)) with 0%nat by lia.
  cbn [Nat.add Client.waitLoop].
  destruct (Z.ltb_spec (now w + Client.healthCheckTimeout c) (now w)); [reflexivity | lia].
Qed.

(** X16.  With a negative health-check timeout the deadline of the
    health check has passed before the first probe: [waitForHealth]
    returns the timeout error without a request, so [Open] on an idle
    client never succeeds, issues no GET request and leaves the client
    idle whenever it returns. *)
Theorem negative_health_timeout_never_opens (env : ClientEnv) (ctx : nat)
    (c : Client.Client) (w : World) :
  idle c ->
  Client.healthCheckTimeout c < 0 ->
  Client.waitForHealth env c w = (Returns (Some Client.timeoutWaiting), w)
  /\ (Client.Open env ctx c w).1.1 <> Returns None
  /\ gets (Client.Open env ctx c w).2 = gets w
  /\ (forall r c' w', Client.Open env ctx c w = (Returns r, c', w') -> idle c').
Proof.
  intros Hidle Hneg. split; [now apply waitForHealth_past_deadline |].
  rewrite (Open_idle env ctx c w Hidle). unfold openIdle.
  destruct (stat env (Client.path c)) as [fi | err];
    [| split; [discriminate | split; [reflexivity | now intros r c' w' [= _ <- _]]]].
  destruct (IsDir fi);
    [split; [discriminate | split; [reflexivity | now intros r c' w' [= _ <- _]]] |].
  destruct (Z.land (Mode fi) Client.executeBits =? 0);
    [split; [discriminate | split; [reflexivity | now intros r c' w' [= _ <- _]]] |].
  destruct (start env (Client.path c));
    [split; [discriminate | split; [reflexivity | now intros r c' w' [= _ <- _]]] |].
  destruct (readLine env) as [[line | err] |];
    [| split; [discriminate | split; [reflexivity | now intros r c' w' [= _ <- _]]]
     | split; [discriminate | split; [reflexivity | discriminate]]].
  destruct (strconv.Atoi _) as [n [nerr |]];
    [split; [discriminate | split; [reflexivity | now intros r c' w' [= _ <- _]]] |].
  rewrite waitForHealth_past_deadline by exact Hneg.
  split; [discriminate | split; [reflexivity | now intros r c' w' [= _ <- _]]].
Qed.

Lemma negative_health_timeout_never_opens_witness :
  Client.Open Example.healthyEnv 0
    (Client.New "./plugin" [Client.WithHealthCheckTimeout (-1)]) Example.world0
  = (Returns (Some (PluginExecutionError Client.timeoutWaiting)),
     Client.New "./plugin" [Client.WithHealthCheckTimeout (-1)],
     (Client.Open Example.healthyEnv 0
        (Client.New "./plugin" [Client.WithHealthCheckTimeout (-1)]) Example.world0).2)
  /\ gets (Client.Open Example.healthyEnv 0
             (Client.New "./plugin" [Client.WithHealthCheckTimeout (-1)]) Example.world0).2
     = 0%nat.
Proof.
  assert (Hidle : idle (Client.New "./plugin" [Client.WithHealthCheckTimeout (-1)])).
  { apply New_standard_idle. constructor; [| constructor]. right. left. now exists (-1). }
  destruct (negative_health_timeout_never_opens Example.healthyEnv 0
              (Client.New "./plugin" [Client.WithHealthCheckTimeout (-1)]) Example.world0
              Hidle ltac:(vm_compute; reflexivity)) as (_ & _ & Hgets & _).
  split; [vm_compute; reflexivity | exact Hgets].
Defined.

(** ** The schema of a function, from the stub to the plugin *)

(** X17.  [Function.Schema] reads the schema of the registered handler.
    When the GET request of a stub for a function that a series of
    registrations has registered is answered by the server of the plugin
    (the name is not [.] or [..], whose paths the serve mux rewrites), the
    answer arrives in time and the stub's decoder reads back what the
    plugin's encoder wrote for the schema of the handler, [Schema] returns
    that schema after one GET to [BaseURL/name/_schemas]. *)
Theorem Schema_reads_registered_schema (env : StubEnv) (penv : PluginEnv)
    (decode : string -> Schema + string) (f : Function.Function)
    (calls : list (string * Handler)) (l : Plugin) (evs : list Event) (h : Handler)
    (d : positive) (ctx : nat) (text : string) :
  let name := Function.name f in
  let url := BaseURL (Function.clientConnection f) +:+ "/" +:+ name +:+ schemasPath in
  register calls NewPlugin = (Returns tt, l, evs) ->
  In (name, h) (accepted calls) ->
  name <> "." -> name <> ".." ->
  newRequest env http.MethodGet url = None ->
  roundTrip env http.MethodGet url ""
  = delivers d (answer (ServeHTTP penv l)
                  (getRequest (basePath +:+ name +:+ schemasPath) ctx)).1 ->
  inTime (Function.httpClient f) d ->
  encodeSchema penv (HandlerSchema h) = inl text ->
  decode text = inl (HandlerSchema h) ->
  Function.Schema env decode f = (Returns (Some (HandlerSchema h), None), [EvGet url]).
Proof.
  intros name url Hreg Hcall _ _ Hreq Hrt Hin Henc Hdec.
  destruct (register_holds calls [] NewPlugin l evs holds_new Hreg)
    as ((m & Hm & _ & _ & Hregs & _) & _).
  rewrite app_nil_r in Hregs.
  destruct (Hregs name h ltac:(apply -> in_rev; exact Hcall)) as (Htable & _ & Hroute).
  assert (Hanswer : (answer (ServeHTTP penv l)
                       (getRequest (basePath +:+ name +:+ schemasPath) ctx)).1
                    = {| http.StatusCode := 200; http.Header := [];
                         http.RespBody := text |}).
  { unfold answer, ServeHTTP, getRequest. cbn [http.URLPath]. rewrite Hm.
    cbn [mbind option_bind]. rewrite Hroute. cbn [runEntry]. rewrite Htable.
    cbn [from_option id]. rewrite Henc. reflexivity. }
  rewrite Hanswer in Hrt. unfold Function.Schema. fold name. fold url.
  rewrite Hreq, Hrt, (Do_delivers _ d _ Hin).
  cbn [http.StatusCode http.RespBody]. change (200 =? http.StatusOK) with true.
  cbn [negb]. rewrite Hdec. reflexivity.
Qed.

Lemma Schema_reads_registered_schema_witness :
  Function.Schema Scenario.schemaStubEnv Scenario.decodeSchema Scenario.helloStub
  = (Returns (Some (HandlerSchema Example.helloHandler), None),
     [EvGet "http://127.0.0.1:40123/hello/_schemas"]).
Proof.
  apply (Schema_reads_registered_schema Scenario.schemaStubEnv Scenario.serverEnv
           Scenario.decodeSchema Scenario.helloStub [("hello", Example.helloHandler)]
           Scenario.plugin [] Example.helloHandler 1000 0 ("{}" +:+ LF)).
  - vm_compute. reflexivity.
  - left. reflexivity.
  - discriminate.
  - discriminate.
  - reflexivity.
  - reflexivity.
  - unfold inTime. cbn. lia.
  - reflexivity.
  - reflexivity.
Defined.

(** ** How long health polling takes (pluggo.go) *)

Lemma Do_took_bounded (hc : http.Client) (x : http.Exchange) (r : http.Reply) (took : Z) :
  0 < http.Timeout hc -> http.Do hc x = Returns (r, took) -> took <= http.Timeout hc.
Proof.
  intros Ht. unfold http.Do. destruct (http.delay x) as [d|].
  - destruct (Z.ltb_spec 0 (http.Timeout hc)); [| lia]. cbn [andb].
    destruct (Z.ltb_spec (http.Timeout hc) (Z.pos d)); intros [= <- <-]; lia.
  - destruct (Z.ltb_spec 0 (http.Timeout hc)); [| lia]. intros [= <- <-]. lia.
Qed.

(** The clock when the loop of [waitForHealth] ends: a success comes at
    most one probe after the deadline, a timeout at most one probe and
    one sleep after it. *)
Lemma waitLoop_ends_by (env : ClientEnv) (c : Client.Client) (hc : http.Client)
    (deadline late : Z) :
  Client.httpClient c = Some hc ->
  0 < http.Timeout hc ->
  (forall n, Z.of_N (oversleep env n) <= late) ->
  forall fuel w o w',
  Client.waitLoop env c deadline fuel w = Some (o, w') ->
  now w <= now w'
  /\ (o = Returns None -> now w' <= deadline + http.Timeout hc)
  /\ now w' <= Z.max (now w)
                  (deadline + http.Timeout hc
                   + Z.max 0 (Client.healthCheckInterval c) + late).
Proof.
  intros Hhc Ht Hlate. induction fuel as [|fuel IH]; intros w o w' H; [discriminate |].
  cbn [Client.waitLoop] in H.
  destruct (Z.ltb_spec deadline (now w)) as [Hpast | Hin].
  { injection H as <- <-. split; [lia |]. split; [discriminate | lia]. }
  destruct (Client.connection c) as [conn|];
    [| injection H as <- <-; split; [lia |]; split; [discriminate | lia]].
  rewrite Hhc in H.
  destruct (http.Do hc _) as [[r took] | msg |] eqn:Hdo.
  - pose proof (Do_took_positive _ _ _ _ Hdo) as Hpos.
    pose proof (Do_took_bounded _ _ _ _ Ht Hdo) as Hbound.
    specialize (Hlate (gets w)).
    assert (Hretry :
      Client.waitLoop env c deadline fuel
        (Sleep (Client.healthCheckInterval c) (oversleep env (gets w))
           (elapse took (countGet (emit (EvGet (BaseURL conn +:+ healthPath)) w))))
      = Some (o, w') ->
      now w <= now w'
      /\ (o = Returns None -> now w' <= deadline + http.Timeout hc)
      /\ now w' <= Z.max (now w)
                      (deadline + http.Timeout hc
                       + Z.max 0 (Client.healthCheckInterval c) + late)).
    { intros Hrec. apply IH in Hrec as (H1 & H2 & H3). cbn in H1, H3.
      split; [lia |]. split; [exact H2 | lia]. }
    destruct r as [msg | st body]; [exact (Hretry H) |].
    destruct (st =? http.StatusOK); [| exact (Hretry H)].
    injection H as <- <-. cbn. split; [lia |]. split; [intros _; lia | lia].
  - injection H as <- <-. cbn. split; [lia |]. split; [discriminate | lia].
  - injection H as <- <-. cbn. split; [lia |]. split; [discriminate | lia].
Qed.

(** X18.  Health polling takes a bounded time.  For a connected client
    whose transport client has a positive timeout, when no sleep returns
    more than [late] after its time, [waitForHealth] returns; a success
    comes no later than one transport timeout after the deadline, and
    the timeout error no later than one transport timeout, one poll
    interval and [late] after it. *)
Theorem waitForHealth_ends_by (env : ClientEnv) (c : Client.Client) (w : World)
    (conn : Connection) (hc : http.Client) (late : Z) :
  Client.connection c = Some conn ->
  Client.httpClient c = Some hc ->
  0 < http.Timeout hc ->
  (forall n, Z.of_N (oversleep env n) <= late) ->
  exists r w',
    Client.waitForHealth env c w = (Returns r, w')
    /\ now w <= now w'
    /\ (r = None ->
        now w' <= now w + Client.healthCheckTimeout c + http.Timeout hc)
    /\ now w' <= Z.max (now w)
                    (now w + Client.healthCheckTimeout c + http.Timeout hc
                     + Z.max 0 (Client.healthCheckInterval c) + late).
Proof.
  intros Hconn Hhc Ht Hlate.
  destruct (waitLoop_polls env c conn hc (now w + Client.healthCheckTimeout c)
              Hconn Hhc (fun n => Do_with_timeout hc _ Ht)
              (Z.to_nat (Client.healthCheckTimeout c) + 2) w ltac:(lia))
    as (r & w' & n & Hloop & _).
  destruct (waitLoop_ends_by env c hc (now w + Client.healthCheckTimeout c) late
              Hhc Ht Hlate _ w _ w' Hloop) as (H1 & H2 & H3).
  exists r, w'. unfold Client.waitForHealth. rewrite Hloop.
  split; [reflexivity |]. split; [exact H1 |]. split; [| exact H3].
  intros ->. now apply H2.
Qed.

Lemma waitForHealth_ends_by_witness :
  exists w',
    Client.waitForHealth Example.deadEnv
      (connected (Client.New "./plugin" Example.quick) Example.world0 "40123")
      Example.world0
    = (Returns (Some Client.timeoutWaiting), w')
    /\ now w' <= 20000 + 5000 + 2000.
Proof.
  destruct (waitForHealth_ends_by Example.deadEnv
              (connected (Client.New "./plugin" Example.quick) Example.world0 "40123")
              Example.world0 _ _ 0 eq_refl eq_refl ltac:(reflexivity)
              ltac:(intros n; cbn; lia))
    as (r & w' & Hwait & _ & _ & Hbound).
  assert (Hr : r = Some Client.timeoutWaiting).
  { vm_compute in Hwait. now injection Hwait as <- _. }
  subst r. exists w'. split; [exact Hwait |].
  change (now Example.world0) with 0 in Hbound.
  change (Client.healthCheckTimeout _) with 20000 in Hbound.
  change (http.Timeout _) with 5000 in Hbound.
  change (Client.healthCheckInterval _) with 2000 in Hbound. lia.
Defined.

(** ** The handshake has no timeout (pluggo.go) *)

(** X19.  [Open] waits for the port line without limit.  On an idle
    client whose executable starts, when no line ever comes from the
    standard output of the process, [Open] does not return; the process
    has been started and is not killed, no request is issued, and none of
    the timeouts of the client applies. *)
Theorem Open_waits_for_the_port_line (env : ClientEnv) (ctx : nat) (c : Client.Client)
    (w : World) (fileInfo : FileInfo) :
  idle c ->
  stat env (Client.path c) = inl fileInfo ->
  IsDir fileInfo = false ->
  ~ notExecutable fileInfo ->
  start env (Client.path c) = None ->
  readLine env = None ->
  exists c' w' pid,
    Client.Open env ctx c w = (Blocks, c', w')
    /\ trace w' = trace w ++ [EvStart (Client.path c) pid]
    /\ Client.commandContext c'
       = Some {| cmdPath := Client.path c; Process := Some pid |}
    /\ Client.connection c' = None.
Proof.
  intros Hidle Hstat Hdir Hexec Hstart Hread.
  rewrite (Open_idle env ctx c w Hidle). unfold openIdle.
  rewrite Hstat, Hdir.
  destruct (Z.eqb_spec (Z.land (Mode fileInfo) Client.executeBits) 0) as [Hx | _];
    [contradiction |].
  rewrite Hstart, Hread.
  exists (running c w), (spawned c w), (S (nextId w)).
  split; [reflexivity |]. split; [reflexivity |]. split; [reflexivity |].
  apply Hidle.
Qed.

Lemma Open_waits_for_the_port_line_witness :
  (Client.Open Scenario.muteEnv 0 (Client.New "./plugin" Example.quick) Example.world0).1.1
  = Blocks.
Proof.
  destruct (Open_waits_for_the_port_line Scenario.muteEnv 0
              (Client.New "./plugin" Example.quick)
              Example.world0 {| IsDir := false; Mode := 493 |}
              (New_standard_idle "./plugin" Example.quick quick_standard)
              eq_refl eq_refl ltac:(discriminate) eq_refl eq_refl)
    as (c' & w' & pid & Hopen & _).
  now rewrite Hopen.
Defined.

(** ** Requests to a registered function (plugin.go) *)

(** X20.  After a series of registrations that returned, a request whose
    path is [/name] for a registered function (the name is not [.] or
    [..], whose paths the serve mux rewrites) is handled by the handler
    registered under that name, and by nothing else. *)
Theorem registered_function_is_served (penv : PluginEnv) (calls : list (string * Handler))
    (l : Plugin) (evs : list Event) (name : string) (h : Handler) (r : http.Request)
    (w : http.ResponseWriter) :
  register calls NewPlugin = (Returns tt, l, evs) ->
  In (name, h) (accepted calls) ->
  name <> "." -> name <> ".." ->
  http.URLPath r = basePath +:+ name ->
  ServeHTTP penv l r w = HTTPHandler h r w.
Proof.
  intros Hreg Hcall _ _ Hpath.
  destruct (register_holds calls [] NewPlugin l evs holds_new Hreg)
    as ((m & Hm & _ & _ & Hregs & _) & _).
  rewrite app_nil_r in Hregs.
  destruct (Hregs name h ltac:(apply -> in_rev; exact Hcall)) as (_ & Hroute & _).
  unfold ServeHTTP. rewrite Hm, Hpath. cbn [mbind option_bind]. now rewrite Hroute.
Qed.

Lemma registered_function_is_served_witness :
  answer (ServeHTTP Scenario.serverEnv Scenario.plugin)
         (postRequest "/hello" (Example.named "world") 0)
  = answer (HTTPHandler Example.helloHandler)
           (postRequest "/hello" (Example.named "world") 0).
Proof.
  unfold answer.
  rewrite (registered_function_is_served Scenario.serverEnv
             [("hello", Example.helloHandler)] Scenario.plugin [] "hello"
             Example.helloHandler (postRequest "/hello" (Example.named "world") 0)
             http.newResponseWriter).
  - reflexivity.
  - vm_compute. reflexivity.
  - left. reflexivity.
  - discriminate.
  - discriminate.
  - reflexivity.
Defined.

(** ** The plugin [reverse]: the loop *)

Lemma insert_middle {A} (a : list A) (x y : A) (rest : list A) :
  <[length a := y]> (a ++ x :: rest) = a ++ y :: rest.
Proof.
  induction a as [|z a IH]; [reflexivity |]. cbn [length app].
  change (<[S (length a) := y]> (z :: a ++ x :: rest))
    with (z :: <[length a := y]> (a ++ x :: rest)).
  now rewrite IH.
Qed.

(** The loop reverses the part of the slice between its two indices. *)
Lemma swapLoop_rev (fuel : nat) :
  forall a m b : list Z,
  (length m <= 2 * fuel)%nat ->
  reverse.swapLoop fuel (Z.of_nat (length a)) (Z.of_nat (length a + length m) - 1)
    (a ++ m ++ b)
  = a ++ rev m ++ b.
Proof.
  induction fuel as [|fuel IH]; intros a m b Hfuel.
  - destruct m; [reflexivity | cbn in Hfuel; lia].
  - cbn [reverse.swapLoop].
    destruct m as [|x m].
    { destruct (Z.ltb_spec (Z.of_nat (length a)) (Z.of_nat (length a + length (@nil Z)) - 1));
        [cbn in *; lia | reflexivity]. }
    destruct m as [|y m] using rev_ind.
    { destruct (Z.ltb_spec (Z.of_nat (length a)) (Z.of_nat (length a + length [x]) - 1));
        [cbn in *; lia | reflexivity]. }
    clear IHm.
    assert (Hlen : length (x :: m ++ [y]) = S (S (length m))).
    { cbn. rewrite length_app. cbn. lia. }
    destruct (Z.ltb_spec (Z.of_nat (length a))
                (Z.of_nat (length a + length (x :: m ++ [y])) - 1)) as [_ | Hge];
      [| rewrite Hlen in Hge; lia].
    rewrite Nat2Z.id.
    replace (Z.to_nat (Z.of_nat (length a + length (x :: m ++ [y])) - 1))
      with (length (a ++ x :: m)) by (rewrite Hlen, length_app; cbn; lia).
    assert (Hshape : a ++ (x :: m ++ [y]) ++ b = (a ++ x :: m) ++ y :: b).
    { rewrite <- !app_assoc. cbn. rewrite <- !app_assoc. reflexivity. }
    rewrite Hshape at 2. rewrite nth_middle.
    replace (a ++ (x :: m ++ [y]) ++ b) with (a ++ x :: (m ++ [y] ++ b))
      by (cbn; rewrite <- !app_assoc; reflexivity).
    rewrite nth_middle, insert_middle.
    replace (a ++ y :: m ++ [y] ++ b) with ((a ++ y :: m) ++ y :: b)
      by (rewrite <- !app_assoc; reflexivity).
    replace (length (a ++ x :: m)) with (length (a ++ y :: m))
      by (rewrite !length_app; reflexivity).
    rewrite insert_middle.
    replace ((a ++ y :: m) ++ x :: b) with ((a ++ [y]) ++ m ++ (x :: b))
      by (rewrite <- !app_assoc; reflexivity).
    replace (Z.of_nat (length a) + 1) with (Z.of_nat (length (a ++ [y])))
      by (rewrite length_app; cbn; lia).
    replace (Z.of_nat (length a + length (x :: m ++ [y])) - 1 - 1)
      with (Z.of_nat (length (a ++ [y]) + length m) - 1)
      by (rewrite Hlen, length_app; cbn; lia).
    rewrite IH by (rewrite Hlen in Hfuel; lia).
    cbn [rev]. rewrite rev_app_distr. cbn [rev app].
    rewrite <- !app_assoc. reflexivity.
Qed.

Lemma swapLoop_whole (runes : list Z) :
  reverse.swapLoop (length runes) 0 (Z.of_nat (length runes) - 1) runes = rev runes.
Proof.
  pose proof (swapLoop_rev (length runes) [] runes [] ltac:(lia)) as H.
  cbn [length app Nat.add] in H. now rewrite !app_nil_r in H.
Qed.

(** ** UTF-8: the bit operations as arithmetic *)

Lemma lor_high_low (k p a b : Z) :
  0 <= k -> p = 2 ^ k -> 0 <= b < p -> Z.lor (a * p) b = a * p + b.
Proof.
  intros Hk -> Hb. symmetry. apply Z.add_nocarry_lor.
  apply Z.bits_inj'. intros n Hn. rewrite Z.land_spec, Z.bits_0.
  destruct (Z.lt_ge_cases n k) as [Hlow | Hhigh].
  - now rewrite Z.mul_pow2_bits_low.
  - rewrite <- (Z.mod_small b (2 ^ k)) by exact Hb.
    rewrite Z.mod_pow2_bits_high by lia. apply andb_false_r.
Qed.

Ltac masks_to_mod :=
  change utf8.mask2 with (Z.ones 5); change utf8.mask3 with (Z.ones 4);
  change utf8.mask4 with (Z.ones 3); change utf8.maskx with (Z.ones 6);
  rewrite ?Z.land_ones, ?Z.shiftl_mul_pow2 by lia;
  change (2 ^ 3) with 8; change (2 ^ 4) with 16; change (2 ^ 5) with 32;
  change (2 ^ 6) with 64; change (2 ^ 12) with 4096; change (2 ^ 18) with 262144.

Lemma value2 (b0 b1 : Z) :
  Z.lor (Z.shiftl (Z.land b0 utf8.mask2) 6) (Z.land b1 utf8.maskx)
  = b0 mod 32 * 64 + b1 mod 64.
Proof.
  masks_to_mod.
  pose proof (Z.mod_pos_bound b1 64 ltac:(lia)) as H1.
  now rewrite (lor_high_low 6 64) by (reflexivity || lia).
Qed.

Lemma value3 (b0 b1 b2 : Z) :
  Z.lor (Z.lor (Z.shiftl (Z.land b0 utf8.mask3) 12) (Z.shiftl (Z.land b1 utf8.maskx) 6))
        (Z.land b2 utf8.maskx)
  = b0 mod 16 * 4096 + b1 mod 64 * 64 + b2 mod 64.
Proof.
  masks_to_mod.
  pose proof (Z.mod_pos_bound b1 64 ltac:(lia)) as H1.
  pose proof (Z.mod_pos_bound b2 64 ltac:(lia)) as H2.
  rewrite (lor_high_low 12 4096) by (reflexivity || lia).
  replace (b0 mod 16 * 4096 + b1 mod 64 * 64)
    with ((b0 mod 16 * 64 + b1 mod 64) * 64) by lia.
  rewrite (lor_high_low 6 64) by (reflexivity || lia). lia.
Qed.

Lemma value4 (b0 b1 b2 b3 : Z) :
  Z.lor (Z.lor (Z.lor (Z.shiftl (Z.land b0 utf8.mask4) 18)
                      (Z.shiftl (Z.land b1 utf8.maskx) 12))
               (Z.shiftl (Z.land b2 utf8.maskx) 6))
        (Z.land b3 utf8.maskx)
  = b0 mod 8 * 262144 + b1 mod 64 * 4096 + b2 mod 64 * 64 + b3 mod 64.
Proof.
  masks_to_mod.
  pose proof (Z.mod_pos_bound b1 64 ltac:(lia)) as H1.
  pose proof (Z.mod_pos_bound b2 64 ltac:(lia)) as H2.
  pose proof (Z.mod_pos_bound b3 64 ltac:(lia)) as H3.
  rewrite (lor_high_low 18 262144) by (reflexivity || lia).
  replace (b0 mod 8 * 262144 + b1 mod 64 * 4096)
    with ((b0 mod 8 * 64 + b1 mod 64) * 4096) by lia.
  rewrite (lor_high_low 12 4096) by (reflexivity || lia).
  replace ((b0 mod 8 * 64 + b1 mod 64) * 4096 + b2 mod 64 * 64)
    with (((b0 mod 8 * 64 + b1 mod 64) * 64 + b2 mod 64) * 64) by lia.
  rewrite (lor_high_low 6 64) by (reflexivity || lia). lia.
Qed.

(** The classes of the first byte, by its value. *)
Lemma first_by_value (b0 : Z) :
  128 <= b0 < 256 ->
  utf8.first b0
  = if b0 <? 0xC2 then utf8.xx
    else if b0 <? 0xE0 then utf8.s1
    else if b0 =? 0xE0 then utf8.s2
    else if b0 =? 0xED then utf8.s4
    else if b0 <? 0xF0 then utf8.s3
    else if b0 =? 0xF0 then utf8.s5
    else if b0 <? 0xF4 then utf8.s6
    else if b0 =? 0xF4 then utf8.s7
    else utf8.xx.
Proof.
  intros Hb. unfold utf8.first.
  repeat match goal with
    | |- context [if ?a <? ?b then _ else _] => destruct (Z.ltb_spec a b)
    | |- context [if ?a =? ?b then _ else _] => destruct (Z.eqb_spec a b)
    end; try lia; reflexivity.
Qed.

Ltac first_is cls :=
  match goal with
  | |- utf8.first ?b = _ =>
    rewrite (first_by_value b) by lia;
    repeat match goal with
      | |- context [if ?x <? ?y then _ else _] => destruct (Z.ltb_spec x y); try lia
      | |- context [if ?x =? ?y then _ else _] => destruct (Z.eqb_spec x y); try lia
      end; reflexivity
  end.

Ltac inside_ranges :=
  unfold utf8.outside, utf8.locb, utf8.hicb;
  repeat match goal with
    | |- context [?x <? ?y] => destruct (Z.ltb_spec x y); try lia
    end; cbn [orb].

(** The decoding of a sequence of two, three and four bytes that the
    tables accept. *)
Lemma DecodeRune_two (b0 b1 : Z) (rest : list Z) :
  0xC2 <= b0 < 0xE0 -> 0x80 <= b1 <= 0xBF ->
  utf8.DecodeRune (b0 :: b1 :: rest) = (b0 mod 32 * 64 + b1 mod 64, 2%nat).
Proof.
  intros H0 H1.
  assert (Hf : utf8.first b0 = utf8.s1) by first_is utf8.s1.
  unfold utf8.DecodeRune. rewrite Hf. decode_consts.
  cbn -[Z.land Z.lor Z.shiftl utf8.outside].
  inside_ranges. now rewrite value2.
Qed.

Lemma DecodeRune_three (b0 b1 b2 : Z) (rest : list Z) :
  0xE0 <= b0 <= 0xEF -> 0x80 <= b1 <= 0xBF ->
  (b0 = 0xE0 -> 0xA0 <= b1) -> (b0 = 0xED -> b1 <= 0x9F) ->
  0x80 <= b2 <= 0xBF ->
  utf8.DecodeRune (b0 :: b1 :: b2 :: rest)
  = (b0 mod 16 * 4096 + b1 mod 64 * 64 + b2 mod 64, 3%nat).
Proof.
  intros H0 H1 Hlow Hhigh H2.
  assert (Hf : utf8.first b0 = utf8.s2 /\ b0 = 0xE0
               \/ utf8.first b0 = utf8.s4 /\ b0 = 0xED
               \/ utf8.first b0 = utf8.s3 /\ b0 <> 0xE0 /\ b0 <> 0xED).
  { destruct (Z.eq_dec b0 0xE0) as [-> | Hne1]; [left; split; reflexivity |].
    destruct (Z.eq_dec b0 0xED) as [-> | Hne2]; [right; left; split; reflexivity |].
    right. right. split; [first_is utf8.s3 | split; assumption]. }
  unfold utf8.DecodeRune.
  destruct Hf as [[-> Hb] | [[-> Hb] | [-> [Hb1 Hb2]]]]; decode_consts;
    cbn -[Z.land Z.lor Z.shiftl utf8.outside];
    [specialize (Hlow Hb) | specialize (Hhigh Hb) |];
    inside_ranges; now rewrite value3.
Qed.

Lemma DecodeRune_four (b0 b1 b2 b3 : Z) (rest : list Z) :
  0xF0 <= b0 <= 0xF4 -> 0x80 <= b1 <= 0xBF ->
  (b0 = 0xF0 -> 0x90 <= b1) -> (b0 = 0xF4 -> b1 <= 0x8F) ->
  0x80 <= b2 <= 0xBF -> 0x80 <= b3 <= 0xBF ->
  utf8.DecodeRune (b0 :: b1 :: b2 :: b3 :: rest)
  = (b0 mod 8 * 262144 + b1 mod 64 * 4096 + b2 mod 64 * 64 + b3 mod 64, 4%nat).
Proof.
  intros H0 H1 Hlow Hhigh H2 H3.
  assert (Hf : utf8.first b0 = utf8.s5 /\ b0 = 0xF0
               \/ utf8.first b0 = utf8.s7 /\ b0 = 0xF4
               \/ utf8.first b0 = utf8.s6 /\ b0 <> 0xF0 /\ b0 <> 0xF4).
  { destruct (Z.eq_dec b0 0xF0) as [-> | Hne1]; [left; split; reflexivity |].
    destruct (Z.eq_dec b0 0xF4) as [-> | Hne2]; [right; left; split; reflexivity |].
    right. right. split; [first_is utf8.s6 | split; assumption]. }
  unfold utf8.DecodeRune.
  destruct Hf as [[-> Hb] | [[-> Hb] | [-> [Hb1 Hb2]]]]; decode_consts;
    cbn -[Z.land Z.lor Z.shiftl utf8.outside];
    [specialize (Hlow Hb) | specialize (Hhigh Hb) |];
    inside_ranges; now rewrite value4.
Qed.

(** ** UTF-8: encoding *)

Ltac euclid := Z.to_euclidean_division_equations; lia.

Lemma lead2 (x : Z) : 0 <= x < 32 -> Z.lor runtime.t2 x = 192 + x.
Proof.
  intros Hx. change runtime.t2 with (6 * 32).
  now rewrite (lor_high_low 5 32) by (reflexivity || lia).
Qed.

Lemma lead3 (x : Z) : 0 <= x < 16 -> Z.lor runtime.t3 x = 224 + x.
Proof.
  intros Hx. change runtime.t3 with (14 * 16).
  now rewrite (lor_high_low 4 16) by (reflexivity || lia).
Qed.

Lemma lead4 (x : Z) : 0 <= x < 8 -> Z.lor runtime.t4 x = 240 + x.
Proof.
  intros Hx. change runtime.t4 with (30 * 8).
  now rewrite (lor_high_low 3 8) by (reflexivity || lia).
Qed.

Lemma continuation (x : Z) :
  Z.lor runtime.tx (Z.land (runtime.byte x) runtime.maskx) = 128 + x mod 64.
Proof.
  change runtime.maskx with (Z.ones 6). rewrite Z.land_ones by lia.
  change (2 ^ 6) with 64. change runtime.tx with (2 * 64).
  rewrite (lor_high_low 6 64) by (reflexivity || lia || apply Z.mod_pos_bound; lia).
  unfold runtime.byte. euclid.
Qed.

(** The encoding of a scalar value, byte by byte. *)
Lemma encoderune_scalar (r : Z) :
  scalarValue r ->
  runtime.encoderune r
  = if r <=? 0x7F then [r]
    else if r <=? 0x7FF then [192 + r / 64; 128 + r mod 64]
    else if r <=? 0xFFFF then
      [224 + r / 4096; 128 + r / 64 mod 64; 128 + r mod 64]
    else
      [240 + r / 262144; 128 + r / 4096 mod 64; 128 + r / 64 mod 64; 128 + r mod 64].
Proof.
  intros [Hr Hs]. unfold runtime.encoderune, runtime.uint32.
  rewrite (Z.mod_small r (2 ^ 32)) by lia.
  unfold runtime.rune1Max, runtime.rune2Max, runtime.rune3Max, runtime.maxRune,
    runtime.surrogateMin, runtime.surrogateMax.
  rewrite !continuation, !Z.shiftr_div_pow2 by lia.
  change (2 ^ 6) with 64. change (2 ^ 12) with 4096. change (2 ^ 18) with 262144.
  destruct (Z.leb_spec r 0x7F) as [H1 | H1].
  { unfold runtime.byte. now rewrite Z.mod_small by lia. }
  destruct (Z.leb_spec r 0x7FF) as [H2 | H2].
  { rewrite lead2 by (unfold runtime.byte; euclid).
    unfold runtime.byte. do 2 f_equal. euclid. }
  destruct (Z.ltb_spec 0x10FFFF r) as [H3 | H3]; [lia |].
  destruct (Z.leb_spec 0xD800 r) as [H4 | H4];
    [destruct (Z.leb_spec r 0xDFFF) as [H5 | H5]; [lia |] |]; cbn [orb andb].
  - destruct (Z.leb_spec r 0xFFFF) as [H6 | H6].
    + rewrite lead3 by (unfold runtime.byte; euclid).
      unfold runtime.byte. do 2 f_equal. euclid.
    + rewrite lead4 by (unfold runtime.byte; euclid).
      unfold runtime.byte. do 2 f_equal. euclid.
  - destruct (Z.leb_spec r 0xFFFF) as [H6 | H6]; [| lia].
    rewrite lead3 by (unfold runtime.byte; euclid).
    unfold runtime.byte. do 2 f_equal. euclid.
Qed.

(** Decoding reads back the encoding of a scalar value, whatever
    follows it. *)
Lemma DecodeRune_encoderune (r : Z) (rest : list Z) :
  scalarValue r ->
  utf8.DecodeRune (runtime.encoderune r ++ rest)
  = (r, length (runtime.encoderune r)).
Proof.
  intros Hv. rewrite (encoderune_scalar r Hv). destruct Hv as [Hr Hs].
  destruct (Z.leb_spec r 0x7F) as [H1 | H1].
  { cbn [app length]. apply DecodeRune_ascii. lia. }
  destruct (Z.leb_spec r 0x7FF) as [H2 | H2].
  { cbn [app length]. rewrite DecodeRune_two by euclid. f_equal. euclid. }
  destruct (Z.leb_spec r 0xFFFF) as [H3 | H3].
  { cbn [app length]. rewrite DecodeRune_three by euclid. f_equal. euclid. }
  cbn [app length]. rewrite DecodeRune_four by euclid. f_equal. euclid.
Qed.

Lemma RuneError_scalar : scalarValue utf8.RuneError.
Proof. unfold scalarValue, utf8.RuneError. lia. Qed.

(** Whatever the bytes, a decoded rune is a scalar value. *)
Lemma DecodeRune_scalar (p : list Z) :
  Forall (fun b => 0 <= b < 256) p -> scalarValue (utf8.DecodeRune p).1.
Proof.
  intros Hp. destruct p as [|b0 rest]; [apply RuneError_scalar |].
  inversion Hp as [|? ? Hb0 Hrest]; subst.
  destruct (Z_lt_ge_dec b0 128) as [Hlow | Hhigh].
  { rewrite DecodeRune_ascii by lia. unfold scalarValue. cbn [fst]. lia. }
  pose proof (first_by_value b0 ltac:(lia)) as Hf.
  repeat match type of Hf with
    | context [if ?x <? ?y then _ else _] => destruct (Z.ltb_spec x y)
    | context [if ?x =? ?y then _ else _] => destruct (Z.eqb_spec x y)
    end; try lia;
    unfold utf8.DecodeRune; rewrite Hf;
    decode_consts; cbn -[Z.land Z.lor Z.shiftl utf8.outside Nat.ltb Nat.leb length];
    try apply RuneError_scalar;
    (destruct (_ <? _)%nat; [apply RuneError_scalar |]);
    (destruct rest as [|b1 rest1]; [apply RuneError_scalar |]);
    (destruct (utf8.outside _ _ b1) eqn:Ho1; [apply RuneError_scalar |]);
    apply outside_false in Ho1; cbn [Nat.leb]; cbv iota;
    try (destruct rest1 as [|b2 rest2]; [apply RuneError_scalar |];
         (destruct (utf8.outside _ _ b2) eqn:Ho2; [apply RuneError_scalar |]);
         apply outside_false in Ho2;
         try (destruct rest2 as [|b3 rest3]; [apply RuneError_scalar |];
              (destruct (utf8.outside _ _ b3) eqn:Ho3; [apply RuneError_scalar |]);
              apply outside_false in Ho3));
    cbn [fst]; unfold utf8.locb, utf8.hicb in *;
    rewrite ?value2, ?value3, ?value4; unfold scalarValue; euclid.
Qed.

Lemma rangeLoop_scalar (fuel : nat) :
  forall p, Forall (fun b => 0 <= b < 256) p ->
  Forall scalarValue (utf8.rangeLoop fuel p).
Proof.
  induction fuel as [|fuel IH]; intros p Hp; [constructor |].
  cbn [utf8.rangeLoop]. destruct p as [|b0 rest]; [constructor |].
  pose proof (DecodeRune_scalar (b0 :: rest) Hp) as Hr.
  destruct (utf8.DecodeRune (b0 :: rest)) as [r w]. cbn [fst] in Hr.
  constructor; [exact Hr |]. apply IH. now apply Forall_drop.
Qed.

Lemma encoderune_bytes (r : Z) :
  scalarValue r ->
  runtime.encoderune r <> [] /\ Forall (fun b => 0 <= b < 256) (runtime.encoderune r).
Proof.
  intros Hv. rewrite (encoderune_scalar r Hv). destruct Hv as [Hr Hs].
  destruct (Z.leb_spec r 0x7F); [split; [discriminate | repeat constructor; lia] |].
  destruct (Z.leb_spec r 0x7FF); [split; [discriminate | repeat constructor; euclid] |].
  destruct (Z.leb_spec r 0xFFFF); split; try discriminate; repeat constructor; euclid.
Qed.

Lemma encoded_bytes (rs : list Z) :
  Forall scalarValue rs -> Forall (fun b => 0 <= b < 256) (flat_map runtime.encoderune rs).
Proof.
  induction 1 as [|r rs Hr _ IH]; [constructor |].
  cbn [flat_map]. apply Forall_app. split; [now apply encoderune_bytes | exact IH].
Qed.

(** Decoding reads back the encoding of a slice of scalar values. *)
Lemma rangeLoop_encoded (rs : list Z) :
  Forall scalarValue rs ->
  forall fuel, (length (flat_map runtime.encoderune rs) <= fuel)%nat ->
  utf8.rangeLoop fuel (flat_map runtime.encoderune rs) = rs.
Proof.
  induction 1 as [|r rs Hr _ IH]; intros fuel Hfuel.
  - destruct fuel; reflexivity.
  - cbn [flat_map] in *. rewrite length_app in Hfuel.
    destruct (encoderune_bytes r Hr) as [Hne _].
    pose proof (DecodeRune_encoderune r (flat_map runtime.encoderune rs) Hr) as Hdec.
    destruct (runtime.encoderune r) as [|b bs] eqn:Henc; [contradiction |].
    destruct fuel as [|fuel]; [cbn in Hfuel; lia |].
    cbn [utf8.rangeLoop app]. cbn [app] in Hdec. rewrite Hdec.
    change (b :: bs ++ flat_map runtime.encoderune rs)
      with ((b :: bs) ++ flat_map runtime.encoderune rs).
    rewrite drop_app_length. f_equal. apply IH. cbn [length] in Hfuel. lia.
Qed.

Lemma bytes_ofBytes (p : list Z) :
  Forall (fun b => 0 <= b < 256) p -> bytes (gostrings.ofBytes p) = p.
Proof.
  induction 1 as [|b p Hb _ IH]; [reflexivity |].
  unfold gostrings.ofBytes, bytes in *. cbn [map string_of_list_ascii list_ascii_of_string].
  rewrite IH. f_equal. now apply byteZ_of_byte.
Qed.

Lemma stringtoslicerune_slicerunetostring (rs : list Z) :
  Forall scalarValue rs ->
  runtime.stringtoslicerune (runtime.slicerunetostring rs) = rs.
Proof.
  intros Hrs. unfold runtime.stringtoslicerune, runtime.slicerunetostring, utf8.runes.
  rewrite bytes_ofBytes by now apply encoded_bytes.
  now apply rangeLoop_encoded.
Qed.

Lemma stringtoslicerune_scalar (s : string) :
  Forall scalarValue (runtime.stringtoslicerune s).
Proof.
  unfold runtime.stringtoslicerune, utf8.runes. apply rangeLoop_scalar, bytes_range.
Qed.

(** ** The plugin [reverse]: what [exec] returns *)

(** X21.  [exec] of the plugin [reverse] reverses the text rune by rune:
    it never fails, and the runes of the text it returns are the runes of
    the input in reverse order, whatever the bytes of the input (a byte
    that is not part of a valid UTF-8 sequence counts as the rune
    U+FFFD). *)
Theorem exec_reverses_runes (ctx : nat) (s : string) :
  exists out,
    reverse.exec ctx {| shared.Input.Text := s |} = (Some out, None)
    /\ runtime.stringtoslicerune (shared.Output.Text out)
       = rev (runtime.stringtoslicerune s).
Proof.
  eexists. split; [reflexivity |]. cbn [shared.Output.Text shared.Input.Text].
  rewrite swapLoop_whole. apply stringtoslicerune_slicerunetostring.
  apply Forall_rev, stringtoslicerune_scalar.
Qed.

(** X22.  [exec] applied twice gives the text back with every byte that
    is not part of a valid UTF-8 sequence replaced by the encoding of
    U+FFFD; so the text that encodes a slice of scalar values, that is
    any valid UTF-8 text, comes back unchanged. *)
Theorem exec_twice (s : string) :
  reverse.reversed (reverse.reversed s)
  = runtime.slicerunetostring (runtime.stringtoslicerune s)
  /\ (forall rs, Forall scalarValue rs ->
        reverse.reversed (reverse.reversed (runtime.slicerunetostring rs))
        = runtime.slicerunetostring rs).
Proof.
  assert (Htwice : forall t,
            reverse.reversed (reverse.reversed t)
            = runtime.slicerunetostring (runtime.stringtoslicerune t)).
  { intros t. unfold reverse.reversed, reverse.exec.
    cbn [fst shared.Output.Text shared.Input.Text].
    rewrite !swapLoop_whole.
    rewrite stringtoslicerune_slicerunetostring
      by apply Forall_rev, stringtoslicerune_scalar.
    now rewrite rev_involutive. }
  split; [apply Htwice |].
  intros rs Hrs. rewrite Htwice. now rewrite stringtoslicerune_slicerunetostring.
Qed.

Example reversed_ascii : reverse.reversed "Hello, World!" = "!dlroW ,olleH".
Proof. reflexivity. Qed.

Example reversed_two_byte_rune :
  reverse.reversed (String "a" (String "195" (String "169" "b")))
  = String "b" (String "195" (String "169" "a")).
Proof. reflexivity. Qed.

Example reversed_twice_invalid_byte :
  reverse.reversed (reverse.reversed (String "255" "a"))
  = String "239" (String "191" (String "189" "a")).
Proof. reflexivity. Qed.
